(** * AdaptFlip data utilities: a shallow embedding of [flip/data_utils.py]

    The development follows the Python module class by class.  NumPy integer
    arrays are lists of [Z]; row indices, entity indices and counts are [nat];
    the sparse interaction matrix (a dictionary of keys) is a finite set of
    (user, item) pairs.  Methods that mutate [self] take the object state and
    give back the state they leave behind, together with either a value or the
    exception they raise. *)

From Stdlib Require Import QArith.
From stdpp Require Import gmap list sorting strings.

Open Scope nat_scope.
Open Scope list_scope.

(** ** Exceptions and outcomes *)

(** The exceptions the modelled code can raise.  A bare [assert] carries no
    message, an [assert cond, msg] carries [msg]. *)
Inductive exn : Type :=
  | AssertionError (msg : option string)
  | IndexError
  | ValueError
  | AttributeError
  | OverflowError.

(** A constructor either raises or yields the object. *)
Inductive result (A : Type) : Type :=
  | Ok (a : A)
  | Err (e : exn).
Arguments Ok {A} a.
Arguments Err {A} e.

Definition rbind {A B} (r : result A) (k : A → result B) : result B :=
  match r with
  | Ok a => k a
  | Err e => Err e
  end.

(** ** NumPy helpers *)

(** [a[i]] for an index produced by [range(len(a))] or by [np.argsort],
    which is always in range. *)
Definition at_index (a : list Z) (i : nat) : Z := default 0%Z (a !! i).

(** [a[idx]] with an integer index array: every index must be in range. *)
Fixpoint take_indices (a : list Z) (idx : list nat) : result (list Z) :=
  match idx with
  | [] => Ok []
  | i :: idx' =>
      match a !! i with
      | None => Err IndexError
      | Some x => rbind (take_indices a idx') (λ xs, Ok (x :: xs))
      end
  end.

(** [np.unique(a)]: the sorted distinct values of [a]. *)
Definition np_unique (a : list Z) : list Z := merge_sort Z.le (remove_dups a).

(** [np.argsort(v)].  NumPy sorts with its default kind, which is not
    stable: entries that compare equal come out in an order that depends on
    the NumPy build.  The function is therefore a parameter, [np_argsort],
    of the code that calls it.  [is_argsort v r] is what NumPy promises of
    the result [r]: a permutation of the indices of [v] along which the
    entries ascend. *)
Fixpoint ascending (v : list Q) (r : list nat) : bool :=
  match r with
  | [] => true
  | a :: r' =>
      match r' with
      | [] => true
      | b :: _ => Qle_bool (nth a v 0%Q) (nth b v 0%Q) && ascending v r'
      end
  end.

Definition is_argsort (v : list Q) (r : list nat) : bool :=
  bool_decide (merge_sort (≤) r = seq 0 (length v)) && ascending v r.

(** Two functions that meet [is_argsort], for the worked examples: insertion
    sorts of the indices that leave equal entries in index order (what
    [kind='stable'] gives) and in reverse index order.  In both, [x] has a
    smaller index than everything in the list it is inserted into. *)
Fixpoint argsort_insert (key : nat → Q) (x : nat) (l : list nat) : list nat :=
  match l with
  | [] => [x]
  | y :: l' =>
      if Qle_bool (key x) (key y) then x :: y :: l'
      else y :: argsort_insert key x l'
  end.

Definition stable_argsort (v : list Q) : list nat :=
  foldr (argsort_insert (λ j, nth j v 0%Q)) [] (seq 0 (length v)).

Fixpoint argsort_insert_last (key : nat → Q) (x : nat) (l : list nat)
    : list nat :=
  match l with
  | [] => [x]
  | y :: l' =>
      if Qle_bool (key y) (key x) then y :: argsort_insert_last key x l'
      else x :: y :: l'
  end.

Definition ties_reversed_argsort (v : list Q) : list nat :=
  foldr (argsort_insert_last (λ j, nth j v 0%Q)) [] (seq 0 (length v)).

(** ** Cluster assignment ([assign_cluster_ids])

    The loop of [NCF_NeighborWise_Dataset.assign_cluster_ids] and of
    [CDAE_Neighbor_Data.assign_cluster_ids] is the same text; it is embedded
    once, over the number of entities, the group size, the similarity
    matrix that [cosine_similarity] returned and the [np.argsort] in use. *)

Definition similarity := nat → nat → Q.

Section Clustering.
Variable unique_samples : nat.
Variable group_size : nat.
Variable np_argsort : list Q → list nat.

(** [n // g + (n % g != 0)] *)
Definition cluster_count : nat :=
  unique_samples / group_size
  + (if bool_decide (unique_samples mod group_size ≠ 0) then 1 else 0).

(** The inner [for similar_sample in similar_samples[1:]] loop; [size] is
    the local [group_size] counter of the source. *)
Fixpoint fill_group (candidates : list nat) (cluster_id : nat)
    (clusters : list Z) (size : nat) : list Z :=
  match candidates with
  | [] => clusters
  | similar_sample :: rest =>
      if bool_decide (at_index clusters similar_sample = (-1)%Z) then
        let clusters' := <[similar_sample := Z.of_nat cluster_id]> clusters in
        if bool_decide (group_size ≤ S size) then clusters'
        else fill_group rest cluster_id clusters' (S size)
      else fill_group rest cluster_id clusters size
  end.

(** The outer [for sample in range(unique_samples)] loop with its [break]
    and [continue], parameterised by the ranking of each sample. *)
Fixpoint grouping_loop (similar_samples : nat → list nat)
    (samples : list nat) (clusters : list Z) (cluster_id : nat)
    : list Z * nat :=
  match samples with
  | [] => (clusters, cluster_id)
  | sample :: rest =>
      if bool_decide (cluster_id = unique_samples / group_size) then
        (clusters, cluster_id)
      else if bool_decide (at_index clusters sample ≠ (-1)%Z) then
        grouping_loop similar_samples rest clusters cluster_id
      else
        let clusters1 := <[sample := Z.of_nat cluster_id]> clusters in
        let clusters2 :=
          if bool_decide (1 < group_size) then
            fill_group (drop 1 (similar_samples sample)) cluster_id clusters1 1
          else clusters1 in
        grouping_loop similar_samples rest clusters2 (S cluster_id)
  end.

(** The [## Edge case] pass. *)
Definition repair_pass (clusters : list Z) (cluster_id : nat) : list Z :=
  if bool_decide (cluster_id < cluster_count) then
    foldl (λ cl sample,
             if bool_decide (at_index cl sample = (-1)%Z)
             then <[sample := Z.of_nat cluster_id]> cl else cl)
          clusters (seq 0 unique_samples)
  else clusters.

(** The whole assignment over given rankings: [clusters_per_sample]. *)
Definition assign_with_ranking (similar_samples : nat → list nat) : list Z :=
  let '(clusters, cluster_id) :=
    grouping_loop similar_samples (seq 0 unique_samples)
                  (replicate unique_samples (-1)%Z) 0 in
  repair_pass clusters cluster_id.

(** [-similarity_matrix[sample].toarray().flatten()] *)
Definition negated_row (similarity_matrix : similarity) (sample : nat)
    : list Q :=
  map (λ j, - similarity_matrix sample j)%Q (seq 0 unique_samples).

(** [np.argsort(-similarity_matrix[sample].toarray().flatten())] *)
Definition similar_samples (similarity_matrix : similarity) (sample : nat)
    : list nat :=
  np_argsort (negated_row similarity_matrix sample).

(** [assign_cluster_ids]: [(cluster_num, clusters_per_sample)]. *)
Definition assign_cluster_ids (similarity_matrix : similarity)
    : nat * list Z :=
  (cluster_count, assign_with_ranking (similar_samples similarity_matrix)).
End Clustering.


(** ** [NCF_Dataset] *)

(** A method call on an object of state [S]: it returns a value, or raises,
    in both cases leaving a state behind; or the random draws supplied to it
    run out before it is done (the rejection loop of [ng_sample] has no
    bound). *)
Inductive outcome (S A : Type) : Type :=
  | Returns (s : S) (a : A)
  | Raises (s : S) (e : exn)
  | OutOfDraws.
Arguments Returns {S A} s a.
Arguments Raises {S A} s e.
Arguments OutOfDraws {S A}.

Definition state_after {S A} (before : S) (o : outcome S A) : S :=
  match o with
  | Returns s _ => s
  | Raises s _ => s
  | OutOfDraws => before
  end.

(** What the [*_fill] attributes hold once [ng_sample] has run.  With
    [num_ng == 0] they are bound to the very arrays [features], [labels],
    [true_labels] and [train_labels] (so a later in-place flip shows through
    them); otherwise they are freshly concatenated arrays. *)
Inductive filled : Type :=
  | SameArrays
  | FreshArrays (features_fill : list (nat * nat))
                (labels_fill true_labels_fill train_labels_fill : list Z).

Record NCF_Dataset : Type := {
  user_num : nat;
  item_num : nat;
  features : list (nat * nat);
  true_labels : list Z;
  train_mat : gset (nat * nat);
  is_training : nat;
  num_ng : nat;
  labels : list Z;
  train_labels : list Z;
  fill : option filled
}.

(** [NCF_Dataset.__init__] *)
Definition NCF_Dataset_init (user_num item_num : nat)
    (features : list (nat * nat)) (train_mat : gset (nat * nat))
    (true_labels : list Z) (is_training num_ng : nat) : NCF_Dataset :=
  {| user_num := user_num; item_num := item_num; features := features;
     true_labels := true_labels; train_mat := train_mat;
     is_training := is_training; num_ng := num_ng;
     labels := replicate (length features) 1%Z;
     train_labels := replicate (length features) 1%Z;
     fill := None |}.

Definition with_fill (d : NCF_Dataset) (f : filled) : NCF_Dataset :=
  {| user_num := user_num d; item_num := item_num d; features := features d;
     true_labels := true_labels d; train_mat := train_mat d;
     is_training := is_training d; num_ng := num_ng d;
     labels := labels d; train_labels := train_labels d; fill := Some f |}.

Definition with_train_labels (d : NCF_Dataset) (l : list Z) : NCF_Dataset :=
  {| user_num := user_num d; item_num := item_num d; features := features d;
     true_labels := true_labels d; train_mat := train_mat d;
     is_training := is_training d; num_ng := num_ng d;
     labels := labels d; train_labels := l; fill := fill d |}.

(** The [*_fill] attributes; [None] while [ng_sample] has not set them. *)
Definition features_fill (d : NCF_Dataset) : option (list (nat * nat)) :=
  match fill d with
  | None => None
  | Some SameArrays => Some (features d)
  | Some (FreshArrays f _ _ _) => Some f
  end.

Definition labels_fill (d : NCF_Dataset) : option (list Z) :=
  match fill d with
  | None => None
  | Some SameArrays => Some (labels d)
  | Some (FreshArrays _ l _ _) => Some l
  end.

Definition true_labels_fill (d : NCF_Dataset) : option (list Z) :=
  match fill d with
  | None => None
  | Some SameArrays => Some (true_labels d)
  | Some (FreshArrays _ _ l _) => Some l
  end.

Definition train_labels_fill (d : NCF_Dataset) : option (list Z) :=
  match fill d with
  | None => None
  | Some SameArrays => Some (train_labels d)
  | Some (FreshArrays _ _ _ l) => Some l
  end.

(** *** [ng_sample]

    The random source is a tape of raw draws: [np.random.randint(n)] takes
    the next one and reduces it into [[0, n)]; it raises [ValueError] for
    [n = 0]. *)

(** [j = randint(item_num); while (u, j) in train_mat: j = randint(item_num)] *)
Fixpoint draw_negative (train_mat : gset (nat * nat)) (item_num u : nat)
    (draws : list nat) : outcome (list nat) nat :=
  if bool_decide (item_num = 0) then Raises draws ValueError
  else match draws with
       | [] => OutOfDraws
       | r :: rest =>
           let j := r mod item_num in
           if bool_decide ((u, j) ∈ train_mat)
           then draw_negative train_mat item_num u rest
           else Returns rest j
       end.

(** [for u, _ in self.features: ... negative_samples.append((u, j))] *)
Fixpoint negatives_pass (train_mat : gset (nat * nat)) (item_num : nat)
    (rows : list (nat * nat)) (draws : list nat)
    : outcome (list nat) (list (nat * nat)) :=
  match rows with
  | [] => Returns draws []
  | (u, _) :: rows' =>
      match draw_negative train_mat item_num u draws with
      | Returns draws1 j =>
          match negatives_pass train_mat item_num rows' draws1 with
          | Returns draws2 negs => Returns draws2 ((u, j) :: negs)
          | Raises s e => Raises s e
          | OutOfDraws => OutOfDraws
          end
      | Raises s e => Raises s e
      | OutOfDraws => OutOfDraws
      end
  end.

(** [for _ in range(self.num_ng): <one pass>] *)
Fixpoint sample_negatives (train_mat : gset (nat * nat)) (item_num : nat)
    (rows : list (nat * nat)) (passes : nat) (draws : list nat)
    : outcome (list nat) (list (nat * nat)) :=
  match passes with
  | 0 => Returns draws []
  | S passes' =>
      match negatives_pass train_mat item_num rows draws with
      | Returns draws1 negs1 =>
          match sample_negatives train_mat item_num rows passes' draws1 with
          | Returns draws2 negs2 => Returns draws2 (negs1 ++ negs2)
          | Raises s e => Raises s e
          | OutOfDraws => OutOfDraws
          end
      | Raises s e => Raises s e
      | OutOfDraws => OutOfDraws
      end
  end.

(** [NCF_Dataset.ng_sample].  The attribute [negative_samples] is read
    nowhere else and is the local [negs] here.  Concatenating the
    two-dimensional [features] with an empty (one-dimensional) array of
    negatives is a [ValueError] of NumPy. *)
Definition ng_sample (d : NCF_Dataset) (draws : list nat)
    : outcome (NCF_Dataset * list nat) unit :=
  if bool_decide (is_training d = 2) then
    Raises (d, draws) (AssertionError (Some "Sampling only for training mode"%string))
  else if bool_decide (num_ng d = 0) then
    Returns (with_fill d SameArrays, draws) ()
  else
    match sample_negatives (train_mat d) (item_num d) (features d) (num_ng d) draws with
    | OutOfDraws => OutOfDraws
    | Raises draws' e => Raises (d, draws') e
    | Returns draws' negs =>
        if bool_decide (negs = []) then Raises (d, draws') ValueError
        else
          let zeros := replicate (length negs) 0%Z in
          let features_fill := features d ++ negs in
          let labels_fill := labels d ++ zeros in
          let true_labels_fill := true_labels d ++ zeros in
          let train_labels_fill := train_labels d ++ zeros in
          let d' := with_fill d (FreshArrays features_fill labels_fill
                                             true_labels_fill train_labels_fill) in
          if bool_decide (length features_fill = length labels_fill
                          ∧ length features_fill = length true_labels_fill
                          ∧ length features_fill = length train_labels_fill)
          then Returns (d', draws') ()
          else Raises (d', draws') (AssertionError None)
    end.

(** *** [flip_labels] and [get_state] *)

(** An entry of an [int32] index array as a position of an array of length
    [len]: negative entries count from the end, anything else outside
    [[-len, len)] is an [IndexError]. *)
Definition position (len : nat) (i : Z) : option nat :=
  if bool_decide (0 ≤ i < Z.of_nat len)%Z then Some (Z.to_nat i)
  else if bool_decide (- Z.of_nat len ≤ i < 0)%Z then Some (Z.to_nat (Z.of_nat len + i))
  else None.

Fixpoint positions (len : nat) (idx : list Z) : result (list nat) :=
  match idx with
  | [] => Ok []
  | i :: idx' =>
      match position len i with
      | None => Err IndexError
      | Some p => rbind (positions len idx') (λ ps, Ok (p :: ps))
      end
  end.

(** [a[ps] = vs]: the writes happen in order, the right-hand side having
    been computed before. *)
Definition scatter (a : list Z) (ps : list nat) (vs : list Z) : list Z :=
  foldl (λ acc pv, <[pv.1 := pv.2]> acc) a (zip ps vs).

(** [(a == v)] and [np.sum] of a boolean array. *)
Definition np_eq (a : list Z) (v : Z) : list bool :=
  map (λ x, bool_decide (x = v)) a.

Definition np_sum (m : list bool) : nat := length (filter (λ b, b = true) m).

(** [m1 & m2] with NumPy broadcasting of one-dimensional arrays. *)
Definition np_and (m1 m2 : list bool) : result (list bool) :=
  if bool_decide (length m1 = length m2) then Ok (zip_with andb m1 m2)
  else match m1, m2 with
       | [b], _ => Ok (map (andb b) m2)
       | _, [b] => Ok (map (λ x, andb x b) m1)
       | _, _ => Err ValueError
       end.

(** The numbers [get_state] prints. *)
Record state_counts : Type := {
  pos_train : nat; neg_train : nat;
  true_pos : nat; true_neg : nat; false_pos : nat; false_neg : nat
}.

(** [NCF_Dataset.get_state]: a pure read of [train_labels] and
    [true_labels]. *)
Definition get_state (d : NCF_Dataset) : result state_counts :=
  let train_pos_mask := np_eq (train_labels d) 1 in
  let train_neg_mask := np_eq (train_labels d) 0 in
  let true_pos_mask := np_eq (true_labels d) 1 in
  let true_neg_mask := np_eq (true_labels d) 0 in
  rbind (np_and train_pos_mask true_pos_mask) (λ tp,
  rbind (np_and train_neg_mask true_neg_mask) (λ tn,
  rbind (np_and train_pos_mask true_neg_mask) (λ fp,
  rbind (np_and train_neg_mask true_pos_mask) (λ fn,
  Ok {| pos_train := np_sum train_pos_mask; neg_train := np_sum train_neg_mask;
        true_pos := np_sum tp; true_neg := np_sum tn;
        false_pos := np_sum fp; false_neg := np_sum fn |})))).

(** [np.array(indices, dtype=np.int32)] on a list of Python integers: an
    entry outside the [int32] range is an [OverflowError] (NumPy 2; older
    releases wrapped such an entry around, with a deprecation warning). *)
Definition fits_int32 (i : Z) : Prop := (-2147483648 ≤ i ≤ 2147483647)%Z.

Global Instance fits_int32_dec i : Decision (fits_int32 i).
Proof. unfold fits_int32. apply _. Defined.

Definition np_array_int32 (l : list Z) : result (list Z) :=
  if bool_decide (Forall fits_int32 l) then Ok l else Err OverflowError.

(** What [flip_labels] prints: the two flip counts and the state. *)
Record flip_report : Type := {
  flip0_1 : nat; flip1_0 : nat; after_flip : state_counts
}.

(** [NCF_Dataset.flip_labels] *)
Definition flip_labels (d : NCF_Dataset) (indices : list Z)
    : outcome NCF_Dataset flip_report :=
  if bool_decide (is_training d = 2) then
    Raises d (AssertionError (Some "no flipping when testing"%string))
  else
    match np_array_int32 indices with
    | Err e => Raises d e
    | Ok indices =>
        let valid_indices :=
          filter (λ i, (i < Z.of_nat (length (train_labels d)))%Z) indices in
        match positions (length (train_labels d)) valid_indices with
        | Err e => Raises d e
        | Ok ps =>
            let old := map (at_index (train_labels d)) ps in
            let d' := with_train_labels d
                        (scatter (train_labels d) ps (map (λ x, 1 - x)%Z old)) in
            match get_state d' with
            | Err e => Raises d' e
            | Ok st =>
                Returns d' {| flip0_1 := np_sum (np_eq old 0);
                              flip1_0 := np_sum (np_eq old 1);
                              after_flip := st |}
            end
        end
    end.

(** *** [__len__] and [__getitem__] of the four sample views *)

(** One row, as the pointwise [__getitem__] returns it. *)
Record sample_row : Type := {
  r_user : nat; r_item : nat; r_label : Z; r_train_label : Z;
  r_true_label : Z; r_idx : nat
}.

(** The rows of one group, as the grouped [__getitem__]s return them. *)
Record sample_group : Type := {
  g_user : list nat; g_item : list nat; g_labels : list Z;
  g_train_labels : list Z; g_true_labels : list Z; g_idx : list nat
}.

(** The arrays every [__getitem__] starts from.  In evaluation mode it
    reads [self.features_ps], which nothing defines; before [ng_sample] the
    [*_fill] attributes do not exist. *)
Definition filled_arrays (d : NCF_Dataset)
    : result (list (nat * nat) * list Z * list Z * list Z) :=
  if bool_decide (is_training d = 2) then Err AttributeError
  else match features_fill d, labels_fill d, true_labels_fill d, train_labels_fill d with
       | Some f, Some l, Some tl, Some trl => Ok (f, l, tl, trl)
       | _, _, _, _ => Err AttributeError
       end.

Definition lookup_or_raise {A} (a : list A) (i : nat) : result A :=
  match a !! i with
  | Some x => Ok x
  | None => Err IndexError
  end.

(** [a[mask]] with a boolean mask, which must be as long as [a]. *)
Definition mask_select {A} (a : list A) (mask : list bool) : result (list A) :=
  if bool_decide (length mask = length a)
  then Ok (map fst (filter (λ xb, xb.2 = true) (zip a mask)))
  else Err IndexError.

(** [np.where(mask)[0]] *)
Definition np_where (mask : list bool) : list nat :=
  map fst (filter (λ ib, ib.2 = true) (zip (seq 0 (length mask)) mask)).

(** [NCF_Dataset.__len__] *)
Definition NCF_Dataset_len (d : NCF_Dataset) : nat :=
  length (features d) * (num_ng d + 1).

(** [NCF_Dataset.__getitem__] *)
Definition NCF_Dataset_getitem (d : NCF_Dataset) (idx : nat) : result sample_row :=
  rbind (filled_arrays d) (λ '(f, l, tl, trl),
  rbind (lookup_or_raise f idx) (λ ui,
  rbind (lookup_or_raise l idx) (λ label,
  rbind (lookup_or_raise trl idx) (λ train_label,
  rbind (lookup_or_raise tl idx) (λ true_label,
  Ok {| r_user := ui.1; r_item := ui.2; r_label := label;
        r_train_label := train_label; r_true_label := true_label;
        r_idx := idx |}))))).

(** The common tail of the three grouped [__getitem__]s, from the mask on. *)
Definition select_group (f : list (nat * nat)) (l tl trl : list Z)
    (mask : list bool) : result sample_group :=
  rbind (mask_select (map fst f) mask) (λ user,
  rbind (mask_select (map snd f) mask) (λ item,
  rbind (mask_select l mask) (λ labels,
  rbind (mask_select tl mask) (λ true_labels,
  rbind (mask_select trl mask) (λ train_labels,
  Ok {| g_user := user; g_item := item; g_labels := labels;
        g_train_labels := train_labels; g_true_labels := true_labels;
        g_idx := np_where mask |}))))).

(** [NCF_UserWise_Dataset] *)
Definition NCF_UserWise_Dataset_len (d : NCF_Dataset) : nat := user_num d.

Definition NCF_UserWise_Dataset_getitem (d : NCF_Dataset) (user_id : nat)
    : result sample_group :=
  rbind (filled_arrays d) (λ '(f, l, tl, trl),
  select_group f l tl trl (map (λ ui, bool_decide (ui.1 = user_id)) f)).

(** [NCF_ItemWise_Dataset] *)
Definition NCF_ItemWise_Dataset_len (d : NCF_Dataset) : nat := item_num d.

Definition NCF_ItemWise_Dataset_getitem (d : NCF_Dataset) (item_id : nat)
    : result sample_group :=
  rbind (filled_arrays d) (λ '(f, l, tl, trl),
  select_group f l tl trl (map (λ ui, bool_decide (ui.2 = item_id)) f)).

(** ** [NCF_NeighborWise_Dataset] *)

Inductive neighbor_kind : Type := by_user | by_item.

Record NCF_NeighborWise_Dataset : Type := {
  nw_base : NCF_Dataset;
  nw_group_size : nat;
  neighbor_type : neighbor_kind;
  cluster_num : nat;
  clusters_per_sample : list Z;
  cluster_ids : list Z;
  cluster_ids_fill : option (list Z)
}.

(** The column of [features] the configured neighbor type looks at. *)
Definition entity_column (k : neighbor_kind) (f : list (nat * nat)) : list nat :=
  match k with
  | by_user => map fst f
  | by_item => map snd f
  end.

Definition entity_count (k : neighbor_kind) (d : NCF_Dataset) : nat :=
  match k with
  | by_user => user_num d
  | by_item => item_num d
  end.

(** [NCF_NeighborWise_Dataset.__init__].  [cosine_similarity] stands for the
    matrix scikit-learn computes from [train_mat] (or its transpose) inside
    [assign_cluster_ids], [np_argsort] for the sort NumPy runs there; the
    last lines of that method index [clusters_per_sample] with a column of
    [features]. *)
Definition NCF_NeighborWise_Dataset_init (np_argsort : list Q → list nat)
    (cosine_similarity : similarity)
    (user_num item_num : nat) (features : list (nat * nat))
    (train_mat : gset (nat * nat)) (true_labels : list Z)
    (is_training num_ng group_size : nat) (neighbor_type : neighbor_kind)
    : result NCF_NeighborWise_Dataset :=
  let base := NCF_Dataset_init user_num item_num features train_mat
                               true_labels is_training num_ng in
  if bool_decide (group_size < 1) then
    Err (AssertionError (Some "Group size must be at least 1"%string))
  else
    let '(cluster_num, clusters) :=
      assign_cluster_ids (entity_count neighbor_type base) group_size
                         np_argsort cosine_similarity in
    rbind (take_indices clusters (entity_column neighbor_type features)) (λ ids,
    if bool_decide (cluster_num = length (np_unique clusters)) then
      Ok {| nw_base := base; nw_group_size := group_size;
            neighbor_type := neighbor_type; cluster_num := cluster_num;
            clusters_per_sample := clusters; cluster_ids := ids;
            cluster_ids_fill := None |}
    else Err (AssertionError None)).

Definition with_base (c : NCF_NeighborWise_Dataset) (d : NCF_Dataset)
    (ids_fill : option (list Z)) : NCF_NeighborWise_Dataset :=
  {| nw_base := d; nw_group_size := nw_group_size c;
     neighbor_type := neighbor_type c; cluster_num := cluster_num c;
     clusters_per_sample := clusters_per_sample c;
     cluster_ids := cluster_ids c; cluster_ids_fill := ids_fill |}.

(** [NCF_NeighborWise_Dataset.ng_sample] *)
Definition NCF_NeighborWise_Dataset_ng_sample (c : NCF_NeighborWise_Dataset)
    (draws : list nat) : outcome (NCF_NeighborWise_Dataset * list nat) unit :=
  match ng_sample (nw_base c) draws with
  | OutOfDraws => OutOfDraws
  | Raises (d, draws') e => Raises (with_base c d (cluster_ids_fill c), draws') e
  | Returns (d, draws') _ =>
      let c' := with_base c d (cluster_ids_fill c) in
      match features_fill d with
      | None => Raises (c', draws') AttributeError
      | Some f =>
          match take_indices (clusters_per_sample c) (entity_column (neighbor_type c) f) with
          | Err e => Raises (c', draws') e
          | Ok ids => Returns (with_base c d (Some ids), draws') ()
          end
      end
  end.

Definition NCF_NeighborWise_Dataset_len (c : NCF_NeighborWise_Dataset) : nat :=
  cluster_num c.

(** [NCF_NeighborWise_Dataset.__getitem__] *)
Definition NCF_NeighborWise_Dataset_getitem (c : NCF_NeighborWise_Dataset)
    (cluster_id : nat) : result sample_group :=
  rbind (filled_arrays (nw_base c)) (λ '(f, l, tl, trl),
  match cluster_ids_fill c with
  | None => Err AttributeError
  | Some ids =>
      select_group f l tl trl (np_eq ids (Z.of_nat cluster_id))
  end).

(** ** [CDAE_Data] and [CDAE_Neighbor_Data] *)

Record CDAE_Neighbor_Data : Type := {
  cdae_train_mat : gmap (nat * nat) Z;
  cdae_label_mat : gmap (nat * nat) Z;
  cdae_user_num : nat;
  cdae_item_num : nat;
  cdae_true_label : gmap (nat * nat) Z;
  cdae_group_size : nat;
  cdae_cluster_num : nat;
  cdae_clusters_per_sample : list Z
}.

(** [CDAE_Neighbor_Data.__init__]; [cosine_similarity] and [np_argsort] as
    above. *)
Definition CDAE_Neighbor_Data_init (np_argsort : list Q → list nat)
    (cosine_similarity : similarity)
    (train_mat : gmap (nat * nat) Z) (user_num item_num : nat)
    (true_label : gmap (nat * nat) Z) (group_size : nat)
    : result CDAE_Neighbor_Data :=
  if bool_decide (group_size < 1) then
    Err (AssertionError (Some "Group size must be at least 1"%string))
  else
    let '(cluster_num, clusters) :=
      assign_cluster_ids user_num group_size np_argsort cosine_similarity in
    if bool_decide (cluster_num = length (np_unique clusters)) then
      Ok {| cdae_train_mat := train_mat; cdae_label_mat := train_mat;
            cdae_user_num := user_num; cdae_item_num := item_num;
            cdae_true_label := true_label; cdae_group_size := group_size;
            cdae_cluster_num := cluster_num;
            cdae_clusters_per_sample := clusters |}
    else Err (AssertionError None).

Definition CDAE_Neighbor_Data_len (c : CDAE_Neighbor_Data) : nat :=
  cdae_cluster_num c.

(** ** The four grouped sample views as one interface *)

Inductive sample_view : Type :=
  | Pointwise (d : NCF_Dataset)
  | UserWise (d : NCF_Dataset)
  | ItemWise (d : NCF_Dataset)
  | NeighborWise (c : NCF_NeighborWise_Dataset).

Definition view_base (v : sample_view) : NCF_Dataset :=
  match v with
  | Pointwise d | UserWise d | ItemWise d => d
  | NeighborWise c => nw_base c
  end.

Definition set_base (v : sample_view) (d : NCF_Dataset) : sample_view :=
  match v with
  | Pointwise _ => Pointwise d
  | UserWise _ => UserWise d
  | ItemWise _ => ItemWise d
  | NeighborWise c => NeighborWise (with_base c d (cluster_ids_fill c))
  end.

(** [len(view)]: the number of groups. *)
Definition group_count (v : sample_view) : nat :=
  match v with
  | Pointwise d => NCF_Dataset_len d
  | UserWise d => NCF_UserWise_Dataset_len d
  | ItemWise d => NCF_ItemWise_Dataset_len d
  | NeighborWise c => NCF_NeighborWise_Dataset_len c
  end.

(** The [idx] component of [view[group_id]]. *)
Definition get_group_idx (v : sample_view) (group_id : nat) : result (list nat) :=
  match v with
  | Pointwise d => rbind (NCF_Dataset_getitem d group_id) (λ r, Ok [r_idx r])
  | UserWise d => rbind (NCF_UserWise_Dataset_getitem d group_id) (λ g, Ok (g_idx g))
  | ItemWise d => rbind (NCF_ItemWise_Dataset_getitem d group_id) (λ g, Ok (g_idx g))
  | NeighborWise c => rbind (NCF_NeighborWise_Dataset_getitem c group_id) (λ g, Ok (g_idx g))
  end.

(** [get_group_idx] over all of [range(len(view))]. *)
Fixpoint all_groups_idx (v : sample_view) (group_ids : list nat)
    : result (list (list nat)) :=
  match group_ids with
  | [] => Ok []
  | g :: rest =>
      rbind (get_group_idx v g) (λ idx,
      rbind (all_groups_idx v rest) (λ idxs, Ok (idx :: idxs)))
  end.

Definition view_ng_sample (v : sample_view) (draws : list nat)
    : outcome (sample_view * list nat) unit :=
  match v with
  | NeighborWise c =>
      match NCF_NeighborWise_Dataset_ng_sample c draws with
      | Returns (c', draws') _ => Returns (NeighborWise c', draws') ()
      | Raises (c', draws') e => Raises (NeighborWise c', draws') e
      | OutOfDraws => OutOfDraws
      end
  | _ =>
      match ng_sample (view_base v) draws with
      | Returns (d, draws') _ => Returns (set_base v d, draws') ()
      | Raises (d, draws') e => Raises (set_base v d, draws') e
      | OutOfDraws => OutOfDraws
      end
  end.

Definition view_flip_labels (v : sample_view) (indices : list Z)
    : outcome sample_view flip_report :=
  match flip_labels (view_base v) indices with
  | Returns d r => Returns (set_base v d) r
  | Raises d e => Raises (set_base v d) e
  | OutOfDraws => OutOfDraws
  end.

(** A view as a program can hold it: built by its constructor, then
    changed only by calls of [ng_sample] and [flip_labels] that returned. *)
Inductive constructed : sample_view → Prop :=
  | new_pointwise un inum f tm tl it ng :
      constructed (Pointwise (NCF_Dataset_init un inum f tm tl it ng))
  | new_userwise un inum f tm tl it ng :
      constructed (UserWise (NCF_Dataset_init un inum f tm tl it ng))
  | new_itemwise un inum f tm tl it ng :
      constructed (ItemWise (NCF_Dataset_init un inum f tm tl it ng))
  | new_neighborwise argsort sim un inum f tm tl it ng gs nt c :
      NCF_NeighborWise_Dataset_init argsort sim un inum f tm tl it ng gs nt = Ok c →
      constructed (NeighborWise c).

Inductive reachable : sample_view → Prop :=
  | reach_new v : constructed v → reachable v
  | reach_ng_sample v draws v' draws' :
      reachable v → view_ng_sample v draws = Returns (v', draws') () →
      reachable v'
  | reach_flip v indices v' report :
      reachable v → view_flip_labels v indices = Returns v' report →
      reachable v'.

(** The data model the dataset classes take for granted: one true label
    per interaction record, and entity indices below the entity counts. *)
Definition aligned (d : NCF_Dataset) : Prop :=
  length (true_labels d) = length (features d).

Definition entities_in_range (d : NCF_Dataset) : Prop :=
  Forall (λ ui, ui.1 < user_num d ∧ ui.2 < item_num d) (features d).

Definition sim_of_rows (rows : list (list Q)) : similarity :=
  λ i j, nth j (nth i rows []) 0%Q.

(** ** Notions used to state the properties *)

(** The number of positions of [l] still holding the sentinel. *)
Definition unassigned_in (cl : list Z) (l : list nat) : nat :=
  length (filter (λ i, at_index cl i = (-1)%Z) l).

Definition unassigned (cl : list Z) : nat :=
  unassigned_in cl (seq 0 (length cl)).

(** [cl'] arises from [cl] by giving some unassigned entities the id [c]. *)
Definition extends_with (c : nat) (cl cl' : list Z) : Prop :=
  length cl' = length cl
  ∧ ∀ i, at_index cl' i = at_index cl i
         ∨ (at_index cl i = (-1)%Z ∧ at_index cl' i = Z.of_nat c).

(** A ranking as the clustering loop needs it: a permutation of all entity
    indices whose first entry is the entity itself or an entity the loop has
    passed already. *)
Definition well_ranked (n : nat) (ranking : nat → list nat) : Prop :=
  ∀ s, s < n →
    ranking s ≡ₚ seq 0 n ∧ ∃ t rest, ranking s = t :: rest ∧ t ≤ s.

(** The invariant of the outer clustering loop on reaching sample [s] with
    the counter at [c]. *)
Definition loop_inv (n g s : nat) (cl : list Z) (c : nat) : Prop :=
  length cl = n
  ∧ (∀ i, i < s → at_index cl i ≠ (-1)%Z)
  ∧ (∀ i, i < n → at_index cl i = (-1)%Z ∨ (0 ≤ at_index cl i < Z.of_nat c)%Z)
  ∧ c ≤ n / g
  ∧ unassigned cl + c * g = n.

(** The number of distinct values an array holds. *)
Definition distinct_values (a : list Z) : nat := size (list_to_set a : gset Z).

(** A similarity matrix of five entities in which 0 and 1 are each other's
    nearest neighbours, and so are 2 and 3. *)
Definition five_entities : similarity :=
  sim_of_rows [[1; 0.5; 0; 0; 0];
               [0.5; 1; 0; 0; 0];
               [0; 0; 1; 0.9; 0.1];
               [0; 0; 0.9; 1; 0];
               [0; 0; 0.1; 0; 1]]%Q.

(** A matrix whose first entity is more similar to the other one than to
    itself. *)
Definition not_self_similar : similarity := sim_of_rows [[0; 1]; [1; 0]]%Q.

(** The number of items two users share, and what it is for [sim] to be
    the cosine similarity of the rows of a binary interaction matrix,
    stated without the square root: [sim(u1, u2)] is not negative and its
    square times [|row u1| * |row u2|] is [|row u1 ∩ row u2|] squared. *)
Definition shared_items (tm : gset (nat * nat)) (item_num u1 u2 : nat) : nat :=
  length (filter (λ i, (u1, i) ∈ tm ∧ (u2, i) ∈ tm) (seq 0 item_num)).

Definition is_cosine_similarity (tm : gset (nat * nat))
    (user_num item_num : nat) (sim : similarity) : Prop :=
  ∀ u1 u2, u1 < user_num → u2 < user_num →
    (0 <= sim u1 u2)%Q
    ∧ (sim u1 u2 * sim u1 u2
       * inject_Z (Z.of_nat (shared_items tm item_num u1 u1
                             * shared_items tm item_num u2 u2))
       == inject_Z (Z.of_nat (shared_items tm item_num u1 u2
                              * shared_items tm item_num u1 u2)))%Q.

(** Four users and five items: user 0 interacted with items 0 to 3, user 1
    with item 0, users 2 and 3 with item 4 only.  [twin_users] is the
    cosine similarity of their interaction rows; users 2 and 3 are as
    similar to each other as to themselves. *)
Definition twin_users_features : list (nat * nat) :=
  [(0, 0); (0, 1); (0, 2); (0, 3); (1, 0); (2, 4); (3, 4)].

Definition twin_users_mat : gset (nat * nat) :=
  list_to_set twin_users_features.

Definition twin_users : similarity :=
  sim_of_rows [[1; 0.5; 0; 0];
               [0.5; 1; 0; 0];
               [0; 0; 1; 1];
               [0; 0; 1; 1]]%Q.

(** A raw draw that ends the rejection loop of [ng_sample] whichever user
    it is drawn for, and the number of such draws on a tape. *)
Definition free_for_all (d : NCF_Dataset) (r : nat) : Prop :=
  Forall (λ ui, (ui.1, r mod item_num d) ∉ train_mat d) (features d).

Global Instance free_for_all_dec d r : Decision (free_for_all d r).
Proof. unfold free_for_all. apply _. Defined.

Definition free_draws (d : NCF_Dataset) (draws : list nat) : nat :=
  length (filter (free_for_all d) draws).

(** The invariant of objects of the dataset classes. *)
Definition fill_inv (d : NCF_Dataset) : Prop :=
  match fill d with
  | None => True
  | Some SameArrays => num_ng d = 0 ∧ is_training d ≠ 2
  | Some (FreshArrays f l tl trl) =>
      is_training d ≠ 2
      ∧ length l = length f ∧ length tl = length f ∧ length trl = length f
      ∧ ∃ negs, f = features d ++ negs
                ∧ length negs = num_ng d * length (features d)
                ∧ Forall (λ uj, uj.2 < item_num d) negs
                ∧ Forall (λ uj, uj.1 ∈ map fst (features d)) negs
  end.

Definition base_inv (d : NCF_Dataset) : Prop :=
  length (labels d) = length (features d)
  ∧ length (train_labels d) = length (features d)
  ∧ fill_inv d.

(** The store of the worked example: two positive pairs, ten items, one
    negative per positive. *)
Definition two_pairs_mat : gset (nat * nat) := {[ (0, 5); (1, 2) ]}.

Definition two_pairs (is_training num_ng : nat) : NCF_Dataset :=
  NCF_Dataset_init 2 10 [(0, 5); (1, 2)] two_pairs_mat [1; 0]%Z
                   is_training num_ng.

(** The same store after [ng_sample] drew 5 (rejected) and 3 for user 0,
    then 2 (rejected) and 7 for user 1. *)
Definition two_pairs_sampled : NCF_Dataset :=
  with_fill (two_pairs 0 1)
    (FreshArrays [(0, 5); (1, 2); (0, 3); (1, 7)]
                 [1; 1; 0; 0]%Z [1; 0; 0; 0]%Z [1; 1; 0; 0]%Z).

(** [a[ps] = 1 - a[ps]], the update [flip_labels] performs. *)
Definition toggle_at (a : list Z) (ps : list nat) : list Z :=
  scatter a ps (map (λ x, 1 - x)%Z (map (at_index a) ps)).

(** The state [flip_labels] leaves behind, however it ends. *)
Definition flip_state (d : NCF_Dataset) (indices : list Z) : NCF_Dataset :=
  state_after d (flip_labels d indices).

(** The sampled example store after [flip_labels [2; 0]], and what that
    call prints. *)
Definition two_pairs_flipped : NCF_Dataset :=
  with_train_labels two_pairs_sampled [0; 1]%Z.

Definition two_pairs_flip_report : flip_report :=
  {| flip0_1 := 0; flip1_0 := 1;
     after_flip := {| pos_train := 1; neg_train := 1; true_pos := 0;
                      true_neg := 0; false_pos := 1; false_neg := 1 |} |}.

(** What the outer clustering loop keeps true under any ranking: entries
    are the sentinel or an id below the counter, every id below the counter
    is in use, and the counter never passes [n // g]. *)
Definition ids_inv (n g : nat) (cl : list Z) (c : nat) : Prop :=
  (∀ i, i < length cl →
     at_index cl i = (-1)%Z ∨ (0 ≤ at_index cl i < Z.of_nat c)%Z)
  ∧ (∀ j, j < c → ∃ i, i < length cl ∧ at_index cl i = Z.of_nat j)
  ∧ c ≤ n / g.

(** The invariant of a neighbor-wise dataset object. *)
Definition nw_inv (c : NCF_NeighborWise_Dataset) : Prop :=
  length (clusters_per_sample c) = entity_count (neighbor_type c) (nw_base c)
  ∧ (∀ i, i < length (clusters_per_sample c) →
       (0 ≤ at_index (clusters_per_sample c) i < Z.of_nat (cluster_num c))%Z)
  ∧ Forall (λ e, e < entity_count (neighbor_type c) (nw_base c))
           (entity_column (neighbor_type c) (features (nw_base c)))
  ∧ match cluster_ids_fill c, features_fill (nw_base c) with
    | Some ids, Some f =>
        ids = map (at_index (clusters_per_sample c))
                  (entity_column (neighbor_type c) f)
        ∧ Forall (λ e, e < length (clusters_per_sample c))
                 (entity_column (neighbor_type c) f)
    | None, None => True
    | _, _ => False
    end.

Definition view_inv (v : sample_view) : Prop :=
  base_inv (view_base v)
  ∧ match v with
    | NeighborWise c => nw_inv c
    | _ => True
    end.

(** What a grouped view needs of its rows for every row to fall into one
    of its groups: the user-wise view, user indices below [user_num]; the
    item-wise view, item indices below [item_num]. *)
Definition keys_in_range (v : sample_view) : Prop :=
  match v with
  | UserWise d => Forall (λ ui, ui.1 < user_num d) (features d)
  | ItemWise d => Forall (λ ui, ui.2 < item_num d) (features d)
  | _ => True
  end.

(** The example store as a neighbor-wise dataset over its two users, each
    a group of its own, before and after the sampling above. *)
Definition two_users : similarity := sim_of_rows [[1; 0]; [0; 1]]%Q.

Definition two_pairs_clustered : NCF_NeighborWise_Dataset :=
  {| nw_base := two_pairs 0 1; nw_group_size := 1; neighbor_type := by_user;
     cluster_num := 2; clusters_per_sample := [0; 1]%Z;
     cluster_ids := [0; 1]%Z; cluster_ids_fill := None |}.

Definition two_pairs_clustered_sampled : NCF_NeighborWise_Dataset :=
  with_base two_pairs_clustered two_pairs_sampled (Some [0; 1; 0; 1]%Z).

(** The number of entities holding the cluster id [c], and the same count
    over a list of positions. *)
Definition cluster_size (cl : list Z) (c : nat) : nat :=
  length (filter (λ x, x = Z.of_nat c) cl).

Definition members_in (cl : list Z) (c : nat) (l : list nat) : nat :=
  length (filter (λ i, at_index cl i = Z.of_nat c) l).

(** What the outer clustering loop keeps true under any ranking, sizes
    included: no closed group is empty or larger than the group size. *)
Definition sized_inv (n g s : nat) (cl : list Z) (c : nat) : Prop :=
  length cl = n
  ∧ (∀ i, i < s → at_index cl i ≠ (-1)%Z)
  ∧ ids_inv n g cl c
  ∧ n ≤ unassigned cl + c * g
  ∧ ∀ j, j < c → 1 ≤ cluster_size cl j ≤ g.

(** An array of labels: every entry 0 or 1. *)
Definition binary (a : list Z) : Prop := Forall (λ x, x = 0 ∨ x = 1)%Z a.

Definition binary_inv (d : NCF_Dataset) : Prop :=
  binary (train_labels d)
  ∧ labels d = replicate (length (features d)) 1%Z
  ∧ match fill d with
    | Some (FreshArrays _ l _ trl) => binary l ∧ binary trl
    | _ => True
    end.

(** The index lists on which [flip_labels] gets as far as its update: not
    in evaluation mode, every index an [int32], and no index below
    [-len(train_labels)]. *)
Definition flips_ok (d : NCF_Dataset) (indices : list Z) : Prop :=
  is_training d ≠ 2
  ∧ Forall fits_int32 indices
  ∧ Forall (λ i, (- Z.of_nat (length (train_labels d)) ≤ i)%Z) indices.

Global Instance flips_ok_dec d indices : Decision (flips_ok d indices).
Proof. unfold flips_ok. apply _. Defined.

(** What it is for a group to hold the rows of the filled arrays whose
    key satisfies [key]: [idx] lists exactly their positions, and the five
    other arrays are the filled arrays read at those positions. *)
Definition group_of (f : list (nat * nat)) (l tl trl : list Z)
    (key : nat * nat → Prop) (G : sample_group) : Prop :=
  (∀ i, i ∈ g_idx G ↔ ∃ row, f !! i = Some row ∧ key row)
  ∧ Forall2 (λ i u, (fst <$> f) !! i = Some u) (g_idx G) (g_user G)
  ∧ Forall2 (λ i it, (snd <$> f) !! i = Some it) (g_idx G) (g_item G)
  ∧ Forall2 (λ i x, l !! i = Some x) (g_idx G) (g_labels G)
  ∧ Forall2 (λ i x, trl !! i = Some x) (g_idx G) (g_train_labels G)
  ∧ Forall2 (λ i x, tl !! i = Some x) (g_idx G) (g_true_labels G).

(** The entity of a row that the cluster-wise view looks at. *)
Definition row_entity (k : neighbor_kind) (row : nat * nat) : nat :=
  match k with
  | by_user => row.1
  | by_item => row.2
  end.

Definition empty_group : sample_group :=
  {| g_user := []; g_item := []; g_labels := []; g_train_labels := [];
     g_true_labels := []; g_idx := [] |}.

(** * Properties *)

(** ** Array reads and writes *)

Lemma at_index_insert (a : list Z) i v :
  i < length a → at_index (<[i := v]> a) i = v.
Proof. intros Hi. unfold at_index. by rewrite list_lookup_insert_eq. Qed.

Lemma at_index_insert_ne (a : list Z) i j v :
  i ≠ j → at_index (<[i := v]> a) j = at_index a j.
Proof. intros Hij. unfold at_index. by rewrite list_lookup_insert_ne. Qed.

Lemma at_index_lookup (a : list Z) i x : a !! i = Some x → at_index a i = x.
Proof. intros H. unfold at_index. by rewrite H. Qed.

Lemma at_index_sentinel_lt (a : list Z) i :
  at_index a i = (-1)%Z → i < length a.
Proof.
  unfold at_index. intros H. destruct (a !! i) eqn:E.
  - by eapply lookup_lt_Some.
  - discriminate.
Qed.

Lemma lookup_at_index (a : list Z) i :
  i < length a → a !! i = Some (at_index a i).
Proof.
  intros Hi. unfold at_index.
  destruct (lookup_lt_is_Some_2 a i Hi) as [x ->]. done.
Qed.

(** ** What [np.argsort] returns *)

Lemma ascending_head v t rest :
  ascending v (t :: rest) = true →
  Forall (λ x, (nth t v 0 <= nth x v 0)%Q) rest.
Proof.
  revert t. induction rest as [|b rest IH]; intros t H; [constructor|].
  cbn [ascending] in H. apply andb_prop in H as [H1 H2].
  apply Qle_bool_iff in H1. constructor; [done|].
  eapply Forall_impl; [exact (IH b H2)|].
  intros x Hx. simpl in *. by eapply Qle_trans.
Qed.

Lemma is_argsort_perm v r : is_argsort v r = true → r ≡ₚ seq 0 (length v).
Proof.
  unfold is_argsort. intros [H _]%andb_prop.
  apply bool_decide_eq_true in H. rewrite <- H.
  by rewrite merge_sort_Permutation.
Qed.

Lemma negated_row_length n (sim : similarity) s :
  length (negated_row n sim s) = n.
Proof. unfold negated_row. by rewrite length_map, length_seq. Qed.

Lemma negated_row_nth n (sim : similarity) s j :
  j < n → nth j (negated_row n sim s) 0%Q = (- sim s j)%Q.
Proof.
  intros Hj. unfold negated_row.
  by rewrite nth_lookup, list_lookup_fmap, lookup_seq_lt.
Qed.

(** ** Counting unassigned entities *)

Lemma unassigned_in_cons cl x l :
  unassigned_in cl (x :: l)
  = (if bool_decide (at_index cl x = (-1)%Z) then 1 else 0) + unassigned_in cl l.
Proof.
  unfold unassigned_in. rewrite filter_cons.
  case_bool_decide; case_decide; simpl; congruence.
Qed.

Lemma unassigned_in_perm cl l l' :
  l ≡ₚ l' → unassigned_in cl l = unassigned_in cl l'.
Proof. intros H. unfold unassigned_in. by rewrite H. Qed.

Lemma unassigned_in_insert_notin cl l x v :
  x ∉ l → unassigned_in (<[x := v]> cl) l = unassigned_in cl l.
Proof.
  induction l as [|y l IH]; intros Hx; [done|].
  rewrite !unassigned_in_cons. apply not_elem_of_cons in Hx as [Hxy Hx].
  rewrite at_index_insert_ne by done. by rewrite IH.
Qed.

Lemma unassigned_in_insert cl l x v :
  NoDup l → x ∈ l → at_index cl x = (-1)%Z → v ≠ (-1)%Z →
  unassigned_in (<[x := v]> cl) l + 1 = unassigned_in cl l.
Proof.
  intros Hnd Hx Hcl Hv. pose proof (at_index_sentinel_lt _ _ Hcl) as Hlt.
  induction l as [|y l IH]; [by apply elem_of_nil in Hx|].
  apply NoDup_cons in Hnd as [Hy Hnd]. rewrite !unassigned_in_cons.
  destruct (decide (x = y)) as [->|Hne].
  - rewrite at_index_insert by done. rewrite unassigned_in_insert_notin by done.
    rewrite Hcl. rewrite bool_decide_eq_false_2 by done.
    rewrite bool_decide_eq_true_2 by done. lia.
  - apply elem_of_cons in Hx as [?|Hx]; [done|].
    rewrite at_index_insert_ne by done. specialize (IH Hnd Hx). lia.
Qed.

Lemma unassigned_insert cl x v :
  at_index cl x = (-1)%Z → v ≠ (-1)%Z →
  unassigned (<[x := v]> cl) + 1 = unassigned cl.
Proof.
  intros Hcl Hv. unfold unassigned. rewrite length_insert.
  apply unassigned_in_insert; [apply NoDup_seq| |done|done].
  apply elem_of_seq. pose proof (at_index_sentinel_lt _ _ Hcl). lia.
Qed.

Lemma unassigned_in_zero cl l :
  unassigned_in cl l = 0 → ∀ i, i ∈ l → at_index cl i ≠ (-1)%Z.
Proof.
  induction l as [|y l IH]; intros H0 i Hi; [by apply elem_of_nil in Hi|].
  rewrite unassigned_in_cons in H0. case_bool_decide; [lia|].
  apply elem_of_cons in Hi as [->|Hi]; [done|]. apply IH; [lia|done].
Qed.

Lemma unassigned_zero cl i :
  unassigned cl = 0 → i < length cl → at_index cl i ≠ (-1)%Z.
Proof.
  intros H0 Hi. eapply unassigned_in_zero; [exact H0|].
  apply elem_of_seq. lia.
Qed.

(** ** The clustering loops *)

Lemma extends_with_refl c cl : extends_with c cl cl.
Proof. split; [done|]. intros i. by left. Qed.

Lemma extends_with_trans c cl1 cl2 cl3 :
  extends_with c cl1 cl2 → extends_with c cl2 cl3 → extends_with c cl1 cl3.
Proof.
  intros [Hl1 H1] [Hl2 H2]. split; [congruence|]. intros i.
  destruct (H1 i) as [E1|[E1 E1']], (H2 i) as [E2|[E2 E2']].
  - left. congruence.
  - right. split; congruence.
  - right. split; congruence.
  - right. split; congruence.
Qed.

Lemma extends_with_insert c cl x :
  at_index cl x = (-1)%Z → extends_with c cl (<[x := Z.of_nat c]> cl).
Proof.
  intros Hx. split; [apply length_insert|]. intros i.
  destruct (decide (x = i)) as [<-|Hne].
  - right. split; [done|]. apply at_index_insert. by apply at_index_sentinel_lt.
  - left. by apply at_index_insert_ne.
Qed.

Lemma fill_group_extends g cands c cl sz :
  extends_with c cl (fill_group g cands c cl sz).
Proof.
  revert cl sz. induction cands as [|x cands IH]; intros cl sz; simpl.
  - apply extends_with_refl.
  - case_bool_decide as Hx; [|apply IH].
    case_bool_decide; [by apply extends_with_insert|].
    eapply extends_with_trans; [by apply extends_with_insert|apply IH].
Qed.

(** The inner loop takes as many unassigned candidates as the group still
    lacks, or all of them if there are fewer. *)
Lemma fill_group_count g cands c cl sz :
  NoDup cands → sz < g →
  unassigned (fill_group g cands c cl sz)
  + Nat.min (unassigned_in cl cands) (g - sz) = unassigned cl.
Proof.
  revert cl sz. induction cands as [|x cands IH]; intros cl sz Hnd Hsz; simpl.
  - unfold unassigned_in. simpl. lia.
  - apply NoDup_cons in Hnd as [Hx Hnd]. rewrite unassigned_in_cons.
    case_bool_decide as Hcl.
    + assert (Hins : unassigned (<[x := Z.of_nat c]> cl) + 1 = unassigned cl)
        by (apply unassigned_insert; [done|lia]).
      case_bool_decide as Hfull.
      * lia.
      * specialize (IH (<[x := Z.of_nat c]> cl) (S sz) Hnd ltac:(lia)).
        rewrite unassigned_in_insert_notin in IH by done. lia.
    + specialize (IH cl sz Hnd Hsz). lia.
Qed.

Lemma unassigned_in_all_sentinel n l :
  Forall (λ i, i < n) l →
  unassigned_in (replicate n (-1)%Z) l = length l.
Proof.
  induction 1 as [|x l Hx _ IH]; [done|].
  rewrite unassigned_in_cons, IH. simpl.
  rewrite bool_decide_eq_true_2; [done|].
  apply at_index_lookup. by apply lookup_replicate_2.
Qed.

Lemma loop_inv_initial n g : loop_inv n g 0 (replicate n (-1)%Z) 0.
Proof.
  repeat split.
  - apply length_replicate.
  - lia.
  - intros i Hi. left. apply at_index_lookup. by apply lookup_replicate_2.
  - lia.
  - unfold unassigned. rewrite length_replicate.
    rewrite unassigned_in_all_sentinel.
    + rewrite length_seq. lia.
    + apply Forall_forall. intros i Hi. apply elem_of_seq in Hi. lia.
Qed.

(** One seeding step keeps the invariant: the new group is filled up to
    [g] members because enough unassigned entities are left and the ranking
    offers all of them. *)
Lemma loop_inv_seed n g ranking s cl c :
  1 ≤ g → well_ranked n ranking → s < n →
  loop_inv n g s cl c → c ≠ n / g → at_index cl s = (-1)%Z →
  loop_inv n g (S s)
    (if bool_decide (1 < g)
     then fill_group g (drop 1 (ranking s)) c (<[s := Z.of_nat c]> cl) 1
     else <[s := Z.of_nat c]> cl)
    (S c).
Proof.
  intros Hg Hwr Hs (Hlen & Hpast & Hrange & Hc & Hcount) Hne Hcl.
  set (cl1 := <[s := Z.of_nat c]> cl).
  assert (Hroom : (S c) * g ≤ n).
  { assert (S c ≤ n / g) by lia.
    pose proof (Nat.Div0.mul_div_le n g). nia. }
  assert (Hcl1 : unassigned cl1 + 1 = unassigned cl).
  { apply unassigned_insert; [done|lia]. }
  assert (Hlen1 : length cl1 = n) by (unfold cl1; by rewrite length_insert).
  assert (Hext1 : extends_with c cl cl1) by (by apply extends_with_insert).
  assert (Hs1 : at_index cl1 s = Z.of_nat c).
  { apply at_index_insert. lia. }
  set (cl2 := if bool_decide (1 < g)
              then fill_group g (drop 1 (ranking s)) c cl1 1 else cl1).
  assert (Hext2 : extends_with c cl1 cl2).
  { unfold cl2. case_bool_decide; [apply fill_group_extends|apply extends_with_refl]. }
  assert (Hcount2 : unassigned cl2 + S c * g = n).
  { unfold cl2. case_bool_decide as Hg1; [|nia].
    destruct (Hwr s Hs) as (Hperm & t & rest & Hrk & Ht).
    assert (Hnd : NoDup (t :: rest)).
    { rewrite <- Hrk, Hperm. apply NoDup_seq. }
    apply NoDup_cons in Hnd as [_ Hnd].
    pose proof (fill_group_count g rest c cl1 1 Hnd Hg1) as Hfill.
    rewrite Hrk. simpl. rewrite drop_0.
    assert (Ht1 : at_index cl1 t ≠ (-1)%Z).
    { destruct (decide (t = s)) as [->|Hts]; [rewrite Hs1; lia|].
      unfold cl1. rewrite at_index_insert_ne by done. apply Hpast. lia. }
    assert (Hall : unassigned_in cl1 rest = unassigned cl1).
    { unfold unassigned. rewrite Hlen1, <- (unassigned_in_perm cl1 _ _ Hperm).
      rewrite Hrk, unassigned_in_cons.
      by rewrite bool_decide_eq_false_2. }
    rewrite Hall in Hfill. nia. }
  pose proof (extends_with_trans _ _ _ _ Hext1 Hext2) as [Hlen2 Hext].
  repeat split.
  - congruence.
  - intros i Hi. destruct (decide (i = s)) as [->|Hne'].
    + destruct Hext2 as [_ H2]. destruct (H2 s) as [E|[E _]]; rewrite ?E; lia.
    + destruct (Hext i) as [E|[_ E]]; rewrite E; [apply Hpast|]; lia.
  - intros i Hi. destruct (Hext i) as [E|[_ E]]; rewrite E.
    + destruct (Hrange i Hi); [by left|right; lia].
    + right. lia.
  - lia.
  - exact Hcount2.
Qed.

Lemma grouping_loop_inv n g ranking :
  1 ≤ g → well_ranked n ranking →
  ∀ k s cl c, s + k = n → loop_inv n g s cl c →
    ∃ s', loop_inv n g s' (grouping_loop n g ranking (seq s k) cl c).1
                          (grouping_loop n g ranking (seq s k) cl c).2.
Proof.
  intros Hg Hwr. induction k as [|k IH]; intros s cl c Hsk Hinv; simpl.
  - by exists s.
  - case_bool_decide as Hbreak; [by exists s|].
    case_bool_decide as Hassigned.
    + apply IH; [lia|]. destruct Hinv as (Hlen & Hpast & Hrest).
      split; [done|]. split; [|done].
      intros i Hi. destruct (decide (i = s)) as [->|]; [done|]. apply Hpast. lia.
    + apply IH; [lia|]. apply loop_inv_seed; [done|done|lia|done|done|].
      destruct (decide (at_index cl s = (-1)%Z)); [done|]. by destruct Hassigned.
Qed.

(** The [## Edge case] loop gives every remaining sentinel the id [c]. *)
Lemma repair_loop_spec (c : nat) (cl : list Z) (k : nat) :
  let res := foldl (λ cl sample,
                      if bool_decide (at_index cl sample = (-1)%Z)
                      then <[sample := Z.of_nat c]> cl else cl)
                   cl (seq 0 k) in
  length res = length cl
  ∧ ∀ i, (i < k → at_index res i ≠ (-1)%Z
                  ∧ (at_index res i = at_index cl i ∨ at_index res i = Z.of_nat c))
         ∧ (k ≤ i → at_index res i = at_index cl i).
Proof.
  cbv zeta. induction k as [|k IH].
  - split; [done|]. intros i. split; [lia|done].
  - rewrite seq_S, foldl_snoc. destruct IH as [Hlen IH].
    set (res := foldl _ cl (seq 0 k)) in *. simpl.
    case_bool_decide as Hk.
    + pose proof (at_index_sentinel_lt _ _ Hk) as Hlt.
      split; [by rewrite length_insert|]. intros i. split.
      * intros Hi. destruct (decide (i = k)) as [->|Hne].
        -- rewrite at_index_insert by done. split; [lia|by right].
        -- rewrite at_index_insert_ne by done. apply IH. lia.
      * intros Hi. rewrite at_index_insert_ne by lia. apply IH. lia.
    + split; [done|]. intros i. split.
      * intros Hi. destruct (decide (i = k)) as [->|Hne].
        -- split; [done|]. left. apply IH. lia.
        -- apply IH. lia.
      * intros Hi. apply IH. lia.
Qed.

Lemma cluster_count_ceiling n g :
  1 ≤ g → n ≤ cluster_count n g * g < n + g.
Proof.
  intros Hg. unfold cluster_count.
  pose proof (Nat.div_mod_eq n g). pose proof (Nat.mod_upper_bound n g).
  case_bool_decide; nia.
Qed.

(** Coverage for every well-formed ranking. *)
Lemma assign_with_ranking_covers n g ranking :
  1 ≤ g → well_ranked n ranking →
  length (assign_with_ranking n g ranking) = n
  ∧ ∀ i, i < n →
      (0 ≤ at_index (assign_with_ranking n g ranking) i
       < Z.of_nat (cluster_count n g))%Z.
Proof.
  intros Hg Hwr. unfold assign_with_ranking.
  destruct (grouping_loop_inv n g ranking Hg Hwr n 0 (replicate n (-1)%Z) 0
              eq_refl (loop_inv_initial n g))
    as (s' & Hlen & _ & Hrange & Hc & Hcount).
  destruct (grouping_loop n g ranking (seq 0 n) (replicate n (-1)%Z) 0)
    as [cl c]. simpl in *.
  pose proof (cluster_count_ceiling n g Hg) as Hceil.
  assert (Hq : n / g ≤ cluster_count n g) by (unfold cluster_count; lia).
  unfold repair_pass. case_bool_decide as Hrepair.
  - destruct (repair_loop_spec c cl n) as [Hlen' Hres]. simpl in Hres.
    split; [congruence|]. intros i Hi.
    destruct (Hres i) as [[Hne [E|E]] _]; [done| |rewrite E; lia].
    destruct (Hrange i Hi) as [E'|E']; [congruence|]. rewrite E. lia.
  - split; [done|]. intros i Hi.
    assert (Hcq : c = cluster_count n g) by lia.
    assert (Hzero : unassigned cl = 0).
    { pose proof (Nat.Div0.mul_div_le n g). nia. }
    destruct (Hrange i Hi) as [E|E]; [|lia].
    exfalso. by eapply (unassigned_zero cl i); [|rewrite Hlen|].
Qed.

(** When every entity is strictly more similar to itself than to any other
    entity, whatever [np.argsort] returns for its row starts with the entity
    itself. *)
Lemma ranking_of_similarity n (argsort : list Q → list nat) (sim : similarity) :
  (∀ s, s < n →
     is_argsort (negated_row n sim s) (argsort (negated_row n sim s)) = true) →
  (∀ s j, s < n → j < n → j ≠ s → (sim s j < sim s s)%Q) →
  well_ranked n (similar_samples n argsort sim).
Proof.
  intros Hsort Hdiag s Hs. unfold similar_samples.
  specialize (Hsort s Hs).
  pose proof (is_argsort_perm _ _ Hsort) as Hperm.
  rewrite negated_row_length in Hperm. split; [done|].
  destruct (argsort (negated_row n sim s)) as [|t rest] eqn:Er.
  { apply Permutation_length in Hperm. rewrite length_seq in Hperm.
    simpl in Hperm. lia. }
  exists t, rest. split; [done|].
  destruct (decide (t = s)) as [->|Hne]; [lia|]. exfalso.
  assert (Ht : t < n).
  { assert (t ∈ seq 0 n) as ?%elem_of_seq; [|lia]. rewrite <- Hperm. left. }
  assert (Hin : s ∈ rest).
  { assert (s ∈ t :: rest) as [?|?]%elem_of_cons; [|done|done].
    rewrite Hperm. apply elem_of_seq. lia. }
  apply andb_prop in Hsort as [_ Hasc].
  apply ascending_head in Hasc. rewrite Forall_forall in Hasc.
  specialize (Hasc s Hin). simpl in Hasc.
  rewrite !negated_row_nth in Hasc by done.
  apply Qopp_le_compat in Hasc. rewrite !Qopp_involutive in Hasc.
  by apply (Qlt_not_le _ _ (Hdiag s t Hs Ht Hne)).
Qed.

(** C1 fails on the code.  Four users, of whom users 2 and 3 have the same
    single interaction: [twin_users] is the cosine similarity of their
    rows, and a sort that leaves equal entries in reverse index order ranks
    user 3 first in the row of user 2.  With group size 2 the group opened
    by user 2 then finds only assigned users after the skipped first entry
    and closes with one member; the counter reaches [4 // 2 = cluster_num],
    the loop stops, the repair pass is skipped, and user 3 keeps the
    sentinel -1.  Both constructors then fail their own assertion on the
    number of distinct ids. *)
Theorem assign_cluster_ids_leaves_sentinel :
  is_cosine_similarity twin_users_mat 4 5 twin_users
  ∧ (∀ s, s < 4 →
       is_argsort (negated_row 4 twin_users s)
                  (ties_reversed_argsort (negated_row 4 twin_users s)) = true)
  ∧ similar_samples 4 ties_reversed_argsort twin_users 0 = [0; 1; 3; 2]
  ∧ similar_samples 4 ties_reversed_argsort twin_users 2 = [3; 2; 1; 0]
  ∧ assign_cluster_ids 4 2 ties_reversed_argsort twin_users
    = (2, [0; 0; 1; -1]%Z)
  ∧ ¬ (∀ i, i < 4 →
         ∃ c, (assign_cluster_ids 4 2 ties_reversed_argsort twin_users).2 !! i
              = Some c
              ∧ c ≠ (-1)%Z
              ∧ (0 ≤ c < Z.of_nat
                           (assign_cluster_ids 4 2 ties_reversed_argsort
                                               twin_users).1)%Z)
  ∧ NCF_NeighborWise_Dataset_init ties_reversed_argsort twin_users 4 5
      twin_users_features twin_users_mat (replicate 7 1%Z) 0 1 2 by_user
    = Err (AssertionError None)
  ∧ CDAE_Neighbor_Data_init ties_reversed_argsort twin_users
      (gset_to_gmap 1%Z twin_users_mat) 4 5 (gset_to_gmap 1%Z twin_users_mat) 2
    = Err (AssertionError None).
Proof.
  split.
  { intros u1 u2 H1 H2.
    do 4 (destruct u1 as [|u1];
          [do 4 (destruct u2 as [|u2]; [by vm_compute|]); lia|]).
    lia. }
  split.
  { intros s Hs. do 4 (destruct s as [|s]; [by vm_compute|]). lia. }
  do 3 (split; [by vm_compute|]).
  split.
  { intros H. destruct (H 3 ltac:(lia)) as (c & Hc & Hne & _).
    vm_compute in Hc. congruence. }
  split; by vm_compute.
Qed.

(** C2: with five entities and group size 2, when the ranking of entity 0
    starts 0, 1 and the ranking of entity 2 starts 2, 3, [assign_cluster_ids]
    computes [cluster_num = 3] and the clusters {0,1} (id 0), {2,3} (id 1)
    and {4} (id 2, given by the repair pass). *)
Theorem assign_cluster_ids_five_by_two (argsort : list Q → list nat)
    (sim : similarity) (r0 r2 : list nat) :
  similar_samples 5 argsort sim 0 = 0 :: 1 :: r0 →
  similar_samples 5 argsort sim 2 = 2 :: 3 :: r2 →
  assign_cluster_ids 5 2 argsort sim = (3, [0; 0; 1; 1; 2]%Z)
  ∧ (grouping_loop 5 2 (similar_samples 5 argsort sim) (seq 0 5)
                   (replicate 5 (-1)%Z) 0).1
    = [0; 0; 1; 1; -1]%Z.
Proof.
  intros H0 H2. unfold assign_cluster_ids, assign_with_ranking.
  generalize dependent (similar_samples 5 argsort sim). intros rk H0 H2.
  assert (E : grouping_loop 5 2 rk (seq 0 5) (replicate 5 (-1)%Z) 0
              = ([0; 0; 1; 1; -1]%Z, 2)).
  { cbn. rewrite H0. cbn. rewrite H2. reflexivity. }
  rewrite E. split; reflexivity.
Qed.

Lemma assign_cluster_ids_five_by_two_witness :
  assign_cluster_ids 5 2 stable_argsort five_entities = (3, [0; 0; 1; 1; 2]%Z)
  ∧ (grouping_loop 5 2 (similar_samples 5 stable_argsort five_entities) (seq 0 5)
                   (replicate 5 (-1)%Z) 0).1
    = [0; 0; 1; 1; -1]%Z.
Proof.
  apply (assign_cluster_ids_five_by_two stable_argsort five_entities
           [2; 3; 4] [4; 0; 1]).
  - by vm_compute.
  - by vm_compute.
Defined.

(** ** The constructors' cluster-count assertion *)

Lemma grouping_loop_length n g ranking samples cl c :
  length (grouping_loop n g ranking samples cl c).1 = length cl.
Proof.
  revert cl c. induction samples as [|s samples IH]; intros cl c; simpl; [done|].
  case_bool_decide; [done|]. case_bool_decide; [apply IH|].
  rewrite IH. case_bool_decide.
  - destruct (fill_group_extends g (drop 1 (ranking s)) c
                (<[s := Z.of_nat c]> cl) 1) as [-> _].
    apply length_insert.
  - apply length_insert.
Qed.

Lemma assign_with_ranking_length n g ranking :
  length (assign_with_ranking n g ranking) = n.
Proof.
  unfold assign_with_ranking.
  pose proof (grouping_loop_length n g ranking (seq 0 n) (replicate n (-1)%Z) 0) as H.
  destruct (grouping_loop n g ranking (seq 0 n) (replicate n (-1)%Z) 0) as [cl c].
  simpl in H. rewrite length_replicate in H.
  unfold repair_pass. case_bool_decide; [|done].
  destruct (repair_loop_spec c cl n) as [-> _]. done.
Qed.

Lemma take_indices_ok (a : list Z) (idx : list nat) :
  Forall (λ i, i < length a) idx →
  take_indices a idx = Ok (map (at_index a) idx).
Proof.
  induction 1 as [|i idx Hi _ IH]; simpl; [done|].
  rewrite (lookup_at_index a i Hi), IH. done.
Qed.

Lemma take_indices_inv (a : list Z) (idx : list nat) ids :
  take_indices a idx = Ok ids →
  Forall (λ i, i < length a) idx ∧ ids = map (at_index a) idx.
Proof.
  revert ids. induction idx as [|i idx IH]; intros ids; simpl.
  - intros [= <-]. done.
  - destruct (a !! i) eqn:E; [|done].
    destruct (take_indices a idx) as [xs|] eqn:E'; [|done]. simpl.
    intros [= <-]. destruct (IH xs eq_refl) as [Hall ->]. split.
    + constructor; [by eapply lookup_lt_Some|done].
    + simpl. by rewrite (at_index_lookup _ _ _ E).
Qed.


Lemma np_unique_length (a : list Z) : length (np_unique a) = distinct_values a.
Proof.
  unfold np_unique, distinct_values.
  rewrite merge_sort_Permutation.
  rewrite <- (size_list_to_set (C := gset Z) (remove_dups a))
    by apply NoDup_remove_dups.
  f_equal. apply set_eq. intros x.
  rewrite !elem_of_list_to_set. apply elem_of_remove_dups.
Qed.


(** ** Negative sampling *)

Example ng_sample_two_pairs :
  ng_sample (two_pairs 0 1) [5; 3; 2; 7] = Returns (two_pairs_sampled, []) ().
Proof. by vm_compute. Qed.

Lemma draw_negative_returns tm n u draws rest j :
  draw_negative tm n u draws = Returns rest j → ((u, j) ∉ tm) ∧ j < n.
Proof.
  revert rest j. induction draws as [|r draws IH]; intros rest j; simpl.
  - case_bool_decide; discriminate.
  - case_bool_decide as Hn.
    + destruct draws; simpl; discriminate.
    + case_bool_decide as Hin.
      * destruct draws as [|r' draws'].
        -- simpl. rewrite bool_decide_eq_false_2 by done. discriminate.
        -- apply IH.
      * intros [= <- <-]. split; [done|]. apply Nat.mod_upper_bound. done.
Qed.

Lemma negatives_pass_returns tm n rows draws rest negs :
  negatives_pass tm n rows draws = Returns rest negs →
  map fst negs = map fst rows
  ∧ Forall (λ uj, (uj ∉ tm) ∧ uj.2 < n) negs.
Proof.
  revert draws rest negs.
  induction rows as [|[u i] rows IH]; intros draws rest negs; simpl.
  - intros [= <- <-]. done.
  - destruct (draw_negative tm n u draws) as [draws1 j| |] eqn:Ed; try done.
    destruct (negatives_pass tm n rows draws1) as [draws2 negs'| |] eqn:Ep; try done.
    intros [= <- <-]. destruct (IH _ _ _ Ep) as [Hfst Hall].
    apply draw_negative_returns in Ed as [Hnotin Hlt]. split.
    + simpl. by rewrite Hfst.
    + constructor; done.
Qed.

Lemma sample_negatives_returns tm n rows passes draws rest negs :
  sample_negatives tm n rows passes draws = Returns rest negs →
  length negs = passes * length rows
  ∧ Forall (λ uj, (uj ∉ tm) ∧ uj.2 < n) negs
  ∧ Forall (λ uj, uj.1 ∈ map fst rows) negs.
Proof.
  revert draws rest negs.
  induction passes as [|passes IH]; intros draws rest negs; simpl.
  - intros [= <- <-]. done.
  - destruct (negatives_pass tm n rows draws) as [draws1 negs1| |] eqn:Ep; try done.
    destruct (sample_negatives tm n rows passes draws1) as [draws2 negs2| |] eqn:Es;
      try done.
    intros [= <- <-]. destruct (IH _ _ _ Es) as (Hlen & Hall & Husers).
    apply negatives_pass_returns in Ep as [Hfst Hall1].
    assert (Hlen1 : length negs1 = length rows).
    { by rewrite <- (length_map fst negs1), Hfst, length_map. }
    split; [rewrite length_app; lia|]. split.
    + apply Forall_app. done.
    + apply Forall_app. split; [|done].
      apply Forall_forall. intros uj Huj. rewrite <- Hfst.
      by apply list_elem_of_fmap_2.
Qed.

(** What a returning [ng_sample] with [num_ng ≥ 1] leaves behind. *)
Lemma ng_sample_fresh d draws d' draws' :
  num_ng d ≠ 0 → ng_sample d draws = Returns (d', draws') () →
  is_training d ≠ 2
  ∧ length (labels d) = length (features d)
  ∧ length (true_labels d) = length (features d)
  ∧ length (train_labels d) = length (features d)
  ∧ ∃ negs,
      d' = with_fill d
             (FreshArrays (features d ++ negs)
                (labels d ++ replicate (length negs) 0%Z)
                (true_labels d ++ replicate (length negs) 0%Z)
                (train_labels d ++ replicate (length negs) 0%Z))
      ∧ negs ≠ []
      ∧ length negs = num_ng d * length (features d)
      ∧ Forall (λ uj, (uj ∉ train_mat d) ∧ uj.2 < item_num d) negs
      ∧ Forall (λ uj, uj.1 ∈ map fst (features d)) negs.
Proof.
  intros Hng. unfold ng_sample.
  case_bool_decide as Hmode; [done|].
  rewrite bool_decide_eq_false_2 by done.
  destruct (sample_negatives _ _ _ _ _) as [draws1 negs| |] eqn:Es; try done.
  case_bool_decide as Hnil; [done|].
  case_bool_decide as Hlens; [|done].
  intros [= <- <-]. destruct Hlens as (Hl & Htl & Htrl).
  rewrite !length_app, !length_replicate in Hl, Htl, Htrl.
  apply sample_negatives_returns in Es as (Hlen & Hall & Husers).
  split; [done|]. repeat split; try lia. by exists negs.
Qed.

(** The rejection loop runs out of draws only when the tape does: every
    draw that is free for the user ends it. *)
Lemma draw_negative_enough tm n u (good : nat → Prop)
    `{!∀ r, Decision (good r)} draws :
  n ≠ 0 → (∀ r, good r → (u, r mod n) ∉ tm) →
  1 ≤ length (filter good draws) →
  ∃ rest j, draw_negative tm n u draws = Returns rest j
            ∧ length (filter good draws) ≤ S (length (filter good rest)).
Proof.
  intros Hn Hgood. induction draws as [|r draws IH]; intros Hcount.
  - simpl in Hcount. lia.
  - cbn [draw_negative]. rewrite bool_decide_eq_false_2 by done.
    case_bool_decide as Hin.
    + assert (Hr : ¬ good r) by (intros Hr; by apply (Hgood r Hr)).
      rewrite filter_cons_False in Hcount |- * by done.
      destruct (IH Hcount) as (rest & j & E & Hle).
      exists rest, j. split; [|done].
      destruct draws; exact E.
    + exists draws, (r mod n). split; [done|].
      rewrite filter_cons. case_decide; simpl; lia.
Qed.

Lemma negatives_pass_enough tm n rows (good : nat → Prop)
    `{!∀ r, Decision (good r)} draws :
  n ≠ 0 → (∀ r, good r → Forall (λ ui, (ui.1, r mod n) ∉ tm) rows) →
  length rows ≤ length (filter good draws) →
  ∃ rest negs, negatives_pass tm n rows draws = Returns rest negs
               ∧ length (filter good draws)
                 ≤ length rows + length (filter good rest).
Proof.
  intros Hn. revert draws. induction rows as [|[u i] rows IH];
    intros draws Hgood Hcount.
  - exists draws, []. simpl. split; [done|lia].
  - simpl in Hcount.
    destruct (draw_negative_enough tm n u good draws Hn) as (rest1 & j & E1 & H1).
    { intros r Hr. specialize (Hgood r Hr). by apply Forall_cons in Hgood as [? _]. }
    { lia. }
    destruct (IH rest1) as (rest2 & negs & E2 & H2).
    { intros r Hr. specialize (Hgood r Hr). by apply Forall_cons in Hgood as [_ ?]. }
    { lia. }
    exists rest2, ((u, j) :: negs). cbn [negatives_pass]. rewrite E1, E2.
    split; [done|]. simpl. lia.
Qed.

Lemma sample_negatives_enough tm n rows passes (good : nat → Prop)
    `{!∀ r, Decision (good r)} draws :
  n ≠ 0 → (∀ r, good r → Forall (λ ui, (ui.1, r mod n) ∉ tm) rows) →
  passes * length rows ≤ length (filter good draws) →
  ∃ rest negs, sample_negatives tm n rows passes draws = Returns rest negs
               ∧ length (filter good draws)
                 ≤ passes * length rows + length (filter good rest).
Proof.
  intros Hn Hgood. revert draws. induction passes as [|passes IH];
    intros draws Hcount.
  - exists draws, []. simpl. split; [done|lia].
  - simpl in Hcount.
    destruct (negatives_pass_enough tm n rows good draws Hn Hgood)
      as (rest1 & negs1 & E1 & H1); [lia|].
    destruct (IH rest1) as (rest2 & negs2 & E2 & H2); [lia|].
    exists rest2, (negs1 ++ negs2). cbn [sample_negatives]. rewrite E1, E2.
    split; [done|]. simpl. lia.
Qed.

(** C5: when [ng_sample] runs with [num_ng] at least 1 and returns, the rows
    it generated are appended after all positive rows; every generated pair
    is absent from the interaction matrix; every generated row carries the
    training label 0 and the ground-truth label 0 (and label 0).  And it
    does return: outside evaluation mode, with at least one positive pair
    and one item and a label of each kind per pair, on every tape of draws
    that holds [num_ng * len(features)] draws free for every user. *)
Theorem ng_sample_negatives (d : NCF_Dataset) (draws : list nat) :
  1 ≤ num_ng d →
  (∀ d' draws', ng_sample d draws = Returns (d', draws') () →
     ∃ negs f l tl trl,
       features_fill d' = Some f ∧ labels_fill d' = Some l
       ∧ true_labels_fill d' = Some tl ∧ train_labels_fill d' = Some trl
       ∧ f = features d ++ negs
       ∧ length negs = num_ng d * length (features d)
       ∧ Forall (λ uj, uj ∉ train_mat d) negs
       ∧ (∀ i, i < length (features d) →
            f !! i = features d !! i ∧ trl !! i = train_labels d !! i
            ∧ tl !! i = true_labels d !! i)
       ∧ (∀ i, length (features d) ≤ i < length f →
            ∃ u j, f !! i = Some (u, j) ∧ ((u, j) ∉ train_mat d)
                   ∧ trl !! i = Some 0%Z ∧ tl !! i = Some 0%Z
                   ∧ l !! i = Some 0%Z))
  ∧ (is_training d ≠ 2 → features d ≠ [] → item_num d ≠ 0 →
     length (labels d) = length (features d) →
     length (true_labels d) = length (features d) →
     length (train_labels d) = length (features d) →
     num_ng d * length (features d) ≤ free_draws d draws →
     ∃ d' draws', ng_sample d draws = Returns (d', draws') ()).
Proof.
  intros Hng. split.
  - intros d' draws' Hret.
    destruct (ng_sample_fresh d draws d' draws' ltac:(lia) Hret)
      as (_ & Hl & Htl & Htrl & negs & -> & _ & Hlen & Hall & _).
    exists negs. eexists _, _, _, _. repeat split; try done.
    + eapply Forall_impl; [exact Hall|]. by intros uj [? _].
    + by rewrite lookup_app_l.
    + rewrite lookup_app_l by lia. done.
    + rewrite lookup_app_l by lia. done.
    + intros i [Hlo Hhi]. rewrite length_app in Hhi.
      assert (Hi : i - length (features d) < length negs) by lia.
      destruct (lookup_lt_is_Some_2 negs _ Hi) as [[u j] Huj].
      exists u, j. repeat split.
      * rewrite lookup_app_r by lia. done.
      * rewrite Forall_forall in Hall.
        apply (Hall (u, j)). by eapply list_elem_of_lookup_2.
      * rewrite lookup_app_r by lia. apply lookup_replicate_2. lia.
      * rewrite lookup_app_r by lia. apply lookup_replicate_2. lia.
      * rewrite lookup_app_r by lia. apply lookup_replicate_2. lia.
  - intros Hmode Hne Hitems Hl Htl Htrl Hfree. unfold ng_sample.
    rewrite bool_decide_eq_false_2 by done.
    rewrite bool_decide_eq_false_2 by lia.
    destruct (sample_negatives_enough (train_mat d) (item_num d) (features d)
                (num_ng d) (free_for_all d) draws Hitems)
      as (rest & negs & E & _); [by intros r Hr|exact Hfree|].
    rewrite E.
    apply sample_negatives_returns in E as (Hlen & _).
    rewrite bool_decide_eq_false_2.
    + rewrite bool_decide_eq_true_2; [by eexists _, _|].
      rewrite !length_app, !length_replicate. lia.
    + intros ->. simpl in Hlen. destruct (features d); [done|].
      simpl in Hlen. lia.
Qed.

Lemma ng_sample_negatives_witness :
  ng_sample (two_pairs 0 1) [5; 3; 2; 7] = Returns (two_pairs_sampled, []) ()
  ∧ ∃ negs f l tl trl,
        features_fill two_pairs_sampled = Some f
        ∧ labels_fill two_pairs_sampled = Some l
        ∧ true_labels_fill two_pairs_sampled = Some tl
        ∧ train_labels_fill two_pairs_sampled = Some trl
        ∧ f = features (two_pairs 0 1) ++ negs
        ∧ length negs = num_ng (two_pairs 0 1) * length (features (two_pairs 0 1))
        ∧ Forall (λ uj, uj ∉ train_mat (two_pairs 0 1)) negs
        ∧ (∀ i, i < length (features (two_pairs 0 1)) →
             f !! i = features (two_pairs 0 1) !! i
             ∧ trl !! i = train_labels (two_pairs 0 1) !! i
             ∧ tl !! i = true_labels (two_pairs 0 1) !! i)
        ∧ (∀ i, length (features (two_pairs 0 1)) ≤ i < length f →
             ∃ u j, f !! i = Some (u, j) ∧ ((u, j) ∉ train_mat (two_pairs 0 1))
                    ∧ trl !! i = Some 0%Z ∧ tl !! i = Some 0%Z
                    ∧ l !! i = Some 0%Z).
Proof.
  destruct (ng_sample_negatives (two_pairs 0 1) [5; 3; 2; 7]) as [Hpost Hret].
  { simpl. lia. }
  destruct Hret as (d' & draws' & E).
  - by vm_compute.
  - done.
  - by vm_compute.
  - reflexivity.
  - reflexivity.
  - reflexivity.
  - vm_compute. lia.
  - assert (Erun : ng_sample (two_pairs 0 1) [5; 3; 2; 7]
                   = Returns (two_pairs_sampled, []) ()) by (by vm_compute).
    rewrite Erun in E. injection E as <- <-.
    split; [exact Erun|]. exact (Hpost _ _ Erun).
Defined.

(** The rejection loop ends as soon as the tape offers an item the user has
    not interacted with: whenever every user of [features] has such an item,
    there are draws on which [ng_sample] returns. *)
Lemma draw_negative_free tm n u j rest :
  j < n → (u, j) ∉ tm → draw_negative tm n u (j :: rest) = Returns rest j.
Proof.
  intros Hj Hfree. simpl.
  rewrite bool_decide_eq_false_2 by lia.
  rewrite Nat.mod_small by done.
  by rewrite bool_decide_eq_false_2.
Qed.

Lemma negatives_pass_total tm n rows :
  Forall (λ ui, ∃ j, j < n ∧ (ui.1, j) ∉ tm) rows →
  ∃ tape negs, length negs = length rows
    ∧ ∀ rest, negatives_pass tm n rows (tape ++ rest) = Returns rest negs.
Proof.
  induction 1 as [|[u i] rows (j & Hj & Hfree) _ (tape & negs & Hlen & IH)].
  - exists [], []. done.
  - exists (j :: tape), ((u, j) :: negs). split; [simpl; lia|].
    intros rest. cbn [negatives_pass app].
    rewrite (draw_negative_free tm n u j (tape ++ rest) Hj Hfree).
    by rewrite IH.
Qed.

Lemma sample_negatives_total tm n rows passes :
  Forall (λ ui, ∃ j, j < n ∧ (ui.1, j) ∉ tm) rows →
  ∃ tape negs, length negs = passes * length rows
    ∧ ∀ rest, sample_negatives tm n rows passes (tape ++ rest) = Returns rest negs.
Proof.
  intros Hfree. induction passes as [|passes (tape & negs & Hlen & IH)].
  - exists [], []. done.
  - destruct (negatives_pass_total tm n rows Hfree) as (tape1 & negs1 & Hlen1 & H1).
    exists (tape1 ++ tape), (negs1 ++ negs).
    split; [rewrite length_app; lia|].
    intros rest. simpl. rewrite <- (assoc_L (++)), H1, IH. done.
Qed.

Lemma ng_sample_can_return d :
  is_training d ≠ 2 →
  length (labels d) = length (features d) →
  length (true_labels d) = length (features d) →
  length (train_labels d) = length (features d) →
  (num_ng d ≠ 0 → features d ≠ []) →
  Forall (λ ui, ∃ j, j < item_num d ∧ (ui.1, j) ∉ train_mat d) (features d) →
  ∃ tape d', ∀ rest, ng_sample d (tape ++ rest) = Returns (d', rest) ().
Proof.
  intros Hmode Hl Htl Htrl Hne Hfree. unfold ng_sample.
  rewrite bool_decide_eq_false_2 by done.
  destruct (decide (num_ng d = 0)) as [Hng|Hng].
  - exists [], (with_fill d SameArrays). intros rest.
    by rewrite bool_decide_eq_true_2.
  - destruct (sample_negatives_total (train_mat d) (item_num d) (features d)
                (num_ng d) Hfree) as (tape & negs & Hlen & Hs).
    exists tape. eexists. intros rest.
    rewrite bool_decide_eq_false_2 by done. rewrite Hs.
    rewrite bool_decide_eq_false_2.
    + rewrite bool_decide_eq_true_2; [done|].
      rewrite !length_app, !length_replicate. lia.
    + intros ->. simpl in Hlen. specialize (Hne Hng).
      destruct (features d); [done|]. simpl in Hlen. lia.
Qed.

(** ** Flipping labels *)

Lemma scatter_length (a : list Z) ps vs : length (scatter a ps vs) = length a.
Proof.
  unfold scatter. revert a vs. induction ps as [|p ps IH]; intros a vs; [done|].
  destruct vs as [|v vs]; [done|]. simpl. rewrite IH. apply length_insert.
Qed.

(** Writing [f p] at every position [p] of [ps]. *)
Lemma scatter_map_at_index (f : nat → Z) (a : list Z) ps k :
  Forall (λ p, p < length a) ps →
  at_index (scatter a ps (map f ps)) k
  = if decide (k ∈ ps) then f k else at_index a k.
Proof.
  unfold scatter. revert a. induction ps as [|p ps IH]; intros a Hall.
  - cbn [map zip zip_with foldl]. case_decide as Hk; [|done].
    by apply elem_of_nil in Hk.
  - apply Forall_cons in Hall as [Hp Hall]. cbn [map zip zip_with foldl fst snd].
    rewrite IH.
    + destruct (decide (k ∈ ps)) as [Hin|Hnotin].
      * case_decide as Hk; [done|]. destruct Hk. by right.
      * destruct (decide (k = p)) as [->|Hne].
        -- case_decide as Hk; [by apply at_index_insert|]. destruct Hk. left.
        -- case_decide as Hk; [|by apply at_index_insert_ne].
           apply elem_of_cons in Hk as [?|?]; done.
    + eapply Forall_impl; [exact Hall|]. intros q Hq. by rewrite length_insert.
Qed.

Lemma toggle_at_length a ps : length (toggle_at a ps) = length a.
Proof. apply scatter_length. Qed.

Lemma toggle_at_index a ps k :
  Forall (λ p, p < length a) ps →
  at_index (toggle_at a ps) k
  = if decide (k ∈ ps) then (1 - at_index a k)%Z else at_index a k.
Proof.
  intros Hall. unfold toggle_at. rewrite map_map.
  by rewrite (scatter_map_at_index (λ p, (1 - at_index a p)%Z)).
Qed.

Lemma at_index_ext (a b : list Z) :
  length a = length b →
  (∀ k, k < length a → at_index a k = at_index b k) → a = b.
Proof.
  intros Hlen Hk. apply list_eq. intros k.
  destruct (decide (k < length a)) as [Hlt|Hge].
  - rewrite (lookup_at_index a k Hlt), (lookup_at_index b k) by lia.
    by rewrite Hk.
  - rewrite !lookup_ge_None_2 by lia. done.
Qed.

Lemma toggle_at_twice a ps :
  Forall (λ p, p < length a) ps → toggle_at (toggle_at a ps) ps = a.
Proof.
  intros Hall. apply at_index_ext.
  - by rewrite !toggle_at_length.
  - intros k _. rewrite toggle_at_index.
    + rewrite toggle_at_index by done. destruct (decide (k ∈ ps)); lia.
    + eapply Forall_impl; [exact Hall|]. intros q Hq.
      by rewrite toggle_at_length.
Qed.

Lemma position_lt len i p : position len i = Some p → p < len.
Proof.
  unfold position. repeat case_bool_decide; intros [= <-]; lia.
Qed.

Lemma positions_inv len idx ps :
  positions len idx = Ok ps →
  Forall (λ p, p < len) ps
  ∧ ∀ k, k ∈ ps ↔ ∃ i, i ∈ idx ∧ position len i = Some k.
Proof.
  revert ps. induction idx as [|i idx IH]; intros ps; simpl.
  - intros [= <-]. split; [done|]. intros k. split.
    + by intros ?%elem_of_nil.
    + intros (i & ?%elem_of_nil & _). done.
  - destruct (position len i) as [p|] eqn:Ep; [|done].
    destruct (positions len idx) as [ps'|] eqn:Eps; [|done]. simpl.
    intros [= <-]. destruct (IH ps' eq_refl) as [Hall Hiff]. split.
    + constructor; [by eapply position_lt|done].
    + intros k. rewrite elem_of_cons, Hiff. split.
      * intros [->|(j & Hj & Hpos)]; [exists i|exists j]; split; try done.
        -- left.
        -- by right.
      * intros (j & [->|Hj]%elem_of_cons & Hpos).
        -- left. congruence.
        -- right. by exists j.
Qed.

(** [get_state] raises or not according to the shapes alone. *)
Lemma np_and_shape (m1 m2 m1' m2' : list bool) :
  length m1 = length m1' → length m2 = length m2' →
  (∃ m, np_and m1 m2 = Ok m) → ∃ m', np_and m1' m2' = Ok m'.
Proof.
  intros H1 H2 [m Hm]. unfold np_and in *.
  case_bool_decide as Hl; [rewrite bool_decide_eq_true_2 by lia; eauto|].
  rewrite bool_decide_eq_false_2 by lia.
  destruct m1 as [|b1 [|? ?]], m2 as [|b2 [|? ?]],
           m1' as [|b1' [|? ?]], m2' as [|b2' [|? ?]];
    simpl in *; try discriminate; try lia; eauto.
Qed.

Lemma np_eq_length a v : length (np_eq a v) = length a.
Proof. apply length_map. Qed.

Lemma np_and_same_shape (a1 a2 b1 b2 : list Z) (v1 v2 w1 w2 : Z) :
  length a1 = length b1 → length a2 = length b2 →
  (∃ m, np_and (np_eq a1 v1) (np_eq a2 v2) = Ok m) →
  ∃ m', np_and (np_eq b1 w1) (np_eq b2 w2) = Ok m'.
Proof.
  intros H1 H2. apply np_and_shape; by rewrite !np_eq_length.
Qed.

Lemma get_state_ok_iff d :
  (∃ st, get_state d = Ok st)
  ↔ ∃ m, np_and (np_eq (train_labels d) 1) (np_eq (true_labels d) 1) = Ok m.
Proof.
  unfold get_state. split.
  - intros [st Hst]. destruct (np_and (np_eq (train_labels d) 1) _); [eauto|done].
  - intros Hm.
    destruct (np_and_same_shape _ _ (train_labels d) (true_labels d) _ _ 1 1
                eq_refl eq_refl Hm) as [m1 ->].
    destruct (np_and_same_shape _ _ (train_labels d) (true_labels d) _ _ 0 0
                eq_refl eq_refl Hm) as [m2 ->].
    destruct (np_and_same_shape _ _ (train_labels d) (true_labels d) _ _ 1 0
                eq_refl eq_refl Hm) as [m3 ->].
    destruct (np_and_same_shape _ _ (train_labels d) (true_labels d) _ _ 0 1
                eq_refl eq_refl Hm) as [m4 ->].
    simpl. eauto.
Qed.

Lemma np_array_int32_ok l : Forall fits_int32 l → np_array_int32 l = Ok l.
Proof. intros H. unfold np_array_int32. by rewrite bool_decide_eq_true_2. Qed.

Lemma np_array_int32_overflow l :
  ¬ Forall fits_int32 l → np_array_int32 l = Err OverflowError.
Proof. intros H. unfold np_array_int32. by rewrite bool_decide_eq_false_2. Qed.

(** The four ways [flip_labels] can end, and the state it leaves. *)
Lemma flip_labels_cases d indices :
  let len := length (train_labels d) in
  let valid := filter (λ i, (i < Z.of_nat len)%Z) indices in
  (is_training d = 2
   ∧ flip_labels d indices
     = Raises d (AssertionError (Some "no flipping when testing"%string)))
  ∨ (is_training d ≠ 2 ∧ ¬ Forall fits_int32 indices
     ∧ flip_labels d indices = Raises d OverflowError)
  ∨ (is_training d ≠ 2 ∧ positions len valid = Err IndexError
     ∧ flip_labels d indices = Raises d IndexError)
  ∨ (is_training d ≠ 2
     ∧ ∃ ps, positions len valid = Ok ps
         ∧ ((∃ r, flip_labels d indices
                  = Returns (with_train_labels d (toggle_at (train_labels d) ps)) r
                  ∧ get_state (with_train_labels d (toggle_at (train_labels d) ps))
                    = Ok (after_flip r))
            ∨ (∃ e, flip_labels d indices
                    = Raises (with_train_labels d (toggle_at (train_labels d) ps)) e
                  ∧ ¬ ∃ st, get_state d = Ok st))).
Proof.
  intros len valid. unfold flip_labels. fold len.
  case_bool_decide as Hmode; [by left|]. right.
  destruct (decide (Forall fits_int32 indices)) as [Hfit|Hfit];
    [|left; by rewrite np_array_int32_overflow].
  right. rewrite np_array_int32_ok by done. fold valid.
  destruct (positions len valid) as [ps|e] eqn:Eps.
  - right. split; [done|]. exists ps. split; [done|].
    fold (toggle_at (train_labels d) ps).
    destruct (get_state (with_train_labels d (toggle_at (train_labels d) ps)))
      as [st|e] eqn:Est.
    + left. eexists. split; [done|]. done.
    + right. exists e. split; [done|]. intros Hok.
      apply get_state_ok_iff in Hok.
      assert (∃ st, get_state (with_train_labels d (toggle_at (train_labels d) ps))
                    = Ok st) as [st Hst]; [|congruence].
      apply get_state_ok_iff. simpl.
      eapply np_and_same_shape; [| |exact Hok].
      * by rewrite toggle_at_length.
      * done.
  - left. split; [done|].
    assert (e = IndexError) as ->; [|done].
    clear -Eps. revert e Eps. induction valid as [|i l IH]; intros e; simpl; [done|].
    destruct (position len i); [|by intros [= <-]].
    destruct (positions len l); [done|]. simpl. intros [= <-]. by apply IH.
Qed.

Lemma flip_labels_fits d indices d' r :
  flip_labels d indices = Returns d' r → Forall fits_int32 indices.
Proof.
  unfold flip_labels. case_bool_decide; [done|].
  destruct (decide (Forall fits_int32 indices)) as [|Hfit]; [done|].
  by rewrite np_array_int32_overflow.
Qed.

Lemma flip_state_eq d indices :
  flip_state d indices
  = if bool_decide (is_training d = 2) then d
    else if bool_decide (Forall fits_int32 indices) then
      match positions (length (train_labels d))
              (filter (λ i, (i < Z.of_nat (length (train_labels d)))%Z) indices)
      with
      | Err _ => d
      | Ok ps => with_train_labels d (toggle_at (train_labels d) ps)
      end
    else d.
Proof.
  unfold flip_state, flip_labels, np_array_int32. case_bool_decide; [done|].
  case_bool_decide; [|done].
  destruct (positions _ _) as [ps|e]; [|done].
  fold (toggle_at (train_labels d) ps).
  by destruct (get_state _).
Qed.

(** C9: flipping the same index list twice gives every training label its
    original value back, whatever the index list and the starting labels
    (and however the two calls end). *)
Theorem flip_labels_twice (d : NCF_Dataset) (indices : list Z) :
  train_labels (flip_state (flip_state d indices) indices) = train_labels d.
Proof.
  rewrite (flip_state_eq d indices).
  case_bool_decide as Hmode.
  { rewrite flip_state_eq. by rewrite bool_decide_eq_true_2. }
  case_bool_decide as Hfit.
  2: { rewrite flip_state_eq. rewrite bool_decide_eq_false_2 by done.
       by rewrite bool_decide_eq_false_2. }
  destruct (positions _ _) as [ps|e] eqn:Hps.
  - rewrite flip_state_eq. simpl.
    rewrite bool_decide_eq_false_2 by done.
    rewrite bool_decide_eq_true_2 by done.
    rewrite toggle_at_length, Hps. simpl.
    apply toggle_at_twice. by apply positions_inv in Hps as [? _].
  - rewrite flip_state_eq.
    rewrite bool_decide_eq_false_2 by done.
    rewrite bool_decide_eq_true_2 by done. by rewrite Hps.
Qed.

(** When the first call returns, so does the second. *)
Lemma flip_labels_twice_returns d indices d1 r1 :
  flip_labels d indices = Returns d1 r1 →
  ∃ d2 r2, flip_labels d1 indices = Returns d2 r2
           ∧ train_labels d2 = train_labels d.
Proof.
  intros H1.
  pose proof (flip_labels_twice d indices) as Htwice. unfold flip_state in Htwice.
  rewrite H1 in Htwice. simpl in Htwice.
  pose proof (flip_labels_fits _ _ _ _ H1) as Hfit.
  destruct (flip_labels_cases d indices)
    as [[_ E]|[(_ & _ & E)|[(_ & _ & E)
       |(Hmode & ps & Hps & [(r & E & Hst)|(e & E & _)])]]];
    rewrite H1 in E; try discriminate.
  injection E as -> ->.
  destruct (flip_labels_cases (with_train_labels d (toggle_at (train_labels d) ps))
              indices)
    as [[Hm _]|[(_ & Hno & _)|[(_ & Herr & _)
       |(_ & ps' & Hps' & [(r' & E' & _)|(e & E' & Hno)])]]].
  - done.
  - done.
  - simpl in Herr. rewrite toggle_at_length in Herr. congruence.
  - rewrite E' in Htwice |- *. eauto.
  - destruct Hno. eauto.
Qed.

Lemma flip_labels_valid_only d indices indices' :
  Forall fits_int32 indices → Forall fits_int32 indices' →
  filter (λ i, (i < Z.of_nat (length (train_labels d)))%Z) indices
  = filter (λ i, (i < Z.of_nat (length (train_labels d)))%Z) indices' →
  flip_labels d indices = flip_labels d indices'.
Proof.
  intros H1 H2 H. unfold flip_labels.
  by rewrite !np_array_int32_ok, H by done.
Qed.

Lemma position_of_valid len i k :
  k < len → (i < Z.of_nat len)%Z →
  position len i = Some k
  ↔ i = Z.of_nat k ∨ i = (Z.of_nat k - Z.of_nat len)%Z.
Proof.
  intros Hk Hi. unfold position.
  destruct (decide (0 ≤ i < Z.of_nat len)%Z) as [Hpos|Hpos].
  - rewrite bool_decide_eq_true_2 by done. split.
    + intros [= <-]. left. lia.
    + intros [->| ->]; [f_equal|]; lia.
  - rewrite bool_decide_eq_false_2 by done.
    destruct (decide (- Z.of_nat len ≤ i < 0)%Z) as [Hneg|Hneg].
    + rewrite bool_decide_eq_true_2 by done. split.
      * intros [= <-]. right. lia.
      * intros [->| ->]; [|f_equal]; lia.
    + rewrite bool_decide_eq_false_2 by done. split; [done|].
      intros [->| ->]; lia.
Qed.

(** C7 (amended): [flip_labels] toggles the entries of the original
    training-label array [train_labels], of length [len(features)], at the
    given indices below that length (negative ones counting from its end);
    it leaves the [*_fill] attributes as they are, so a freshly filled
    training-label array is not touched; indices at or beyond
    [len(features)] that fit an [int32] are ignored without an error; an
    index that does not fit is refused by the conversion to [int32], with
    nothing flipped. *)
Theorem flip_labels_original_array (d : NCF_Dataset) (indices : list Z)
    (d' : NCF_Dataset) (report : flip_report) :
  flip_labels d indices = Returns d' report →
  fill d' = fill d
  ∧ (∀ f l tl trl, fill d = Some (FreshArrays f l tl trl) →
       train_labels_fill d' = Some trl)
  ∧ length (train_labels d') = length (train_labels d)
  ∧ (∀ k, k < length (train_labels d) →
       (Z.of_nat k ∈ indices
        ∨ (Z.of_nat k - Z.of_nat (length (train_labels d)))%Z ∈ indices) →
       at_index (train_labels d') k = (1 - at_index (train_labels d) k)%Z)
  ∧ (∀ k, k < length (train_labels d) →
       ¬ (Z.of_nat k ∈ indices
          ∨ (Z.of_nat k - Z.of_nat (length (train_labels d)))%Z ∈ indices) →
       at_index (train_labels d') k = at_index (train_labels d) k)
  ∧ (∀ extra,
       Forall (λ i, (Z.of_nat (length (train_labels d)) ≤ i ≤ 2147483647)%Z)
              extra →
       flip_labels d (indices ++ extra) = Returns d' report)
  ∧ (∀ extra, ¬ Forall fits_int32 extra →
       flip_labels d (indices ++ extra) = Raises d OverflowError).
Proof.
  intros Hret.
  pose proof (flip_labels_fits _ _ _ _ Hret) as Hfit.
  destruct (flip_labels_cases d indices)
    as [[_ E]|[(_ & _ & E)|[(_ & _ & E)
       |(Hmode & ps & Hps & [(r & E & _)|(e & E & _)])]]];
    rewrite Hret in E; try discriminate.
  injection E as -> ->.
  destruct (positions_inv _ _ _ Hps) as [Hall Hiff].
  assert (Hin : ∀ k, k < length (train_labels d) →
            k ∈ ps ↔ (Z.of_nat k ∈ indices
                      ∨ (Z.of_nat k - Z.of_nat (length (train_labels d)))%Z ∈ indices)).
  { intros k Hk. rewrite Hiff. split.
    - intros (i & [Hi Hi']%list_elem_of_filter & Hpos).
      apply position_of_valid in Hpos as [->| ->]; auto.
    - intros [Hi|Hi]; eexists; (split; [apply list_elem_of_filter; split; [|exact Hi]|]);
        try lia; apply position_of_valid; auto; lia. }
  split; [done|]. split.
  { intros f l tl trl Hfill. unfold train_labels_fill. simpl. by rewrite Hfill. }
  split; [apply toggle_at_length|]. simpl. split; [|split; [|split]].
  - intros k Hk Hidx. rewrite toggle_at_index by done.
    rewrite decide_True; [done|]. by apply Hin.
  - intros k Hk Hidx. rewrite toggle_at_index by done.
    rewrite decide_False; [done|]. by rewrite Hin.
  - intros extra Hextra. rewrite <- Hret. apply flip_labels_valid_only.
    + apply Forall_app. split; [done|].
      eapply Forall_impl; [exact Hextra|]. unfold fits_int32. simpl. lia.
    + done.
    + rewrite filter_app.
      assert (filter (λ i, (i < Z.of_nat (length (train_labels d)))%Z) extra = [])
        as ->; [|by rewrite app_nil_r].
      induction Hextra as [|i extra Hi _ IH]; [done|].
      rewrite filter_cons_False by lia. done.
  - intros extra Hextra. unfold flip_labels.
    rewrite bool_decide_eq_false_2 by done.
    rewrite np_array_int32_overflow; [done|].
    rewrite Forall_app. tauto.
Qed.

Lemma flip_labels_original_array_witness :
  fill two_pairs_flipped = fill two_pairs_sampled
  ∧ (∀ f l tl trl, fill two_pairs_sampled = Some (FreshArrays f l tl trl) →
       train_labels_fill two_pairs_flipped = Some trl)
  ∧ length (train_labels two_pairs_flipped) = length (train_labels two_pairs_sampled)
  ∧ (∀ k, k < length (train_labels two_pairs_sampled) →
       (Z.of_nat k ∈ [2; 0]%Z
        ∨ (Z.of_nat k - Z.of_nat (length (train_labels two_pairs_sampled)))%Z
          ∈ [2; 0]%Z) →
       at_index (train_labels two_pairs_flipped) k
       = (1 - at_index (train_labels two_pairs_sampled) k)%Z)
  ∧ (∀ k, k < length (train_labels two_pairs_sampled) →
       ¬ (Z.of_nat k ∈ [2; 0]%Z
          ∨ (Z.of_nat k - Z.of_nat (length (train_labels two_pairs_sampled)))%Z
            ∈ [2; 0]%Z) →
       at_index (train_labels two_pairs_flipped) k
       = at_index (train_labels two_pairs_sampled) k)
  ∧ (∀ extra,
       Forall (λ i, (Z.of_nat (length (train_labels two_pairs_sampled)) ≤ i
                     ≤ 2147483647)%Z) extra →
       flip_labels two_pairs_sampled ([2; 0]%Z ++ extra)
       = Returns two_pairs_flipped two_pairs_flip_report)
  ∧ (∀ extra, ¬ Forall fits_int32 extra →
       flip_labels two_pairs_sampled ([2; 0]%Z ++ extra)
       = Raises two_pairs_sampled OverflowError).
Proof.
  apply (flip_labels_original_array two_pairs_sampled [2; 0]%Z
           two_pairs_flipped two_pairs_flip_report).
  by vm_compute.
Defined.

(** C7 as stated fails: on the sampled example store, whose filled
    training-label array is [1, 1, 0, 0], [flip_labels [2, 0]] returns with
    that array unchanged; index 2 lies below the augmented length 4 and is
    ignored all the same, and the toggle of index 0 lands in [train_labels]
    only. *)
Lemma flip_labels_skips_filled_array :
  flip_labels two_pairs_sampled [2; 0]%Z
  = Returns two_pairs_flipped two_pairs_flip_report
  ∧ NCF_Dataset_len two_pairs_sampled = 4
  ∧ train_labels_fill two_pairs_sampled = Some [1; 1; 0; 0]%Z
  ∧ train_labels_fill two_pairs_flipped = Some [1; 1; 0; 0]%Z
  ∧ train_labels two_pairs_sampled = [1; 1]%Z
  ∧ train_labels two_pairs_flipped = [0; 1]%Z
  ∧ ¬ (∀ idx x, idx ∈ [2; 0] → train_labels_fill two_pairs_sampled
                                 ≫= (λ a, a !! idx) = Some x →
         train_labels_fill two_pairs_flipped ≫= (λ a, a !! idx)
         = Some (1 - x)%Z).
Proof.
  repeat (split; [by vm_compute|]).
  intros H. specialize (H 2 0%Z ltac:(left) eq_refl). by vm_compute in H.
Qed.

(** ** Evaluation mode and the initial labels *)

Lemma np_and_aligned (m1 m2 : list bool) :
  length m1 = length m2 → np_and m1 m2 = Ok (zip_with andb m1 m2).
Proof. intros H. unfold np_and. by rewrite bool_decide_eq_true_2. Qed.

Lemma get_state_aligned d :
  length (true_labels d) = length (train_labels d) →
  get_state d
  = Ok {| pos_train := np_sum (np_eq (train_labels d) 1);
          neg_train := np_sum (np_eq (train_labels d) 0);
          true_pos := np_sum (zip_with andb (np_eq (train_labels d) 1)
                                            (np_eq (true_labels d) 1));
          true_neg := np_sum (zip_with andb (np_eq (train_labels d) 0)
                                            (np_eq (true_labels d) 0));
          false_pos := np_sum (zip_with andb (np_eq (train_labels d) 1)
                                             (np_eq (true_labels d) 0));
          false_neg := np_sum (zip_with andb (np_eq (train_labels d) 0)
                                             (np_eq (true_labels d) 1)) |}.
Proof.
  intros H. unfold get_state.
  rewrite !np_and_aligned by (by rewrite !np_eq_length). done.
Qed.

(** C8 (amended): in evaluation mode ([is_training == 2]) [flip_labels]
    raises its assertion failure at once and changes nothing; [get_state]
    has no mode check and returns its counts there as in any other mode. *)
Theorem evaluation_mode_flip_and_state (d : NCF_Dataset) :
  is_training d = 2 →
  length (true_labels d) = length (train_labels d) →
  (∀ indices,
     flip_labels d indices
     = Raises d (AssertionError (Some "no flipping when testing"%string)))
  ∧ get_state d
    = Ok {| pos_train := np_sum (np_eq (train_labels d) 1);
            neg_train := np_sum (np_eq (train_labels d) 0);
            true_pos := np_sum (zip_with andb (np_eq (train_labels d) 1)
                                              (np_eq (true_labels d) 1));
            true_neg := np_sum (zip_with andb (np_eq (train_labels d) 0)
                                              (np_eq (true_labels d) 0));
            false_pos := np_sum (zip_with andb (np_eq (train_labels d) 1)
                                               (np_eq (true_labels d) 0));
            false_neg := np_sum (zip_with andb (np_eq (train_labels d) 0)
                                               (np_eq (true_labels d) 1)) |}.
Proof.
  intros Hmode Hlen. split.
  - intros indices. unfold flip_labels. by rewrite bool_decide_eq_true_2.
  - by apply get_state_aligned.
Qed.

Lemma evaluation_mode_flip_and_state_witness :
  (∀ indices,
     flip_labels (two_pairs 2 1) indices
     = Raises (two_pairs 2 1)
              (AssertionError (Some "no flipping when testing"%string)))
  ∧ get_state (two_pairs 2 1)
    = Ok {| pos_train := np_sum (np_eq (train_labels (two_pairs 2 1)) 1);
            neg_train := np_sum (np_eq (train_labels (two_pairs 2 1)) 0);
            true_pos := np_sum (zip_with andb (np_eq (train_labels (two_pairs 2 1)) 1)
                                              (np_eq (true_labels (two_pairs 2 1)) 1));
            true_neg := np_sum (zip_with andb (np_eq (train_labels (two_pairs 2 1)) 0)
                                              (np_eq (true_labels (two_pairs 2 1)) 0));
            false_pos := np_sum (zip_with andb (np_eq (train_labels (two_pairs 2 1)) 1)
                                               (np_eq (true_labels (two_pairs 2 1)) 0));
            false_neg := np_sum (zip_with andb (np_eq (train_labels (two_pairs 2 1)) 0)
                                               (np_eq (true_labels (two_pairs 2 1)) 1)) |}.
Proof.
  apply (evaluation_mode_flip_and_state (two_pairs 2 1)).
  - reflexivity.
  - reflexivity.
Defined.

(** C8 as stated fails for [get_state]: on the example store in evaluation
    mode it raises nothing and returns the counts. *)
Lemma get_state_in_evaluation_mode :
  is_training (two_pairs 2 1) = 2
  ∧ get_state (two_pairs 2 1)
    = Ok {| pos_train := 2; neg_train := 0; true_pos := 1; true_neg := 0;
            false_pos := 1; false_neg := 0 |}
  ∧ ∀ e, get_state (two_pairs 2 1) ≠ Err e.
Proof. repeat (split; [by vm_compute|]). intros e. by vm_compute. Qed.

Lemma np_eq_replicate n (x v : Z) :
  np_eq (replicate n x) v = replicate n (bool_decide (x = v)).
Proof. unfold np_eq. induction n as [|n IH]; simpl; [done|]. by rewrite IH. Qed.

Lemma np_sum_replicate n b : np_sum (replicate n b) = if b then n else 0.
Proof.
  unfold np_sum. induction n as [|n IH]; simpl; [by destruct b|].
  rewrite filter_cons. destruct b; case_decide; simpl; rewrite ?IH; done.
Qed.

Lemma zip_with_andb_true n (m : list bool) :
  length m = n → zip_with andb (replicate n true) m = m.
Proof.
  revert n. induction m as [|b m IH]; intros [|n] H; simpl in *; try done.
  rewrite IH by lia. done.
Qed.

Lemma zip_with_andb_false n (m : list bool) :
  length m = n → zip_with andb (replicate n false) m = replicate n false.
Proof.
  revert n. induction m as [|b m IH]; intros [|n] H; simpl in *; try done.
  rewrite IH by lia. done.
Qed.

Lemma np_sum_np_eq (a : list Z) v :
  np_sum (np_eq a v) = length (filter (λ x, x = v) a).
Proof.
  unfold np_sum, np_eq. induction a as [|x a IH]; [done|].
  simpl. rewrite !filter_cons. case_bool_decide; repeat case_decide;
    simpl; try congruence.
Qed.

(** C10: the constructor fills both the observed-label array and the
    training-label array with ones, whatever the ground-truth labels passed
    in; so before any flip [get_state] counts every sample whose true label
    is 0 as a false positive (and none as a negative). *)
Theorem init_labels_all_ones (un inum : nat) (f : list (nat * nat))
    (tm : gset (nat * nat)) (tl : list Z) (it ng : nat) :
  length tl = length f →
  labels (NCF_Dataset_init un inum f tm tl it ng) = replicate (length f) 1%Z
  ∧ train_labels (NCF_Dataset_init un inum f tm tl it ng)
    = replicate (length f) 1%Z
  ∧ (∀ i, i < length f →
       train_labels (NCF_Dataset_init un inum f tm tl it ng) !! i = Some 1%Z)
  ∧ get_state (NCF_Dataset_init un inum f tm tl it ng)
    = Ok {| pos_train := length f; neg_train := 0;
            true_pos := length (filter (λ x, x = 1%Z) tl);
            true_neg := 0;
            false_pos := length (filter (λ x, x = 0%Z) tl);
            false_neg := 0 |}.
Proof.
  intros Hlen. split; [done|]. split; [done|]. split.
  - intros i Hi. simpl. by apply lookup_replicate_2.
  - rewrite get_state_aligned by (simpl; by rewrite length_replicate).
    simpl. rewrite !np_eq_replicate.
    rewrite bool_decide_eq_true_2 by done.
    rewrite bool_decide_eq_false_2 by done.
    rewrite !zip_with_andb_true by (by rewrite np_eq_length).
    rewrite !zip_with_andb_false by (by rewrite np_eq_length).
    rewrite !np_sum_replicate, !np_sum_np_eq. done.
Qed.

Lemma init_labels_all_ones_witness :
  labels (two_pairs 0 1) = replicate 2 1%Z
  ∧ train_labels (two_pairs 0 1) = replicate 2 1%Z
  ∧ (∀ i, i < 2 → train_labels (two_pairs 0 1) !! i = Some 1%Z)
  ∧ get_state (two_pairs 0 1)
    = Ok {| pos_train := 2; neg_train := 0;
            true_pos := length (filter (λ x, x = 1%Z) [1; 0]%Z);
            true_neg := 0;
            false_pos := length (filter (λ x, x = 0%Z) [1; 0]%Z);
            false_neg := 0 |}.
Proof.
  apply (init_labels_all_ones 2 10 [(0, 5); (1, 2)] two_pairs_mat [1; 0]%Z 0 1).
  reflexivity.
Defined.

(** ** Cluster ids of a constructed neighbor-wise dataset *)

Lemma seed_step_extends g ranking s cl c :
  at_index cl s = (-1)%Z →
  let cl2 := if bool_decide (1 < g)
             then fill_group g (drop 1 (ranking s)) c (<[s := Z.of_nat c]> cl) 1
             else <[s := Z.of_nat c]> cl in
  extends_with c cl cl2 ∧ at_index cl2 s = Z.of_nat c.
Proof.
  intros Hs cl2.
  pose proof (at_index_sentinel_lt _ _ Hs) as Hlt.
  assert (H1 : extends_with c cl (<[s := Z.of_nat c]> cl))
    by (by apply extends_with_insert).
  assert (Hs1 : at_index (<[s := Z.of_nat c]> cl) s = Z.of_nat c)
    by (by apply at_index_insert).
  assert (H2 : extends_with c (<[s := Z.of_nat c]> cl) cl2).
  { unfold cl2. case_bool_decide; [apply fill_group_extends|apply extends_with_refl]. }
  split; [by eapply extends_with_trans|].
  destruct H2 as [_ H2]. destruct (H2 s) as [E|[E _]]; [congruence|lia].
Qed.

Lemma ids_inv_seed n g ranking s cl c :
  ids_inv n g cl c → c ≠ n / g → at_index cl s = (-1)%Z →
  ids_inv n g
    (if bool_decide (1 < g)
     then fill_group g (drop 1 (ranking s)) c (<[s := Z.of_nat c]> cl) 1
     else <[s := Z.of_nat c]> cl)
    (S c).
Proof.
  intros (Hrange & Hused & Hc) Hne Hs.
  destruct (seed_step_extends g ranking s cl c Hs) as [[Hlen Hext] Hs2].
  pose proof (at_index_sentinel_lt _ _ Hs) as Hlt.
  repeat split.
  - intros i Hi. rewrite Hlen in Hi.
    destruct (Hext i) as [E|[_ E]]; rewrite E; [|right; lia].
    destruct (Hrange i Hi); [by left|right; lia].
  - intros j Hj. destruct (decide (j = c)) as [->|Hjc].
    + exists s. split; [by rewrite Hlen|done].
    + destruct (Hused j ltac:(lia)) as (i & Hi & E). exists i.
      split; [by rewrite Hlen|].
      destruct (Hext i) as [E'|[E' _]]; [congruence|]. rewrite E in E'. lia.
  - lia.
Qed.

Lemma grouping_loop_ids_inv n g ranking samples cl c :
  ids_inv n g cl c →
  ids_inv n g (grouping_loop n g ranking samples cl c).1
              (grouping_loop n g ranking samples cl c).2.
Proof.
  revert cl c. induction samples as [|s samples IH]; intros cl c Hinv; simpl.
  - done.
  - case_bool_decide as Hbreak; [done|].
    case_bool_decide as Hassigned; [by apply IH|].
    apply IH. apply ids_inv_seed; [done|done|].
    destruct (decide (at_index cl s = (-1)%Z)); [done|]. by destruct Hassigned.
Qed.

Lemma distinct_values_bound (cl : list Z) (c : nat) :
  (∀ j, j < c → ∃ i, i < length cl ∧ at_index cl i = Z.of_nat j) →
  (∃ i, i < length cl ∧ at_index cl i = (-1)%Z) →
  c < distinct_values cl.
Proof.
  intros Hused (i & Hi & Hsent). unfold distinct_values.
  set (ids := (Z.of_nat <$> seq 0 c) ++ [(-1)%Z]).
  assert (Hnd : NoDup ids).
  { apply NoDup_app. split; [|split].
    - apply NoDup_fmap; [apply _|apply NoDup_seq].
    - intros x (j & -> & _)%list_elem_of_fmap ?%list_elem_of_singleton. lia.
    - apply NoDup_singleton. }
  assert (Hsub : (list_to_set ids : gset Z) ⊆ list_to_set cl).
  { intros x. rewrite !elem_of_list_to_set. unfold ids.
    intros [(j & -> & Hj%elem_of_seq)%list_elem_of_fmap
           | ->%list_elem_of_singleton]%elem_of_app.
    - destruct (Hused j ltac:(lia)) as (k & Hk & E).
      apply list_elem_of_lookup. exists k. rewrite lookup_at_index by done.
      by rewrite E.
    - apply list_elem_of_lookup. exists i. rewrite lookup_at_index by done.
      by rewrite Hsent. }
  apply subseteq_size in Hsub.
  rewrite (size_list_to_set ids Hnd) in Hsub. unfold ids in Hsub.
  rewrite length_app, length_fmap, length_seq in Hsub. simpl in Hsub. lia.
Qed.

(** Whenever the constructor's assertion holds, no entity keeps the
    sentinel and every id lies below [cluster_num], for any ranking. *)
Lemma assign_with_ranking_asserted n g ranking :
  cluster_count n g = distinct_values (assign_with_ranking n g ranking) →
  ∀ i, i < n →
    (0 ≤ at_index (assign_with_ranking n g ranking) i
     < Z.of_nat (cluster_count n g))%Z.
Proof.
  unfold assign_with_ranking.
  pose proof (grouping_loop_length n g ranking (seq 0 n) (replicate n (-1)%Z) 0)
    as Hlen.
  assert (Hinit : ids_inv n g (replicate n (-1)%Z) 0).
  { repeat split; [|lia|lia]. intros i Hi. left.
    apply at_index_lookup, lookup_replicate_2. by rewrite length_replicate in Hi. }
  pose proof (grouping_loop_ids_inv n g ranking (seq 0 n) _ 0 Hinit)
    as (Hrange & Hused & Hc).
  destruct (grouping_loop n g ranking (seq 0 n) (replicate n (-1)%Z) 0)
    as [cl c]. simpl in *. rewrite length_replicate in Hlen.
  assert (Hq : n / g ≤ cluster_count n g) by (unfold cluster_count; lia).
  unfold repair_pass. case_bool_decide as Hrepair.
  - intros _ i Hi. destruct (repair_loop_spec c cl n) as [_ Hres].
    destruct (Hres i) as [[Hne [E|E]] _]; [done| |rewrite E; lia].
    destruct (Hrange i ltac:(lia)) as [E'|E']; [congruence|].
    rewrite E. lia.
  - intros Hassert i Hi.
    destruct (Hrange i ltac:(lia)) as [E|E]; [|lia].
    pose proof (distinct_values_bound cl c Hused) as Hbound.
    specialize (Hbound ltac:(exists i; split; [lia|done])). lia.
Qed.

Lemma NCF_NeighborWise_Dataset_init_inv argsort sim un inum f tm tl it ng gs nt c :
  NCF_NeighborWise_Dataset_init argsort sim un inum f tm tl it ng gs nt = Ok c →
  nw_base c = NCF_Dataset_init un inum f tm tl it ng ∧ nw_inv c.
Proof.
  unfold NCF_NeighborWise_Dataset_init, assign_cluster_ids.
  case_bool_decide as Hgs; [done|].
  destruct (take_indices _ _) as [ids|e] eqn:Etake; [|done]. simpl.
  case_bool_decide as Hassert; [|done]. intros [= <-].
  rewrite np_unique_length in Hassert.
  apply take_indices_inv in Etake as [Hall _].
  rewrite assign_with_ranking_length in Hall.
  split; [done|]. unfold nw_inv. simpl. split; [|split; [|split]].
  - by rewrite assign_with_ranking_length.
  - intros i Hi. rewrite assign_with_ranking_length in Hi.
    by apply assign_with_ranking_asserted.
  - by destruct nt.
  - done.
Qed.

(** ** Invariants of reachable views *)

Lemma base_inv_init un inum f tm tl it ng :
  base_inv (NCF_Dataset_init un inum f tm tl it ng).
Proof. repeat split; simpl; by rewrite ?length_replicate. Qed.

Lemma ng_sample_same d draws d' draws' :
  num_ng d = 0 → ng_sample d draws = Returns (d', draws') () →
  d' = with_fill d SameArrays ∧ is_training d ≠ 2.
Proof.
  intros Hng. unfold ng_sample. case_bool_decide; [done|].
  rewrite bool_decide_eq_true_2 by done. by intros [= <- <-].
Qed.

Lemma ng_sample_base_inv d draws d' draws' :
  base_inv d → ng_sample d draws = Returns (d', draws') () → base_inv d'.
Proof.
  intros (Hl & Htrl & _) Hret. destruct (decide (num_ng d = 0)) as [Hng|Hng].
  - destruct (ng_sample_same _ _ _ _ Hng Hret) as [-> Hmode].
    repeat split; simpl; done.
  - destruct (ng_sample_fresh _ _ _ _ Hng Hret)
      as (Hmode & _ & Htl & _ & negs & -> & _ & Hlen & Hall & Husers).
    split; [done|]. split; [done|]. unfold fill_inv. simpl.
    rewrite !length_app, !length_replicate. repeat split; try lia.
    exists negs. repeat split; try done.
    eapply Forall_impl; [exact Hall|]. by intros uj [_ ?].
Qed.

Lemma flip_labels_returns d indices d' r :
  flip_labels d indices = Returns d' r →
  ∃ ps, Forall (λ p, p < length (train_labels d)) ps
        ∧ d' = with_train_labels d (toggle_at (train_labels d) ps).
Proof.
  intros Hret.
  destruct (flip_labels_cases d indices)
    as [[_ E]|[(_ & _ & E)|[(_ & _ & E)
       |(Hmode & ps & Hps & [(r' & E & _)|(e & E & _)])]]];
    rewrite Hret in E; try discriminate.
  injection E as -> ->. exists ps. split; [|done].
  by apply positions_inv in Hps as [? _].
Qed.

Lemma flip_labels_base_inv d indices d' r :
  base_inv d → flip_labels d indices = Returns d' r → base_inv d'.
Proof.
  intros (Hl & Htrl & Hfill) Hret.
  destruct (flip_labels_returns _ _ _ _ Hret) as (ps & _ & ->).
  repeat split; simpl; [done|by rewrite toggle_at_length|done].
Qed.

Lemma view_base_set_base v d : view_base (set_base v d) = d.
Proof. by destruct v. Qed.

Lemma NCF_NeighborWise_Dataset_ng_sample_returns c draws c' draws' :
  NCF_NeighborWise_Dataset_ng_sample c draws = Returns (c', draws') () →
  ∃ d f, ng_sample (nw_base c) draws = Returns (d, draws') ()
         ∧ features_fill d = Some f
         ∧ Forall (λ e, e < length (clusters_per_sample c))
                  (entity_column (neighbor_type c) f)
         ∧ c' = with_base c d
                  (Some (map (at_index (clusters_per_sample c))
                             (entity_column (neighbor_type c) f))).
Proof.
  unfold NCF_NeighborWise_Dataset_ng_sample.
  destruct (ng_sample (nw_base c) draws) as [[d dr] []|[d dr] e|] eqn:E; try done.
  destruct (features_fill d) as [f|] eqn:Ef; [|done].
  destruct (take_indices _ _) as [ids|e] eqn:Et; [|done].
  intros [= <- <-]. apply take_indices_inv in Et as [Hall ->].
  exists d, f. done.
Qed.

Lemma view_ng_sample_base v draws v' draws' :
  view_ng_sample v draws = Returns (v', draws') () →
  ng_sample (view_base v) draws = Returns (view_base v', draws') ().
Proof.
  destruct v as [d|d|d|c]; simpl.
  1-3: destruct (ng_sample d draws) as [[d1 dr] []|[d1 dr] e|]; try done;
       by intros [= <- <-].
  destruct (NCF_NeighborWise_Dataset_ng_sample c draws)
    as [[c1 dr] []|[c1 dr] e|] eqn:E; try done.
  intros [= <- <-].
  apply NCF_NeighborWise_Dataset_ng_sample_returns in E
    as (d & f & E & _ & _ & ->). done.
Qed.

Lemma view_flip_labels_base v indices v' r :
  view_flip_labels v indices = Returns v' r →
  flip_labels (view_base v) indices = Returns (view_base v') r
  ∧ v' = set_base v (view_base v').
Proof.
  unfold view_flip_labels.
  destruct (flip_labels (view_base v) indices) as [d r'|d e|]; try done.
  intros [= <- <-]. by rewrite view_base_set_base.
Qed.

Lemma features_fill_ng_sample d draws d' draws' :
  ng_sample d draws = Returns (d', draws') () →
  features d' = features d ∧ user_num d' = user_num d
  ∧ item_num d' = item_num d ∧ num_ng d' = num_ng d
  ∧ true_labels d' = true_labels d.
Proof.
  intros Hret. destruct (decide (num_ng d = 0)) as [Hng|Hng].
  - by destruct (ng_sample_same _ _ _ _ Hng Hret) as [-> _].
  - by destruct (ng_sample_fresh _ _ _ _ Hng Hret)
      as (_ & _ & _ & _ & negs & -> & _).
Qed.

Lemma view_inv_constructed v : constructed v → view_inv v.
Proof.
  destruct 1 as [| | |argsort sim un inum f tm tl it ng gs nt c Hinit];
    try (split; [apply base_inv_init|done]).
  apply NCF_NeighborWise_Dataset_init_inv in Hinit as [Hbase Hnw].
  split; [|done]. simpl. rewrite Hbase. apply base_inv_init.
Qed.

Lemma view_inv_ng_sample v draws v' draws' :
  view_inv v → view_ng_sample v draws = Returns (v', draws') () → view_inv v'.
Proof.
  intros [Hbase Hv] Hret. split.
  { eapply ng_sample_base_inv; [exact Hbase|]. by apply view_ng_sample_base. }
  destruct v as [d|d|d|c]; simpl in Hret.
  1-3: destruct (ng_sample d draws) as [[d1 dr] []|[d1 dr] e|]; try done;
       by injection Hret as <- <-.
  destruct (NCF_NeighborWise_Dataset_ng_sample c draws)
    as [[c1 dr] []|[c1 dr] e|] eqn:E; try done.
  injection Hret as <- <-.
  apply NCF_NeighborWise_Dataset_ng_sample_returns in E
    as (d & f & E & Hf & Hall & ->).
  destruct (features_fill_ng_sample _ _ _ _ E) as (Hfe & Hun & Hin & _).
  destruct Hv as (Hlen & Hrange & Hcol & _).
  unfold nw_inv. simpl. rewrite Hf, Hfe.
  assert (Hcount : entity_count (neighbor_type c) d
                   = entity_count (neighbor_type c) (nw_base c)).
  { destruct (neighbor_type c); simpl; congruence. }
  rewrite Hcount. done.
Qed.

Lemma view_inv_flip_labels v indices v' r :
  view_inv v → view_flip_labels v indices = Returns v' r → view_inv v'.
Proof.
  intros [Hbase Hv] Hret.
  apply view_flip_labels_base in Hret as [Hflip Hv'].
  split; [by eapply flip_labels_base_inv|].
  destruct (flip_labels_returns _ _ _ _ Hflip) as (ps & _ & Hd').
  rewrite Hv', Hd'. by destruct v.
Qed.

Lemma reachable_view_inv v : reachable v → view_inv v.
Proof.
  induction 1 as [v Hc|v draws v' draws' _ IH Hret|v indices v' r _ IH Hret].
  - by apply view_inv_constructed.
  - by eapply view_inv_ng_sample.
  - by eapply view_inv_flip_labels.
Qed.

(** C6: after [ng_sample] has returned, the filled feature array and the
    three filled label arrays all have the length
    [len(features) * (num_ng + 1)], which is what [__len__] reports; with
    [num_ng == 0] they are the original arrays.  (Objects as a program can
    hold them, with one true label per positive pair.) *)
Theorem ng_sample_lengths (v : sample_view) (draws : list nat)
    (v' : sample_view) (draws' : list nat) :
  reachable v →
  aligned (view_base v) →
  view_ng_sample v draws = Returns (v', draws') () →
  ∃ f l tl trl,
    features_fill (view_base v') = Some f
    ∧ labels_fill (view_base v') = Some l
    ∧ true_labels_fill (view_base v') = Some tl
    ∧ train_labels_fill (view_base v') = Some trl
    ∧ length f = length (features (view_base v)) * (num_ng (view_base v) + 1)
    ∧ length l = length f ∧ length tl = length f ∧ length trl = length f
    ∧ NCF_Dataset_len (view_base v') = length f
    ∧ (num_ng (view_base v) = 0 →
         f = features (view_base v) ∧ l = labels (view_base v)
         ∧ tl = true_labels (view_base v) ∧ trl = train_labels (view_base v)).
Proof.
  intros Hreach Halign Hret.
  apply reachable_view_inv in Hreach as [(Hl & Htrl & _) _].
  apply view_ng_sample_base in Hret.
  unfold aligned in Halign. unfold NCF_Dataset_len.
  destruct (features_fill_ng_sample _ _ _ _ Hret) as (Hfe & _ & _ & Hng' & _).
  rewrite Hfe, Hng'.
  destruct (decide (num_ng (view_base v) = 0)) as [Hng|Hng].
  - destruct (ng_sample_same _ _ _ _ Hng Hret) as [-> _].
    eexists _, _, _, _. repeat split; try done; simpl; rewrite ?Hng; lia.
  - destruct (ng_sample_fresh _ _ _ _ Hng Hret)
      as (_ & _ & _ & _ & negs & -> & _ & Hlen & _).
    eexists _, _, _, _. split; [done|]. split; [done|]. split; [done|].
    split; [done|]. rewrite !length_app, !length_replicate.
    repeat split; try lia; done.
Qed.

Lemma ng_sample_lengths_witness :
  ∃ f l tl trl,
    features_fill (view_base (Pointwise two_pairs_sampled)) = Some f
    ∧ labels_fill (view_base (Pointwise two_pairs_sampled)) = Some l
    ∧ true_labels_fill (view_base (Pointwise two_pairs_sampled)) = Some tl
    ∧ train_labels_fill (view_base (Pointwise two_pairs_sampled)) = Some trl
    ∧ length f = length (features (view_base (Pointwise (two_pairs 0 1))))
                 * (num_ng (view_base (Pointwise (two_pairs 0 1))) + 1)
    ∧ length l = length f ∧ length tl = length f ∧ length trl = length f
    ∧ NCF_Dataset_len (view_base (Pointwise two_pairs_sampled)) = length f
    ∧ (num_ng (view_base (Pointwise (two_pairs 0 1))) = 0 →
         f = features (view_base (Pointwise (two_pairs 0 1)))
         ∧ l = labels (view_base (Pointwise (two_pairs 0 1)))
         ∧ tl = true_labels (view_base (Pointwise (two_pairs 0 1)))
         ∧ trl = train_labels (view_base (Pointwise (two_pairs 0 1)))).
Proof.
  apply (ng_sample_lengths (Pointwise (two_pairs 0 1)) [5; 3; 2; 7]
           (Pointwise two_pairs_sampled) []).
  - apply reach_new. exact (new_pointwise 2 10 [(0, 5); (1, 2)] two_pairs_mat
                                          [1; 0]%Z 0 1).
  - reflexivity.
  - by vm_compute.
Defined.

(** ** The groups of a view partition its rows *)

Lemma np_where_snoc (mask : list bool) (b : bool) :
  np_where (mask ++ [b])
  = np_where mask ++ (if b then [length mask] else []).
Proof.
  unfold np_where. rewrite length_app. simpl.
  rewrite Nat.add_1_r, seq_S. simpl.
  rewrite zip_with_app by (by rewrite length_seq).
  rewrite filter_app, fmap_app. f_equal.
  simpl. rewrite filter_cons. simpl. destruct b; by case_decide.
Qed.

Lemma concat_map_app {A B} (f g : A → list B) (l : list A) :
  concat (map (λ x, f x ++ g x) l) ≡ₚ concat (map f l) ++ concat (map g l).
Proof.
  induction l as [|x l IH]; simpl; [done|].
  rewrite IH. rewrite <- !(assoc_L (++)). f_equiv.
  rewrite !(assoc_L (++)). f_equiv. apply Permutation_app_comm.
Qed.

Lemma concat_map_single_group (k x n : nat) :
  concat (map (λ g, if bool_decide (k = g) then [x] else []) (seq 0 n))
  = if decide (k < n) then [x] else [].
Proof.
  induction n as [|n IH]; [done|].
  rewrite seq_S, map_app, concat_app, IH. simpl.
  repeat case_decide; case_bool_decide; simpl; try done; lia.
Qed.

(** Grouping rows by a key below the number of groups gives every row
    index once. *)
Lemma groups_partition (keys : list nat) (n : nat) :
  Forall (λ k, k < n) keys →
  concat (map (λ g, np_where (map (λ k, bool_decide (k = g)) keys)) (seq 0 n))
  ≡ₚ seq 0 (length keys).
Proof.
  induction keys as [|k keys IH] using rev_ind; intros Hall.
  - simpl. induction (seq 0 n) as [|g l IHl]; [done|]. simpl. exact IHl.
  - apply Forall_app in Hall as [Hall Hk]. rewrite Forall_singleton in Hk.
    rewrite length_app. simpl. rewrite Nat.add_1_r, seq_S. simpl.
    assert (E : map (λ g, np_where (map (λ k0, bool_decide (k0 = g)) (keys ++ [k])))
                    (seq 0 n)
                = map (λ g, np_where (map (λ k0, bool_decide (k0 = g)) keys)
                            ++ (if bool_decide (k = g) then [length keys] else []))
                      (seq 0 n)).
    { apply map_ext. intros g. rewrite map_app. simpl.
      by rewrite np_where_snoc, length_map. }
    rewrite E, concat_map_app, (IH Hall), concat_map_single_group.
    by rewrite decide_True.
Qed.

Lemma all_groups_idx_ok v (group_ids : list nat) (idx_of : nat → list nat) :
  (∀ g, g ∈ group_ids → get_group_idx v g = Ok (idx_of g)) →
  all_groups_idx v group_ids = Ok (map idx_of group_ids).
Proof.
  induction group_ids as [|g gs IH]; intros H; simpl; [done|].
  rewrite H by left. simpl. rewrite IH; [done|].
  intros g' Hg'. apply H. by right.
Qed.

Lemma mask_select_ok {A} (a : list A) (mask : list bool) :
  length mask = length a → ∃ r, mask_select a mask = Ok r.
Proof. intros H. unfold mask_select. rewrite bool_decide_eq_true_2 by done. eauto. Qed.

Lemma select_group_idx f l tl trl mask :
  length mask = length f → length l = length f →
  length tl = length f → length trl = length f →
  rbind (select_group f l tl trl mask) (λ g, Ok (g_idx g)) = Ok (np_where mask).
Proof.
  intros Hm Hl Htl Htrl. unfold select_group.
  destruct (mask_select_ok (map fst f) mask) as [? ->]; [by rewrite length_map|].
  destruct (mask_select_ok (map snd f) mask) as [? ->]; [by rewrite length_map|].
  destruct (mask_select_ok l mask) as [? ->]; [lia|].
  destruct (mask_select_ok tl mask) as [? ->]; [lia|].
  destruct (mask_select_ok trl mask) as [? ->]; [lia|].
  done.
Qed.

(** The filled arrays of a reachable, sampled and aligned store. *)
Lemma filled_arrays_ok d :
  base_inv d → aligned d → is_Some (fill d) →
  ∃ f l tl trl negs,
    filled_arrays d = Ok (f, l, tl, trl) ∧ features_fill d = Some f
    ∧ length l = length f ∧ length tl = length f ∧ length trl = length f
    ∧ f = features d ++ negs
    ∧ length f = NCF_Dataset_len d
    ∧ Forall (λ uj, uj.2 < item_num d) negs
    ∧ Forall (λ uj, uj.1 ∈ map fst (features d)) negs.
Proof.
  intros (Hl & Htrl & Hfill) Halign [fl Hfl].
  unfold filled_arrays, features_fill, labels_fill, true_labels_fill,
    train_labels_fill, fill_inv, NCF_Dataset_len, aligned in *.
  rewrite Hfl in *. destruct fl as [|f l tl trl].
  - destruct Hfill as [Hng Hmode]. rewrite bool_decide_eq_false_2 by done.
    exists (features d), (labels d), (true_labels d), (train_labels d), [].
    rewrite app_nil_r, Hng. repeat split; try done; lia.
  - destruct Hfill as (Hmode & Hl' & Htl' & Htrl' & negs & -> & Hlen & Hit & Hus).
    rewrite bool_decide_eq_false_2 by done.
    exists (features d ++ negs), l, tl, trl, negs.
    repeat split; try done. rewrite length_app. lia.
Qed.

Lemma concat_map_singleton {A} (l : list A) : concat (map (λ x, [x]) l) = l.
Proof. induction l as [|x l IH]; simpl; [done|]. by rewrite IH. Qed.

Lemma entity_column_length k (f : list (nat * nat)) :
  length (entity_column k f) = length f.
Proof. destruct k; apply length_map. Qed.

Lemma np_eq_as_key_mask (ids : list Z) (g : nat) :
  Forall (λ x, (0 ≤ x)%Z) ids →
  np_eq ids (Z.of_nat g) = map (λ k, bool_decide (k = g)) (map Z.to_nat ids).
Proof.
  unfold np_eq. induction 1 as [|x ids Hx _ IH]; simpl; [done|].
  rewrite IH. f_equal. apply bool_decide_ext. lia.
Qed.

(** C4: for each of the four views, once [ng_sample] has been called, the
    [idx] arrays that [__getitem__] returns over all group ids below
    [__len__()] hold every row index of the augmented sample set exactly
    once.  (Objects as a program can hold them, with one true label per
    positive pair; the user-wise and item-wise views with user and item
    indices below [user_num] and [item_num].) *)
Theorem grouped_view_partition (v : sample_view) :
  reachable v →
  is_Some (fill (view_base v)) →
  aligned (view_base v) →
  keys_in_range v →
  ∃ rows groups,
    features_fill (view_base v) = Some rows
    ∧ all_groups_idx v (seq 0 (group_count v)) = Ok groups
    ∧ concat groups ≡ₚ seq 0 (length rows).
Proof.
  intros Hreach Hfill Halign Hkeys.
  apply reachable_view_inv in Hreach as [Hbase Hview].
  destruct (filled_arrays_ok _ Hbase Halign Hfill)
    as (f & l & tl & trl & negs & Harr & Hf & Hl & Htl & Htrl & Happ & Hlen
        & Hitems & Husers).
  exists f. destruct v as [d|d|d|c]; simpl in *.
  - (* pointwise *)
    exists (map (λ g, [g]) (seq 0 (NCF_Dataset_len d))). split; [done|]. split.
    + apply all_groups_idx_ok. intros g Hg%elem_of_seq.
      unfold get_group_idx, NCF_Dataset_getitem. rewrite Harr. simpl.
      unfold lookup_or_raise.
      destruct (lookup_lt_is_Some_2 f g) as [? ->]; [lia|].
      destruct (lookup_lt_is_Some_2 l g) as [? ->]; [lia|].
      destruct (lookup_lt_is_Some_2 trl g) as [? ->]; [lia|].
      destruct (lookup_lt_is_Some_2 tl g) as [? ->]; [lia|].
      done.
    + by rewrite concat_map_singleton, Hlen.
  - (* user-wise *)
    exists (map (λ g, np_where (map (λ k, bool_decide (k = g)) (map fst f)))
                (seq 0 (user_num d))).
    split; [done|]. split.
    + apply all_groups_idx_ok. intros g _.
      unfold get_group_idx, NCF_UserWise_Dataset_getitem. rewrite Harr. simpl.
      rewrite select_group_idx by (by rewrite ?length_map).
      by rewrite map_map.
    + rewrite groups_partition; [by rewrite length_map|].
      rewrite Happ, map_app. apply Forall_app. split.
      * by apply Forall_map.
      * apply Forall_map. eapply Forall_impl; [exact Husers|].
        intros uj (ui & -> & Hui)%list_elem_of_fmap. simpl.
        rewrite Forall_forall in Hkeys. by apply Hkeys.
  - (* item-wise *)
    exists (map (λ g, np_where (map (λ k, bool_decide (k = g)) (map snd f)))
                (seq 0 (item_num d))).
    split; [done|]. split.
    + apply all_groups_idx_ok. intros g _.
      unfold get_group_idx, NCF_ItemWise_Dataset_getitem. rewrite Harr. simpl.
      rewrite select_group_idx by (by rewrite ?length_map).
      by rewrite map_map.
    + rewrite groups_partition; [by rewrite length_map|].
      rewrite Happ, map_app. apply Forall_app. split.
      * by apply Forall_map.
      * by apply Forall_map.
  - (* cluster-wise *)
    destruct Hview as (Hcl & Hrange & _ & Hids). rewrite Hf in Hids.
    destruct (cluster_ids_fill c) as [ids|] eqn:Eids; [|done].
    destruct Hids as [Hids Hcol].
    assert (Hbound : Forall (λ x, (0 ≤ x < Z.of_nat (cluster_num c))%Z) ids).
    { rewrite Hids. apply Forall_map. eapply Forall_impl; [exact Hcol|].
      intros e He. simpl. by apply Hrange. }
    assert (Hidlen : length ids = length f).
    { by rewrite Hids, length_map, entity_column_length. }
    exists (map (λ g, np_where (map (λ k, bool_decide (k = g)) (map Z.to_nat ids)))
                (seq 0 (cluster_num c))).
    split; [done|]. split.
    + apply all_groups_idx_ok. intros g _.
      unfold get_group_idx, NCF_NeighborWise_Dataset_getitem.
      rewrite Harr. simpl. rewrite Eids.
      rewrite select_group_idx by (by rewrite ?np_eq_length).
      rewrite np_eq_as_key_mask; [done|].
      eapply Forall_impl; [exact Hbound|]. simpl. lia.
    + rewrite groups_partition; [by rewrite length_map, Hidlen|].
      apply Forall_map. eapply Forall_impl; [exact Hbound|]. simpl.
      unfold NCF_NeighborWise_Dataset_len. lia.
Qed.

Example two_pairs_clustered_groups :
  all_groups_idx (NeighborWise two_pairs_clustered_sampled)
                 (seq 0 (group_count (NeighborWise two_pairs_clustered_sampled)))
  = Ok [[0; 2]; [1; 3]].
Proof. by vm_compute. Qed.

Lemma grouped_view_partition_witness :
  (∃ rows groups,
     features_fill (view_base (NeighborWise two_pairs_clustered_sampled)) = Some rows
     ∧ all_groups_idx (NeighborWise two_pairs_clustered_sampled)
         (seq 0 (group_count (NeighborWise two_pairs_clustered_sampled)))
       = Ok groups
     ∧ concat groups ≡ₚ seq 0 (length rows))
  ∧ (∃ rows groups,
       features_fill (view_base (UserWise two_pairs_sampled)) = Some rows
       ∧ all_groups_idx (UserWise two_pairs_sampled)
           (seq 0 (group_count (UserWise two_pairs_sampled)))
         = Ok groups
       ∧ concat groups ≡ₚ seq 0 (length rows)).
Proof.
  split.
  - apply (grouped_view_partition (NeighborWise two_pairs_clustered_sampled)).
    + apply (reach_ng_sample (NeighborWise two_pairs_clustered) [5; 3; 2; 7] _ []).
      * apply reach_new.
        apply (new_neighborwise stable_argsort two_users 2 10 [(0, 5); (1, 2)]
                                two_pairs_mat
                                [1; 0]%Z 0 1 1 by_user).
        by vm_compute.
      * by vm_compute.
    + by eexists.
    + reflexivity.
    + exact I.
  - apply (grouped_view_partition (UserWise two_pairs_sampled)).
    + apply (reach_ng_sample (UserWise (two_pairs 0 1)) [5; 3; 2; 7] _ []).
      * apply reach_new.
        exact (new_userwise 2 10 [(0, 5); (1, 2)] two_pairs_mat [1; 0]%Z 0 1).
      * by vm_compute.
    + by eexists.
    + reflexivity.
    + repeat constructor.
Defined.

(** * Further properties of the clustering *)

Lemma members_in_cons cl c x l :
  members_in cl c (x :: l)
  = (if bool_decide (at_index cl x = Z.of_nat c) then 1 else 0) + members_in cl c l.
Proof.
  unfold members_in. rewrite filter_cons.
  case_bool_decide; case_decide; simpl; congruence.
Qed.

(** Counting by position and counting by value agree. *)
Lemma count_positions (P : Z → Prop) `{∀ x, Decision (P x)} (pre cl : list Z) :
  length (filter (λ i, P (at_index (pre ++ cl) i)) (seq (length pre) (length cl)))
  = length (filter P cl).
Proof.
  revert pre. induction cl as [|x cl IH]; intros pre; [done|].
  simpl. rewrite !filter_cons.
  assert (Hx : at_index (pre ++ x :: cl) (length pre) = x).
  { apply at_index_lookup. by rewrite list_lookup_middle. }
  specialize (IH (pre ++ [x])). rewrite length_app in IH. simpl in IH.
  rewrite Nat.add_1_r, <- (assoc_L (++)) in IH. simpl in IH.
  rewrite Hx. case_decide; simpl; by rewrite IH.
Qed.

Lemma members_in_all cl c : members_in cl c (seq 0 (length cl)) = cluster_size cl c.
Proof.
  unfold members_in, cluster_size.
  exact (count_positions (λ x, x = Z.of_nat c) [] cl).
Qed.

Lemma unassigned_by_value cl :
  unassigned cl = length (filter (λ x, x = (-1)%Z) cl).
Proof.
  unfold unassigned, unassigned_in.
  exact (count_positions (λ x, x = (-1)%Z) [] cl).
Qed.

Lemma extends_with_members c cl cl2 l :
  extends_with c cl cl2 →
  members_in cl2 c l + unassigned_in cl2 l = members_in cl c l + unassigned_in cl l.
Proof.
  intros [_ Hext]. induction l as [|i l IH]; [done|].
  rewrite !members_in_cons, !unassigned_in_cons.
  destruct (Hext i) as [E|[E E']].
  - rewrite E. lia.
  - rewrite E, E'. repeat case_bool_decide; lia.
Qed.

Lemma extends_with_members_other c j cl cl2 l :
  j ≠ c → extends_with c cl cl2 → members_in cl2 j l = members_in cl j l.
Proof.
  intros Hj [_ Hext]. induction l as [|i l IH]; [done|].
  rewrite !members_in_cons, IH.
  destruct (Hext i) as [E|[E E']].
  - by rewrite E.
  - rewrite E, E'. repeat case_bool_decide; lia.
Qed.

Lemma members_in_none cl c l :
  (∀ i, i ∈ l → at_index cl i ≠ Z.of_nat c) → members_in cl c l = 0.
Proof.
  induction l as [|i l IH]; intros H; [done|].
  rewrite members_in_cons, IH by (intros k Hk; apply H; by right).
  rewrite bool_decide_eq_false_2; [done|]. apply H. left.
Qed.

Lemma members_in_pos cl c l i :
  i ∈ l → at_index cl i = Z.of_nat c → 1 ≤ members_in cl c l.
Proof.
  induction l as [|k l IH]; intros Hi Hc; [by apply elem_of_nil in Hi|].
  rewrite members_in_cons. apply elem_of_cons in Hi as [->|Hi].
  - rewrite bool_decide_eq_true_2 by done. lia.
  - specialize (IH Hi Hc). lia.
Qed.

Lemma unassigned_in_none cl l :
  (∀ i, i ∈ l → at_index cl i ≠ (-1)%Z) → unassigned_in cl l = 0.
Proof.
  induction l as [|i l IH]; intros H; [done|].
  rewrite unassigned_in_cons, IH by (intros k Hk; apply H; by right).
  rewrite bool_decide_eq_false_2; [done|]. apply H. left.
Qed.

(** The inner loop never takes more entities than the group still lacks. *)
Lemma fill_group_at_most g cands c cl sz :
  sz < g →
  unassigned cl ≤ unassigned (fill_group g cands c cl sz) + (g - sz).
Proof.
  revert cl sz. induction cands as [|x cands IH]; intros cl sz Hsz; simpl; [lia|].
  case_bool_decide as Hcl; [|by apply IH].
  assert (Hins : unassigned (<[x := Z.of_nat c]> cl) + 1 = unassigned cl)
    by (apply unassigned_insert; [done|lia]).
  case_bool_decide as Hfull; [lia|].
  specialize (IH (<[x := Z.of_nat c]> cl) (S sz) ltac:(lia)). lia.
Qed.

(** What one seeding step does to the sizes. *)
Lemma seed_step_sizes g ranking s cl c :
  1 ≤ g →
  at_index cl s = (-1)%Z →
  (∀ i, i < length cl → at_index cl i ≠ Z.of_nat c) →
  let cl2 := if bool_decide (1 < g)
             then fill_group g (drop 1 (ranking s)) c (<[s := Z.of_nat c]> cl) 1
             else <[s := Z.of_nat c]> cl in
  cluster_size cl2 c + unassigned cl2 = unassigned cl
  ∧ 1 ≤ cluster_size cl2 c
  ∧ unassigned cl ≤ unassigned cl2 + g
  ∧ ∀ j, j ≠ c → cluster_size cl2 j = cluster_size cl j.
Proof.
  intros Hg Hs Hfresh cl2.
  destruct (seed_step_extends g ranking s cl c Hs) as [Hext Hs2].
  fold cl2 in Hext, Hs2. pose proof Hext as [Hlen _].
  pose proof (at_index_sentinel_lt _ _ Hs) as Hlt.
  pose proof (extends_with_members c cl cl2 (seq 0 (length cl)) Hext) as Hm.
  rewrite (members_in_none cl c) in Hm
    by (intros i Hi%elem_of_seq; apply Hfresh; lia).
  assert (Hu2 : unassigned cl2 = unassigned_in cl2 (seq 0 (length cl)))
    by (unfold unassigned; by rewrite Hlen).
  assert (Hc2 : cluster_size cl2 c = members_in cl2 c (seq 0 (length cl)))
    by (by rewrite <- members_in_all, Hlen).
  assert (Hu : unassigned cl = unassigned_in cl (seq 0 (length cl))) by done.
  split; [lia|]. split; [|split].
  - rewrite Hc2. eapply members_in_pos; [|exact Hs2]. apply elem_of_seq. lia.
  - assert (H1 : unassigned (<[s := Z.of_nat c]> cl) + 1 = unassigned cl)
      by (apply unassigned_insert; [done|lia]).
    assert (H2 : unassigned (<[s := Z.of_nat c]> cl) ≤ unassigned cl2 + (g - 1)).
    { unfold cl2. case_bool_decide; [by apply fill_group_at_most|lia]. }
    lia.
  - intros j Hj. rewrite <- !members_in_all, Hlen.
    by apply (extends_with_members_other c).
Qed.

Lemma sized_inv_seed n g ranking s cl c :
  1 ≤ g → s < n → sized_inv n g s cl c → c ≠ n / g → at_index cl s = (-1)%Z →
  sized_inv n g (S s)
    (if bool_decide (1 < g)
     then fill_group g (drop 1 (ranking s)) c (<[s := Z.of_nat c]> cl) 1
     else <[s := Z.of_nat c]> cl)
    (S c).
Proof.
  intros Hg Hsn (Hlen & Hpast & Hids & Hcount & Hsizes) Hne Hs.
  pose proof Hids as (Hrange & _ & _).
  destruct (seed_step_extends g ranking s cl c Hs) as [[Hlen2 Hext] Hs2].
  destruct (seed_step_sizes g ranking s cl c Hg Hs) as (Hsum & Hone & Hmost & Hother).
  { intros i Hi. destruct (Hrange i Hi); lia. }
  split; [congruence|]. split; [|split; [|split]].
  - intros i Hi. destruct (decide (i = s)) as [->|Hne']; [rewrite Hs2; lia|].
    destruct (Hext i) as [E|[_ E]]; rewrite E; [apply Hpast|]; lia.
  - by apply ids_inv_seed.
  - lia.
  - intros j Hj. destruct (decide (j = c)) as [->|Hjc]; [lia|].
    rewrite Hother by done. apply Hsizes. lia.
Qed.

Lemma grouping_loop_sized n g ranking :
  1 ≤ g →
  ∀ k s cl c, s + k = n → sized_inv n g s cl c →
    ∃ s', sized_inv n g s' (grouping_loop n g ranking (seq s k) cl c).1
                           (grouping_loop n g ranking (seq s k) cl c).2
          ∧ ((grouping_loop n g ranking (seq s k) cl c).2 = n / g ∨ s' = n).
Proof.
  intros Hg. induction k as [|k IH]; intros s cl c Hsk Hinv; simpl.
  - exists s. split; [done|]. right. lia.
  - case_bool_decide as Hbreak; [exists s; split; [done|by left]|].
    case_bool_decide as Hassigned.
    + apply IH; [lia|]. destruct Hinv as (Hlen & Hpast & Hrest).
      split; [done|]. split; [|done].
      intros i Hi. destruct (decide (i = s)) as [->|]; [done|]. apply Hpast. lia.
    + apply IH; [lia|]. apply sized_inv_seed; [done|lia|done|done|].
      destruct (decide (at_index cl s = (-1)%Z)); [done|]. by destruct Hassigned.
Qed.

Lemma sized_inv_initial n g : sized_inv n g 0 (replicate n (-1)%Z) 0.
Proof.
  destruct (loop_inv_initial n g) as (Hlen & Hpast & Hrange & Hc & Hcount).
  split; [done|]. split; [done|]. split; [|split; [lia|intros j Hj; lia]].
  repeat split; [|lia|lia]. intros i Hi.
  apply Hrange. by rewrite Hlen in Hi.
Qed.

(** However the entities are ranked, the main loop ends with its counter at
    [n // g]. *)
Lemma grouping_loop_final n g ranking :
  1 ≤ g →
  let r := grouping_loop n g ranking (seq 0 n) (replicate n (-1)%Z) 0 in
  r.2 = n / g ∧ ∃ s', sized_inv n g s' r.1 r.2.
Proof.
  intros Hg r.
  destruct (grouping_loop_sized n g ranking Hg n 0 _ 0 eq_refl (sized_inv_initial n g))
    as (s' & Hinv & Hend).
  fold r in Hinv, Hend. split; [|by exists s'].
  destruct Hend as [?| ->]; [done|].
  destruct Hinv as (Hlen & Hpast & (_ & _ & Hc) & Hcount & _).
  assert (Hzero : unassigned r.1 = 0).
  { unfold unassigned. apply unassigned_in_none.
    intros i Hi%elem_of_seq. apply Hpast. lia. }
  pose proof (Nat.Div0.mul_div_le n g).
  assert (Hmul : r.2 * g = n) by nia.
  pose proof (Nat.div_mul r.2 g ltac:(lia)) as Hdiv.
  rewrite Hmul in Hdiv. lia.
Qed.

(** The [## Edge case] loop, entry by entry. *)
Lemma repair_loop_exact (c : nat) (cl : list Z) (k : nat) :
  let res := foldl (λ cl sample,
                      if bool_decide (at_index cl sample = (-1)%Z)
                      then <[sample := Z.of_nat c]> cl else cl)
                   cl (seq 0 k) in
  length res = length cl
  ∧ ∀ i, at_index res i
         = if decide (i < k ∧ at_index cl i = (-1)%Z)
           then Z.of_nat c else at_index cl i.
Proof.
  cbv zeta. induction k as [|k IH].
  - split; [done|]. intros i. rewrite decide_False by lia. done.
  - rewrite seq_S, foldl_snoc. destruct IH as [Hlen IH].
    set (res := foldl _ cl (seq 0 k)) in *. simpl.
    pose proof (IH k) as Hk. rewrite decide_False in Hk by lia.
    case_bool_decide as Hsent.
    + pose proof (at_index_sentinel_lt _ _ Hsent) as Hlt.
      split; [by rewrite length_insert|]. intros i.
      destruct (decide (i = k)) as [->|Hne].
      * rewrite at_index_insert by done.
        rewrite decide_True; [done|]. split; [lia|congruence].
      * rewrite at_index_insert_ne by done. rewrite IH.
        repeat case_decide; try done; lia.
    + split; [done|]. intros i. rewrite IH.
      destruct (decide (i = k)) as [->|Hne].
      * rewrite decide_False by lia. rewrite decide_False; [done|].
        intros [_ E]. congruence.
      * repeat case_decide; try done; lia.
Qed.

Lemma cluster_count_cases n g :
  1 ≤ g →
  (n mod g = 0 ∧ cluster_count n g = n / g ∧ n / g * g = n)
  ∨ (n mod g ≠ 0 ∧ cluster_count n g = S (n / g) ∧ n / g * g < n).
Proof.
  intros Hg. unfold cluster_count. pose proof (Nat.div_mod_eq n g).
  case_bool_decide; [right|left]; repeat split; nia.
Qed.

(** A running repair pass gives all remaining entities the id [c]. *)
Lemma repair_pass_runs n g cl c :
  length cl = n → c < cluster_count n g →
  extends_with c cl (repair_pass n g cl c)
  ∧ unassigned (repair_pass n g cl c) = 0.
Proof.
  intros Hlen Hc. unfold repair_pass. rewrite bool_decide_eq_true_2 by done.
  destruct (repair_loop_exact c cl n) as [Hlen' Hres].
  set (res := foldl _ cl (seq 0 n)) in *. split; [split; [done|]|].
  - intros i. rewrite Hres. case_decide as Hi; [right; by destruct Hi|by left].
  - unfold unassigned. apply unassigned_in_none.
    intros i Hi%elem_of_seq. rewrite Hres.
    case_decide as Hi'; [lia|]. intros E. apply Hi'. split; [lia|done].
Qed.

(** The sizes of the clusters, however the entities are ranked. *)
Lemma assign_with_ranking_sizes n g ranking :
  1 ≤ g →
  (∀ j, j < n / g → 1 ≤ cluster_size (assign_with_ranking n g ranking) j ≤ g)
  ∧ (n mod g ≠ 0 →
       (∀ i, i < n →
          (0 ≤ at_index (assign_with_ranking n g ranking) i
           < Z.of_nat (cluster_count n g))%Z)
       ∧ n mod g ≤ cluster_size (assign_with_ranking n g ranking) (n / g)).
Proof.
  intros Hg. unfold assign_with_ranking.
  destruct (grouping_loop_final n g ranking Hg)
    as (Hq & s' & Hlen & _ & (Hrange & _ & _) & Hcount & Hsizes).
  destruct (grouping_loop n g ranking (seq 0 n) (replicate n (-1)%Z) 0)
    as [cl c]. simpl in *. subst c.
  destruct (cluster_count_cases n g Hg) as [(Hmod & HK & Hmul)|(Hmod & HK & Hmul)].
  - split; [|done]. unfold repair_pass.
    rewrite bool_decide_eq_false_2 by lia. done.
  - destruct (repair_pass_runs n g cl (n / g) Hlen ltac:(lia)) as [Hext Hzero].
    pose proof Hext as [Hlen' Hpt].
    pose proof (extends_with_members (n / g) cl _ (seq 0 (length cl)) Hext) as Hm.
    rewrite (members_in_none cl (n / g)) in Hm
      by (intros i Hi%elem_of_seq; destruct (Hrange i ltac:(lia)); lia).
    rewrite <- Hlen' in Hm at 1 2. rewrite members_in_all in Hm.
    fold (unassigned (repair_pass n g cl (n / g))) in Hm.
    fold (unassigned cl) in Hm.
    pose proof (Nat.div_mod_eq n g). split; [|intros _; split].
    + intros j Hj. rewrite <- members_in_all, Hlen'.
      rewrite (extends_with_members_other (n / g) j cl) by (done || lia).
      rewrite members_in_all. by apply Hsizes.
    + intros i Hi. destruct (Hpt i) as [E|[_ E]]; rewrite E; [|lia].
      destruct (Hrange i ltac:(lia)) as [E'|E']; [|lia].
      exfalso. eapply (unassigned_zero _ i Hzero); [lia|congruence].
    + nia.
Qed.

Lemma distinct_values_full (cl : list Z) (k : nat) :
  (∀ i, i < length cl → (0 ≤ at_index cl i < Z.of_nat k)%Z) →
  (∀ j, j < k → 1 ≤ cluster_size cl j) →
  distinct_values cl = k.
Proof.
  intros Hrange Hused. unfold distinct_values.
  assert (E : (list_to_set cl : gset Z) = list_to_set (Z.of_nat <$> seq 0 k)).
  { apply set_eq. intros x. rewrite !elem_of_list_to_set. split.
    - intros (i & Hi)%list_elem_of_lookup.
      pose proof (lookup_lt_Some _ _ _ Hi) as Hlt.
      specialize (Hrange i Hlt). rewrite (at_index_lookup _ _ _ Hi) in Hrange.
      apply list_elem_of_fmap. exists (Z.to_nat x). split; [lia|].
      apply elem_of_seq. lia.
    - intros (j & -> & Hj%elem_of_seq)%list_elem_of_fmap.
      specialize (Hused j ltac:(lia)). unfold cluster_size in Hused.
      destruct (filter (λ x, x = Z.of_nat j) cl) as [|y l] eqn:Ef;
        [simpl in Hused; lia|].
      assert (Hy : y ∈ filter (λ x, x = Z.of_nat j) cl) by (rewrite Ef; left).
      apply list_elem_of_filter in Hy as [-> Hy]. done. }
  rewrite E, size_list_to_set.
  - by rewrite length_fmap, length_seq.
  - apply NoDup_fmap; [apply _|apply NoDup_seq].
Qed.

(** X1: whatever the similarity matrix, each of the first [n // g] clusters
    that [assign_cluster_ids] forms has at least one and at most
    [group_size] members. *)
Theorem cluster_sizes_bounded (n g : nat) (argsort : list Q → list nat)
    (sim : similarity) (j : nat) :
  1 ≤ g → j < n / g →
  1 ≤ cluster_size (assign_cluster_ids n g argsort sim).2 j ≤ g.
Proof.
  intros Hg Hj. unfold assign_cluster_ids. simpl.
  by apply assign_with_ranking_sizes.
Qed.

Lemma cluster_sizes_bounded_witness :
  1 ≤ cluster_size (assign_cluster_ids 2 2 stable_argsort not_self_similar).2 0 ≤ 2.
Proof.
  apply (cluster_sizes_bounded 2 2 stable_argsort not_self_similar 0).
  - lia.
  - by vm_compute.
Defined.

(** X2: whatever the similarity matrix, when the entity count is not a
    multiple of the group size every entity ends with an id in
    [[0, cluster_num)], every one of the [cluster_num] ids is in use, and
    the trailing cluster [n // g] filled by the repair pass has at least
    [n % g] members. *)
Theorem remainder_always_covered (n g : nat) (argsort : list Q → list nat)
    (sim : similarity) :
  1 ≤ g → n mod g ≠ 0 →
  (∀ i, i < n →
     (0 ≤ at_index (assign_cluster_ids n g argsort sim).2 i
      < Z.of_nat (assign_cluster_ids n g argsort sim).1)%Z)
  ∧ distinct_values (assign_cluster_ids n g argsort sim).2
    = (assign_cluster_ids n g argsort sim).1
  ∧ n mod g ≤ cluster_size (assign_cluster_ids n g argsort sim).2 (n / g).
Proof.
  intros Hg Hmod. unfold assign_cluster_ids. simpl.
  destruct (assign_with_ranking_sizes n g (similar_samples n argsort sim) Hg)
    as [Hsizes Hrem].
  destruct (Hrem Hmod) as [Hcov Hlast].
  split; [done|]. split; [|done].
  apply distinct_values_full.
  - by rewrite assign_with_ranking_length.
  - intros j Hj.
    destruct (cluster_count_cases n g Hg) as [(? & _)|(_ & HK & _)]; [done|].
    destruct (decide (j = n / g)) as [->|Hne].
    + pose proof (Nat.mod_upper_bound n g). lia.
    + apply Hsizes. lia.
Qed.

Lemma remainder_always_covered_witness :
  (∀ i, i < 3 →
     (0 ≤ at_index (assign_cluster_ids 3 2 stable_argsort not_self_similar).2 i
      < Z.of_nat (assign_cluster_ids 3 2 stable_argsort not_self_similar).1)%Z)
  ∧ distinct_values (assign_cluster_ids 3 2 stable_argsort not_self_similar).2
    = (assign_cluster_ids 3 2 stable_argsort not_self_similar).1
  ∧ 3 mod 2
    ≤ cluster_size (assign_cluster_ids 3 2 stable_argsort not_self_similar).2 (3 / 2).
Proof.
  apply (remainder_always_covered 3 2 stable_argsort not_self_similar).
  - lia.
  - by vm_compute.
Defined.

Lemma grouping_loop_exact n g ranking :
  1 ≤ g → well_ranked n ranking →
  ∀ k s cl c, s + k = n → loop_inv n g s cl c →
    (∀ j, j < c → cluster_size cl j = g) →
    (∃ s', loop_inv n g s' (grouping_loop n g ranking (seq s k) cl c).1
                           (grouping_loop n g ranking (seq s k) cl c).2)
    ∧ ∀ j, j < (grouping_loop n g ranking (seq s k) cl c).2 →
           cluster_size (grouping_loop n g ranking (seq s k) cl c).1 j = g.
Proof.
  intros Hg Hwr. induction k as [|k IH]; intros s cl c Hsk Hinv Hsizes; simpl.
  - split; [by exists s|done].
  - case_bool_decide as Hbreak; [split; [by exists s|done]|].
    case_bool_decide as Hassigned.
    + apply IH; [lia| |done]. destruct Hinv as (Hlen & Hpast & Hrest).
      split; [done|]. split; [|done].
      intros i Hi. destruct (decide (i = s)) as [->|]; [done|]. apply Hpast. lia.
    + assert (Hs : at_index cl s = (-1)%Z).
      { destruct (decide (at_index cl s = (-1)%Z)); [done|]. by destruct Hassigned. }
      pose proof (loop_inv_seed n g ranking s cl c Hg Hwr ltac:(lia) Hinv Hbreak Hs)
        as Hinv'.
      destruct Hinv as (Hlen & _ & Hrange & _ & Hcount).
      destruct (seed_step_sizes g ranking s cl c Hg Hs) as (Hsum & _ & _ & Hother).
      { intros i Hi. destruct (Hrange i ltac:(lia)); lia. }
      apply IH; [lia|exact Hinv'|].
      destruct Hinv' as (_ & _ & _ & _ & Hcount').
      intros j Hj. destruct (decide (j = c)) as [->|Hjc]; [lia|].
      rewrite Hother by done. apply Hsizes. lia.
Qed.

(** With well-formed rankings the groups are full. *)
Lemma assign_with_ranking_exact n g ranking :
  1 ≤ g → well_ranked n ranking →
  (∀ j, j < n / g → cluster_size (assign_with_ranking n g ranking) j = g)
  ∧ (n mod g ≠ 0 → cluster_size (assign_with_ranking n g ranking) (n / g) = n mod g)
  ∧ distinct_values (assign_with_ranking n g ranking) = cluster_count n g.
Proof.
  intros Hg Hwr.
  destruct (assign_with_ranking_covers n g ranking Hg Hwr) as [Hreslen Hcov].
  pose proof (assign_with_ranking_sizes n g ranking Hg) as [Hbounded _].
  assert (Hexact :
    (∀ j, j < n / g → cluster_size (assign_with_ranking n g ranking) j = g)
    ∧ (n mod g ≠ 0 →
       cluster_size (assign_with_ranking n g ranking) (n / g) = n mod g)).
  { unfold assign_with_ranking.
    destruct (grouping_loop_final n g ranking Hg) as (Hq & _).
    destruct (grouping_loop_exact n g ranking Hg Hwr n 0 _ 0 eq_refl
                (loop_inv_initial n g) ltac:(intros j Hj; lia))
      as [(s' & Hlen & _ & Hrange & _ & Hcount) Hsizes].
    destruct (grouping_loop n g ranking (seq 0 n) (replicate n (-1)%Z) 0)
      as [cl c]. simpl in *. subst c.
    destruct (cluster_count_cases n g Hg) as [(Hmod & HK & Hmul)|(Hmod & HK & Hmul)].
    - unfold repair_pass. rewrite bool_decide_eq_false_2 by lia. done.
    - destruct (repair_pass_runs n g cl (n / g) Hlen ltac:(lia)) as [Hext Hzero].
      pose proof Hext as [Hlen' _].
      pose proof (extends_with_members (n / g) cl _ (seq 0 (length cl)) Hext) as Hm.
      rewrite (members_in_none cl (n / g)) in Hm
        by (intros i Hi%elem_of_seq; destruct (Hrange i ltac:(lia)); lia).
      rewrite <- Hlen' in Hm at 1 2. rewrite members_in_all in Hm.
      fold (unassigned (repair_pass n g cl (n / g))) in Hm.
      fold (unassigned cl) in Hm.
      pose proof (Nat.div_mod_eq n g). split.
      + intros j Hj. rewrite <- members_in_all, Hlen'.
        rewrite (extends_with_members_other (n / g) j cl) by (done || lia).
        rewrite members_in_all. by apply Hsizes.
      + intros _. nia. }
  destruct Hexact as [Hfull Hlast]. split; [done|]. split; [done|].
  apply distinct_values_full.
  - by rewrite Hreslen.
  - intros j Hj.
    destruct (cluster_count_cases n g Hg) as [(Hmod & HK & _)|(Hmod & HK & _)].
    + rewrite Hfull by lia. done.
    + destruct (decide (j = n / g)) as [->|Hne].
      * rewrite Hlast by done. lia.
      * rewrite Hfull by lia. done.
Qed.

(** X3: when every entity is strictly more similar to itself than to any
    other entity (and [np.argsort] sorts, however it orders equal entries),
    [assign_cluster_ids] leaves no sentinel and forms groups of exactly
    [group_size] members, ids [0 .. n // g - 1], plus, when the entity count
    is not a multiple of the group size, one trailing group of [n % g]
    members; so exactly [cluster_num] distinct ids are in use. *)
Theorem cluster_sizes_exact (n g : nat) (argsort : list Q → list nat)
    (sim : similarity) :
  1 ≤ g →
  (∀ s, s < n →
     is_argsort (negated_row n sim s) (argsort (negated_row n sim s)) = true) →
  (∀ s j, s < n → j < n → j ≠ s → (sim s j < sim s s)%Q) →
  (∀ i, i < n →
     (0 ≤ at_index (assign_cluster_ids n g argsort sim).2 i
      < Z.of_nat (assign_cluster_ids n g argsort sim).1)%Z)
  ∧ (∀ j, j < n / g → cluster_size (assign_cluster_ids n g argsort sim).2 j = g)
  ∧ (n mod g ≠ 0 →
       cluster_size (assign_cluster_ids n g argsort sim).2 (n / g) = n mod g)
  ∧ distinct_values (assign_cluster_ids n g argsort sim).2
    = (assign_cluster_ids n g argsort sim).1.
Proof.
  intros Hg Hsort Hdiag. unfold assign_cluster_ids. simpl.
  pose proof (ranking_of_similarity n argsort sim Hsort Hdiag) as Hwr.
  split; [by apply assign_with_ranking_covers|].
  by apply assign_with_ranking_exact.
Qed.

Lemma cluster_sizes_exact_witness :
  (∀ i, i < 5 →
     (0 ≤ at_index (assign_cluster_ids 5 2 stable_argsort five_entities).2 i
      < Z.of_nat (assign_cluster_ids 5 2 stable_argsort five_entities).1)%Z)
  ∧ (∀ j, j < 5 / 2 →
       cluster_size (assign_cluster_ids 5 2 stable_argsort five_entities).2 j = 2)
  ∧ (5 mod 2 ≠ 0 →
       cluster_size (assign_cluster_ids 5 2 stable_argsort five_entities).2 (5 / 2)
       = 5 mod 2)
  ∧ distinct_values (assign_cluster_ids 5 2 stable_argsort five_entities).2
    = (assign_cluster_ids 5 2 stable_argsort five_entities).1.
Proof.
  apply (cluster_sizes_exact 5 2 stable_argsort five_entities).
  - lia.
  - intros s Hs. do 5 (destruct s as [|s]; [by vm_compute|]). lia.
  - intros s j Hs Hj Hne.
    do 5 (destruct s as [|s];
          [do 5 (destruct j as [|j]; [by vm_compute|]); lia|]).
    lia.
Defined.

(** The distinct ids are [cluster_num] many whenever the entity count is
    not a multiple of the group size or the rankings are well formed. *)
Lemma assign_distinct_values n g (argsort : list Q → list nat) (sim : similarity) :
  1 ≤ g →
  n mod g ≠ 0
  ∨ ((∀ s, s < n →
        is_argsort (negated_row n sim s) (argsort (negated_row n sim s)) = true)
     ∧ (∀ s j, s < n → j < n → j ≠ s → (sim s j < sim s s)%Q)) →
  cluster_count n g
  = distinct_values (assign_with_ranking n g (similar_samples n argsort sim)).
Proof.
  intros Hg [Hmod|[Hsort Hdiag]].
  - destruct (assign_with_ranking_sizes n g (similar_samples n argsort sim) Hg)
      as [Hsizes Hrem].
    destruct (Hrem Hmod) as [Hcov Hlast]. symmetry.
    apply distinct_values_full.
    + by rewrite assign_with_ranking_length.
    + intros j Hj.
      destruct (cluster_count_cases n g Hg) as [(? & _)|(_ & HK & _)]; [done|].
      destruct (decide (j = n / g)) as [->|Hne].
      * pose proof (Nat.mod_upper_bound n g). lia.
      * apply Hsizes. lia.
  - symmetry. apply assign_with_ranking_exact; [done|].
    by apply ranking_of_similarity.
Qed.

(** X4: given the similarity matrix of at least one user and one item, and
    a group size of at least 1, both neighbor-wise constructors pass their
    cluster-count assertion and return the object whenever the entity count
    is not a multiple of the group size, or every entity is strictly more
    similar to itself than to any other entity and [np.argsort] sorts (the
    first constructor, when the feature indices lie inside the cluster
    array). *)
Theorem constructors_return (argsort : list Q → list nat) (sim : similarity)
    (un inum : nat) (f : list (nat * nat)) (tm : gset (nat * nat))
    (tl : list Z) (it ng gs : nat) (nt : neighbor_kind)
    (ctm ctl : gmap (nat * nat) Z) :
  1 ≤ gs → 1 ≤ un → 1 ≤ inum →
  (let n := match nt with by_user => un | by_item => inum end in
   (n mod gs ≠ 0
    ∨ ((∀ s, s < n →
          is_argsort (negated_row n sim s) (argsort (negated_row n sim s))
          = true)
       ∧ (∀ s j, s < n → j < n → j ≠ s → (sim s j < sim s s)%Q))) →
   Forall (λ e, e < n) (entity_column nt f) →
   ∃ c, NCF_NeighborWise_Dataset_init argsort sim un inum f tm tl it ng gs nt
        = Ok c
        ∧ cluster_num c = cluster_count n gs
        ∧ length (clusters_per_sample c) = n
        ∧ length (cluster_ids c) = length f)
  ∧ ((un mod gs ≠ 0
      ∨ ((∀ s, s < un →
            is_argsort (negated_row un sim s) (argsort (negated_row un sim s))
            = true)
         ∧ (∀ s j, s < un → j < un → j ≠ s → (sim s j < sim s s)%Q))) →
     ∃ c, CDAE_Neighbor_Data_init argsort sim ctm un inum ctl gs = Ok c
          ∧ cdae_cluster_num c = cluster_count un gs
          ∧ length (cdae_clusters_per_sample c) = un).
Proof.
  intros Hgs _ _. split.
  - intros n Hgood Hrange.
    unfold NCF_NeighborWise_Dataset_init, assign_cluster_ids.
    rewrite bool_decide_eq_false_2 by lia.
    assert (Hn : entity_count nt (NCF_Dataset_init un inum f tm tl it ng) = n)
      by (by destruct nt).
    rewrite Hn. rewrite take_indices_ok by (by rewrite assign_with_ranking_length).
    simpl. rewrite np_unique_length.
    rewrite bool_decide_eq_true_2 by (by apply assign_distinct_values).
    eexists. split; [done|]. simpl.
    rewrite assign_with_ranking_length, length_map, entity_column_length. done.
  - intros Hgood. unfold CDAE_Neighbor_Data_init, assign_cluster_ids.
    rewrite bool_decide_eq_false_2 by lia. rewrite np_unique_length.
    rewrite bool_decide_eq_true_2 by (by apply assign_distinct_values).
    eexists. split; [done|]. simpl. by rewrite assign_with_ranking_length.
Qed.

Lemma constructors_return_witness :
  ∃ c, NCF_NeighborWise_Dataset_init stable_argsort two_users 2 10
         [(0, 5); (1, 2)] two_pairs_mat [1; 0]%Z 0 1 1 by_user = Ok c
       ∧ cluster_num c = cluster_count 2 1
       ∧ length (clusters_per_sample c) = 2
       ∧ length (cluster_ids c) = length [(0, 5); (1, 2)].
Proof.
  apply (proj1 (constructors_return stable_argsort two_users 2 10
                  [(0, 5); (1, 2)] two_pairs_mat [1; 0]%Z 0 1 1 by_user ∅ ∅
                  ltac:(lia) ltac:(lia) ltac:(lia))).
  - right. split.
    + intros s Hs. do 2 (destruct s as [|s]; [by vm_compute|]). lia.
    + intros s j Hs Hj Hne.
      do 2 (destruct s as [|s];
            [do 2 (destruct j as [|j]; [by vm_compute|]); lia|]).
      lia.
  - repeat constructor.
Defined.

Lemma grouping_loop_singletons n ranking :
  ∀ k s, s + k = n →
    grouping_loop n 1 ranking (seq s k)
      ((Z.of_nat <$> seq 0 s) ++ replicate k (-1)%Z) s
    = (Z.of_nat <$> seq 0 n, n).
Proof.
  induction k as [|k IH]; intros s Hsk.
  - simpl. rewrite app_nil_r. by replace s with n by lia.
  - cbn [grouping_loop seq]. rewrite Nat.div_1_r.
    rewrite bool_decide_eq_false_2 by lia.
    assert (Hs : at_index ((Z.of_nat <$> seq 0 s) ++ replicate (S k) (-1)%Z) s
                 = (-1)%Z).
    { apply at_index_lookup. rewrite lookup_app_r by (by rewrite length_fmap, length_seq).
      rewrite length_fmap, length_seq, Nat.sub_diag. done. }
    rewrite bool_decide_eq_false_2 by (rewrite Hs; auto).
    rewrite bool_decide_eq_false_2 by lia.
    assert (E : <[s := Z.of_nat s]> ((Z.of_nat <$> seq 0 s) ++ replicate (S k) (-1)%Z)
                = (Z.of_nat <$> seq 0 (S s)) ++ replicate k (-1)%Z).
    { rewrite seq_S, fmap_app, <- (assoc_L (++)).
      rewrite insert_app_r_alt by (by rewrite length_fmap, length_seq).
      rewrite length_fmap, length_seq, Nat.sub_diag. done. }
    rewrite E. apply IH. lia.
Qed.

(** X5: with group size 1 every entity is a cluster of its own, entity [i]
    with id [i], and [cluster_num] is the entity count, whatever the
    similarity matrix. *)
Theorem singleton_clusters (n : nat) (argsort : list Q → list nat)
    (sim : similarity) :
  assign_cluster_ids n 1 argsort sim = (n, Z.of_nat <$> seq 0 n).
Proof.
  unfold assign_cluster_ids, assign_with_ranking.
  pose proof (grouping_loop_singletons n (similar_samples n argsort sim) n 0
                eq_refl) as E.
  simpl in E. rewrite E.
  assert (HK : cluster_count n 1 = n).
  { unfold cluster_count. rewrite Nat.div_1_r, Nat.mod_1_r.
    rewrite bool_decide_eq_false_2 by auto. lia. }
  rewrite HK. unfold repair_pass. rewrite HK.
  rewrite bool_decide_eq_false_2 by lia. done.
Qed.

(** X6: with a group size above the entity count (and at least one entity)
    the main loop stops at once and the repair pass puts every entity into
    the single cluster 0, whatever the similarity matrix. *)
Theorem one_cluster_when_group_exceeds (n g : nat)
    (argsort : list Q → list nat) (sim : similarity) :
  1 ≤ n → n < g →
  assign_cluster_ids n g argsort sim = (1, replicate n 0%Z)
  ∧ (grouping_loop n g (similar_samples n argsort sim) (seq 0 n)
                   (replicate n (-1)%Z) 0)
    = (replicate n (-1)%Z, 0).
Proof.
  intros Hn Hg.
  assert (Hq : n / g = 0) by (by apply Nat.div_small).
  assert (HK : cluster_count n g = 1).
  { unfold cluster_count. rewrite Hq, Nat.mod_small by done.
    rewrite bool_decide_eq_true_2 by lia. done. }
  assert (Hloop : grouping_loop n g (similar_samples n argsort sim) (seq 0 n)
                    (replicate n (-1)%Z) 0 = (replicate n (-1)%Z, 0)).
  { destruct n as [|n]; [lia|]. simpl. rewrite Hq.
    by rewrite bool_decide_eq_true_2. }
  split; [|done].
  unfold assign_cluster_ids, assign_with_ranking. rewrite Hloop, HK. f_equal.
  destruct (repair_pass_runs n g (replicate n (-1)%Z) 0) as [[Hlen Hext] _].
  { apply length_replicate. }
  { lia. }
  apply at_index_ext.
  - by rewrite Hlen, !length_replicate.
  - intros k Hk. rewrite Hlen, length_replicate in Hk.
    assert (Hsent : at_index (replicate n (-1)%Z) k = (-1)%Z)
      by (by apply at_index_lookup, lookup_replicate_2).
    rewrite (at_index_lookup (replicate n 0%Z) k 0%Z)
      by (by apply lookup_replicate_2).
    destruct (Hext k) as [E|[_ E]]; [|done].
    exfalso.
    destruct (repair_pass_runs n g (replicate n (-1)%Z) 0
                (length_replicate _ _) ltac:(lia)) as [_ Hzero].
    eapply (unassigned_zero _ k Hzero); [by rewrite Hlen, length_replicate|].
    congruence.
Qed.

Lemma one_cluster_when_group_exceeds_witness :
  assign_cluster_ids 2 3 stable_argsort not_self_similar = (1, replicate 2 0%Z)
  ∧ (grouping_loop 2 3 (similar_samples 2 stable_argsort not_self_similar) (seq 0 2)
                   (replicate 2 (-1)%Z) 0)
    = (replicate 2 (-1)%Z, 0).
Proof.
  apply (one_cluster_when_group_exceeds 2 3 stable_argsort not_self_similar); lia.
Defined.

(** * Further properties of the label store *)

Lemma binary_replicate n (x : Z) : (x = 0 ∨ x = 1)%Z → binary (replicate n x).
Proof. intros Hx. by apply Forall_replicate. Qed.

Lemma binary_at_index a k : binary a → k < length a →
  (at_index a k = 0 ∨ at_index a k = 1)%Z.
Proof.
  intros Hb Hk. unfold binary in Hb. rewrite Forall_lookup in Hb.
  apply (Hb k). by apply lookup_at_index.
Qed.

Lemma toggle_at_binary a ps :
  Forall (λ p, p < length a) ps → binary a → binary (toggle_at a ps).
Proof.
  intros Hps Hb. unfold binary. apply Forall_lookup. intros k x Hk.
  pose proof (lookup_lt_Some _ _ _ Hk) as Hlt. rewrite toggle_at_length in Hlt.
  apply at_index_lookup in Hk. rewrite toggle_at_index in Hk by done.
  pose proof (binary_at_index a k Hb Hlt). case_decide; lia.
Qed.

Lemma binary_inv_init un inum f tm tl it ng :
  binary_inv (NCF_Dataset_init un inum f tm tl it ng).
Proof. repeat split; simpl; try done. apply binary_replicate. by right. Qed.

Lemma ng_sample_binary_inv d draws d' draws' :
  binary_inv d → ng_sample d draws = Returns (d', draws') () → binary_inv d'.
Proof.
  intros (Hb & Hl & _) Hret. destruct (decide (num_ng d = 0)) as [Hng|Hng].
  - by destruct (ng_sample_same _ _ _ _ Hng Hret) as [-> _].
  - destruct (ng_sample_fresh _ _ _ _ Hng Hret)
      as (_ & _ & _ & _ & negs & -> & _).
    repeat split; simpl; try done.
    + rewrite Hl. apply Forall_app. split; apply binary_replicate; auto.
    + apply Forall_app. split; [done|]. apply binary_replicate. by left.
Qed.

Lemma flip_labels_binary_inv d indices d' r :
  binary_inv d → flip_labels d indices = Returns d' r → binary_inv d'.
Proof.
  intros (Hb & Hl & Hfill) Hret.
  destruct (flip_labels_returns _ _ _ _ Hret) as (ps & Hps & ->).
  repeat split; simpl; try done. by apply toggle_at_binary.
Qed.

Lemma reachable_binary_inv v : reachable v → binary_inv (view_base v).
Proof.
  induction 1 as [v Hc|v draws v' draws' _ IH Hret|v indices v' r _ IH Hret].
  - destruct Hc as [| | |argsort sim un inum f tm tl it ng gs nt c Hinit]; simpl;
      try apply binary_inv_init.
    apply NCF_NeighborWise_Dataset_init_inv in Hinit as [-> _].
    apply binary_inv_init.
  - eapply ng_sample_binary_inv; [exact IH|]. by apply view_ng_sample_base.
  - apply view_flip_labels_base in Hret as [Hflip _].
    by eapply flip_labels_binary_inv.
Qed.

(** X7: in every object a program can hold, the training labels stay 0 or
    1 through any sequence of [ng_sample] and [flip_labels] calls, the
    observed labels stay all ones, and the filled label arrays hold 0 or 1
    only; the label arrays keep the length of [features]. *)
Theorem labels_stay_binary (v : sample_view) :
  reachable v →
  binary (train_labels (view_base v))
  ∧ length (train_labels (view_base v)) = length (features (view_base v))
  ∧ labels (view_base v) = replicate (length (features (view_base v))) 1%Z
  ∧ (∀ trl, train_labels_fill (view_base v) = Some trl → binary trl)
  ∧ (∀ l, labels_fill (view_base v) = Some l → binary l).
Proof.
  intros Hreach.
  pose proof (reachable_binary_inv v Hreach) as (Hb & Hl & Hfill).
  pose proof (reachable_view_inv v Hreach) as [(_ & Htrl & _) _].
  split; [done|]. split; [done|]. split; [done|].
  unfold train_labels_fill, labels_fill.
  destruct (fill (view_base v)) as [[|f l tl trl]|]; split; intros x [= <-];
    try done; try (by destruct Hfill).
  rewrite Hl. apply binary_replicate. by right.
Qed.

Lemma labels_stay_binary_witness :
  binary (train_labels (view_base (Pointwise two_pairs_flipped)))
  ∧ length (train_labels (view_base (Pointwise two_pairs_flipped)))
    = length (features (view_base (Pointwise two_pairs_flipped)))
  ∧ labels (view_base (Pointwise two_pairs_flipped))
    = replicate (length (features (view_base (Pointwise two_pairs_flipped)))) 1%Z
  ∧ (∀ trl, train_labels_fill (view_base (Pointwise two_pairs_flipped)) = Some trl →
       binary trl)
  ∧ (∀ l, labels_fill (view_base (Pointwise two_pairs_flipped)) = Some l →
       binary l).
Proof.
  apply (labels_stay_binary (Pointwise two_pairs_flipped)).
  apply (reach_flip (Pointwise two_pairs_sampled) [2; 0]%Z _ two_pairs_flip_report).
  - apply (reach_ng_sample (Pointwise (two_pairs 0 1)) [5; 3; 2; 7] _ []).
    + apply reach_new.
      exact (new_pointwise 2 10 [(0, 5); (1, 2)] two_pairs_mat [1; 0]%Z 0 1).
    + by vm_compute.
  - by vm_compute.
Defined.

Lemma np_sum_cons b m : np_sum (b :: m) = (if b then 1 else 0) + np_sum m.
Proof.
  unfold np_sum. rewrite filter_cons. destruct b; case_decide; simpl; congruence.
Qed.

(** Splitting a mask by a binary label array. *)
Lemma np_sum_split_left (a : list Z) (m : list bool) :
  binary a → length a = length m →
  np_sum (zip_with andb (np_eq a 1) m) + np_sum (zip_with andb (np_eq a 0) m)
  = np_sum m.
Proof.
  intros Hb. revert m. induction Hb as [|x a Hx _ IH]; intros [|b m] Hlen;
    simpl in *; try done.
  rewrite !np_sum_cons. specialize (IH m ltac:(lia)).
  destruct Hx as [-> | ->]; simpl; destruct b; simpl; lia.
Qed.

Lemma np_sum_split_right (a : list Z) (m : list bool) :
  binary a → length a = length m →
  np_sum (zip_with andb m (np_eq a 1)) + np_sum (zip_with andb m (np_eq a 0))
  = np_sum m.
Proof.
  intros Hb. revert m. induction Hb as [|x a Hx _ IH]; intros [|b m] Hlen;
    simpl in *; try done.
  rewrite !np_sum_cons. specialize (IH m ltac:(lia)).
  destruct Hx as [-> | ->]; simpl; destruct b; simpl; lia.
Qed.

Lemma np_sum_binary (a : list Z) :
  binary a → np_sum (np_eq a 1) + np_sum (np_eq a 0) = length a.
Proof.
  induction 1 as [|x a Hx _ IH]; [done|]. simpl. rewrite !np_sum_cons.
  destruct Hx as [-> | ->]; simpl; lia.
Qed.

(** X8: for every object a program can hold, with one true label per
    sample, [get_state] returns, and its counts split the samples: true
    positives and false negatives are the samples with true label 1, true
    negatives and false positives those with true label 0, and positive and
    negative training labels together are all samples; with true labels 0
    or 1 the four confusion counts also add up to the two training
    counts. *)
Theorem get_state_counts (v : sample_view) :
  reachable v →
  aligned (view_base v) →
  ∃ st,
    get_state (view_base v) = Ok st
    ∧ true_pos st + false_neg st
      = length (filter (λ x, x = 1%Z) (true_labels (view_base v)))
    ∧ true_neg st + false_pos st
      = length (filter (λ x, x = 0%Z) (true_labels (view_base v)))
    ∧ pos_train st + neg_train st = length (features (view_base v))
    ∧ (binary (true_labels (view_base v)) →
         true_pos st + false_pos st = pos_train st
         ∧ true_neg st + false_neg st = neg_train st).
Proof.
  intros Hreach Halign.
  pose proof (reachable_binary_inv v Hreach) as (Hb & _).
  pose proof (reachable_view_inv v Hreach) as [(_ & Htrl & _) _].
  unfold aligned in Halign. eexists. split.
  { apply get_state_aligned. lia. }
  simpl. split; [|split; [|split]].
  - rewrite (Nat.add_comm (np_sum _)), <- np_sum_np_eq.
    rewrite Nat.add_comm.
    apply np_sum_split_left; [done|]. rewrite np_eq_length. lia.
  - rewrite <- np_sum_np_eq. rewrite Nat.add_comm.
    apply np_sum_split_left; [done|]. rewrite np_eq_length. lia.
  - rewrite np_sum_binary by done. lia.
  - intros Htrue. split.
    + apply np_sum_split_right; [done|]. rewrite np_eq_length. lia.
    + rewrite Nat.add_comm.
      apply np_sum_split_right; [done|]. rewrite np_eq_length. lia.
Qed.

Lemma get_state_counts_witness :
  ∃ st,
    get_state (view_base (Pointwise two_pairs_flipped)) = Ok st
    ∧ true_pos st + false_neg st
      = length (filter (λ x, x = 1%Z)
                       (true_labels (view_base (Pointwise two_pairs_flipped))))
    ∧ true_neg st + false_pos st
      = length (filter (λ x, x = 0%Z)
                       (true_labels (view_base (Pointwise two_pairs_flipped))))
    ∧ pos_train st + neg_train st
      = length (features (view_base (Pointwise two_pairs_flipped)))
    ∧ (binary (true_labels (view_base (Pointwise two_pairs_flipped))) →
         true_pos st + false_pos st = pos_train st
         ∧ true_neg st + false_neg st = neg_train st).
Proof.
  apply (get_state_counts (Pointwise two_pairs_flipped)).
  - apply (reach_flip (Pointwise two_pairs_sampled) [2; 0]%Z _ two_pairs_flip_report).
    + apply (reach_ng_sample (Pointwise (two_pairs 0 1)) [5; 3; 2; 7] _ []).
      * apply reach_new.
        exact (new_pointwise 2 10 [(0, 5); (1, 2)] two_pairs_mat [1; 0]%Z 0 1).
      * by vm_compute.
    + by vm_compute.
  - reflexivity.
Defined.

Lemma positions_length len idx ps :
  positions len idx = Ok ps → length ps = length idx.
Proof.
  revert ps. induction idx as [|i idx IH]; intros ps; simpl.
  - by intros [= <-].
  - destruct (position len i); [|done].
    destruct (positions len idx) as [ps'|]; [|done]. simpl.
    intros [= <-]. simpl. by rewrite (IH ps').
Qed.

Lemma flip_labels_report d indices d' r :
  flip_labels d indices = Returns d' r →
  ∃ ps, positions (length (train_labels d))
          (filter (λ i, (i < Z.of_nat (length (train_labels d)))%Z) indices) = Ok ps
        ∧ flip0_1 r = np_sum (np_eq (map (at_index (train_labels d)) ps) 0)
        ∧ flip1_0 r = np_sum (np_eq (map (at_index (train_labels d)) ps) 1)
        ∧ get_state d' = Ok (after_flip r).
Proof.
  intros Hret. pose proof (flip_labels_fits _ _ _ _ Hret) as Hfit.
  revert Hret. unfold flip_labels. case_bool_decide; [done|].
  rewrite np_array_int32_ok by done.
  destruct (positions _ _) as [ps|e]; [|done].
  destruct (get_state _) as [st|e] eqn:Est; [|done].
  intros [= <- <-]. exists ps. done.
Qed.

(** X9: when [flip_labels] returns on an object a program can hold, the
    two flip counts it prints add up to the number of given indices below
    [len(train_labels)] (a repeated index counted each time), and the
    summary it prints is [get_state] of the state it leaves. *)
Theorem flip_labels_counts (v : sample_view) (indices : list Z)
    (v' : sample_view) (r : flip_report) :
  reachable v →
  view_flip_labels v indices = Returns v' r →
  flip0_1 r + flip1_0 r
  = length (filter (λ i, (i < Z.of_nat (length (train_labels (view_base v))))%Z)
                   indices)
  ∧ get_state (view_base v') = Ok (after_flip r).
Proof.
  intros Hreach Hret.
  pose proof (reachable_binary_inv v Hreach) as (Hb & _).
  apply view_flip_labels_base in Hret as [Hflip _].
  destruct (flip_labels_report _ _ _ _ Hflip) as (ps & Hps & -> & -> & Hst).
  split; [|done].
  rewrite <- (positions_length _ _ _ Hps).
  apply positions_inv in Hps as [Hall _].
  rewrite Nat.add_comm, np_sum_binary; [by rewrite length_map|].
  apply Forall_map. eapply Forall_impl; [exact Hall|].
  intros p Hp. simpl. by apply binary_at_index.
Qed.

Lemma flip_labels_counts_witness :
  flip0_1 two_pairs_flip_report + flip1_0 two_pairs_flip_report
  = length (filter (λ i, (i < Z.of_nat (length (train_labels
                                (view_base (Pointwise two_pairs_sampled)))))%Z)
                   [2; 0]%Z)
  ∧ get_state (view_base (Pointwise two_pairs_flipped))
    = Ok (after_flip two_pairs_flip_report).
Proof.
  apply (flip_labels_counts (Pointwise two_pairs_sampled) [2; 0]%Z
           (Pointwise two_pairs_flipped) two_pairs_flip_report).
  - apply (reach_ng_sample (Pointwise (two_pairs 0 1)) [5; 3; 2; 7] _ []).
    + apply reach_new.
      exact (new_pointwise 2 10 [(0, 5); (1, 2)] two_pairs_mat [1; 0]%Z 0 1).
    + by vm_compute.
  - by vm_compute.
Defined.

Lemma positions_ok len idx :
  Forall (λ i, (- Z.of_nat len ≤ i < Z.of_nat len)%Z) idx →
  ∃ ps, positions len idx = Ok ps.
Proof.
  induction 1 as [|i idx Hi _ [ps IH]]; simpl; [by eexists|].
  unfold position.
  destruct (decide (0 ≤ i < Z.of_nat len)%Z).
  - rewrite bool_decide_eq_true_2 by done. rewrite IH. by eexists.
  - rewrite bool_decide_eq_false_2 by done.
    rewrite bool_decide_eq_true_2 by lia. rewrite IH. by eexists.
Qed.

Lemma positions_raises len idx i :
  i ∈ idx → (i < - Z.of_nat len)%Z → positions len idx = Err IndexError.
Proof.
  intros Hi Hlow. induction idx as [|j idx IH]; [by apply elem_of_nil in Hi|].
  simpl. apply elem_of_cons in Hi as [<-|Hi].
  - unfold position. by rewrite !bool_decide_eq_false_2 by lia.
  - destruct (position len j); [|done]. by rewrite (IH Hi).
Qed.

(** The state [flip_labels] leaves: untouched when it stops before the
    update, toggled entry by entry otherwise. *)
Lemma flip_state_labels d indices :
  (¬ flips_ok d indices → flip_state d indices = d)
  ∧ (flips_ok d indices →
     is_training (flip_state d indices) = is_training d
     ∧ length (train_labels (flip_state d indices)) = length (train_labels d)
     ∧ ∀ k, k < length (train_labels d) →
         at_index (train_labels (flip_state d indices)) k
         = if decide (Z.of_nat k ∈ indices
                      ∨ (Z.of_nat k - Z.of_nat (length (train_labels d)))%Z ∈ indices)
           then (1 - at_index (train_labels d) k)%Z
           else at_index (train_labels d) k).
Proof.
  rewrite flip_state_eq. set (len := length (train_labels d)).
  set (valid := filter (λ i, (i < Z.of_nat len)%Z) indices).
  split.
  - intros Hnot. case_bool_decide as Hmode; [done|].
    case_bool_decide as Hfit; [|done].
    destruct (positions len valid) as [ps|e] eqn:Hps; [|done].
    destruct Hnot. split; [done|]. split; [done|].
    apply Forall_forall. intros i Hi.
    destruct (decide (- Z.of_nat len ≤ i)%Z) as [|Hlow]; [done|].
    rewrite (positions_raises len valid i) in Hps; [done| |lia].
    apply list_elem_of_filter. split; [lia|done].
  - intros (Hmode & Hfit & Hall). rewrite bool_decide_eq_false_2 by done.
    rewrite bool_decide_eq_true_2 by done.
    destruct (positions_ok len valid) as [ps Hps].
    { apply Forall_forall. intros i [Hi Hin]%list_elem_of_filter.
      rewrite Forall_forall in Hall. specialize (Hall i Hin). lia. }
    rewrite Hps. simpl. split; [done|]. split; [apply toggle_at_length|].
    destruct (positions_inv _ _ _ Hps) as [Hlt Hiff].
    intros k Hk. rewrite toggle_at_index by done.
    assert (Hin : k ∈ ps ↔ (Z.of_nat k ∈ indices
                            ∨ (Z.of_nat k - Z.of_nat len)%Z ∈ indices)).
    { rewrite Hiff. split.
      - intros (i & [Hi Hi']%list_elem_of_filter & Hpos).
        apply position_of_valid in Hpos as [->| ->]; auto.
      - intros [Hi|Hi]; eexists;
          (split; [apply list_elem_of_filter; split; [|exact Hi]|]);
          try lia; apply position_of_valid; auto; lia. }
    repeat case_decide; tauto.
Qed.

Lemma flips_ok_preserved d indices indices' :
  flips_ok (flip_state d indices) indices' ↔ flips_ok d indices'.
Proof.
  destruct (decide (flips_ok d indices)) as [Hok|Hnot].
  - destruct (proj2 (flip_state_labels d indices) Hok) as (Hmode & Hlen & _).
    unfold flips_ok. by rewrite Hmode, Hlen.
  - by rewrite (proj1 (flip_state_labels d indices) Hnot).
Qed.

(** X10: two [flip_labels] calls commute: the training labels after
    flipping [a] and then [b] are those after flipping [b] and then [a],
    whatever the two index lists (overlapping or not) and however the calls
    end. *)
Theorem flip_labels_commute (d : NCF_Dataset) (a b : list Z) :
  train_labels (flip_state (flip_state d a) b)
  = train_labels (flip_state (flip_state d b) a).
Proof.
  destruct (decide (flips_ok d a)) as [Ha|Ha];
    [|rewrite (proj1 (flip_state_labels d a) Ha);
      rewrite (proj1 (flip_state_labels (flip_state d b) a));
      [done|by rewrite flips_ok_preserved]].
  destruct (decide (flips_ok d b)) as [Hb|Hb];
    [|rewrite (proj1 (flip_state_labels d b) Hb);
      rewrite (proj1 (flip_state_labels (flip_state d a) b));
      [done|by rewrite flips_ok_preserved]].
  destruct (proj2 (flip_state_labels d a) Ha) as (_ & Hla & Hka).
  destruct (proj2 (flip_state_labels d b) Hb) as (_ & Hlb & Hkb).
  destruct (proj2 (flip_state_labels (flip_state d a) b)
              (proj2 (flips_ok_preserved d a b) Hb)) as (_ & Hlab & Hkab).
  destruct (proj2 (flip_state_labels (flip_state d b) a)
              (proj2 (flips_ok_preserved d b a) Ha)) as (_ & Hlba & Hkba).
  apply at_index_ext; [congruence|].
  intros k Hk. rewrite Hlab, Hla in Hk.
  rewrite Hkab, Hkba by lia. rewrite Hka, Hkb by lia. rewrite Hla, Hlb.
  repeat case_decide; lia.
Qed.

(** X11: the training labels [flip_labels] leaves depend only on which
    indices occur in the list, not on their order or on repetitions: a
    repeated index is toggled once. *)
Theorem flip_labels_as_set (d : NCF_Dataset) (l1 l2 : list Z) :
  (∀ i, i ∈ l1 ↔ i ∈ l2) →
  train_labels (flip_state d l1) = train_labels (flip_state d l2).
Proof.
  intros Hsame.
  assert (Hok : flips_ok d l1 ↔ flips_ok d l2).
  { unfold flips_ok. rewrite !Forall_forall. by setoid_rewrite Hsame. }
  destruct (decide (flips_ok d l1)) as [H1|H1].
  - pose proof (proj1 Hok H1) as H2.
    destruct (proj2 (flip_state_labels d l1) H1) as (_ & Hl1 & Hk1).
    destruct (proj2 (flip_state_labels d l2) H2) as (_ & Hl2 & Hk2).
    apply at_index_ext; [congruence|].
    intros k Hk. rewrite Hl1 in Hk. rewrite Hk1, Hk2 by done.
    repeat case_decide; try done; exfalso; rewrite <- ?Hsame in *; tauto
      || (rewrite ?Hsame in *; tauto).
  - rewrite (proj1 (flip_state_labels d l1) H1).
    rewrite (proj1 (flip_state_labels d l2)); [done|]. by rewrite <- Hok.
Qed.

Lemma flip_labels_as_set_witness :
  train_labels (flip_state two_pairs_sampled [0; 0; 1]%Z)
  = train_labels (flip_state two_pairs_sampled [1; 0]%Z).
Proof.
  apply (flip_labels_as_set two_pairs_sampled [0; 0; 1]%Z [1; 0]%Z).
  intros i. rewrite !elem_of_cons, !elem_of_nil. tauto.
Defined.

Lemma np_and_error m1 m2 e : np_and m1 m2 = Err e → e = ValueError.
Proof.
  unfold np_and. case_bool_decide; [done|].
  destruct m1 as [|b1 [|c1 m1]], m2 as [|b2 [|c2 m2]]; try done;
    by intros [= <-].
Qed.

Lemma get_state_error d e : get_state d = Err e → e = ValueError.
Proof.
  unfold get_state.
  destruct (np_and (np_eq (train_labels d) 1) (np_eq (true_labels d) 1))
    as [tp|e1] eqn:E1; simpl; [|intros [= <-]; by eapply np_and_error].
  destruct (np_and (np_eq (train_labels d) 0) (np_eq (true_labels d) 0))
    as [tn|e2] eqn:E2; simpl; [|intros [= <-]; by eapply np_and_error].
  destruct (np_and (np_eq (train_labels d) 1) (np_eq (true_labels d) 0))
    as [fp|e3] eqn:E3; simpl; [|intros [= <-]; by eapply np_and_error].
  destruct (np_and (np_eq (train_labels d) 0) (np_eq (true_labels d) 1))
    as [fn|e4] eqn:E4; simpl; [done|intros [= <-]; by eapply np_and_error].
Qed.

(** X12: outside evaluation mode, [flip_labels] raises [OverflowError]
    exactly when some given index does not fit an [int32], and
    [IndexError] exactly when all of them fit and some index is below
    [-len(train_labels)]; in both cases it has changed nothing.  Indices at
    or above [len(train_labels)] cause neither. *)
Theorem flip_labels_index_error (d : NCF_Dataset) (indices : list Z) :
  is_training d ≠ 2 →
  (¬ Forall fits_int32 indices →
   flip_labels d indices = Raises d OverflowError)
  ∧ (Forall fits_int32 indices →
     (∃ i, i ∈ indices ∧ (i < - Z.of_nat (length (train_labels d)))%Z) →
     flip_labels d indices = Raises d IndexError)
  ∧ (∀ d', flip_labels d indices = Raises d' OverflowError →
       d' = d ∧ ¬ Forall fits_int32 indices)
  ∧ (∀ d', flip_labels d indices = Raises d' IndexError →
       d' = d ∧ Forall fits_int32 indices
       ∧ ∃ i, i ∈ indices ∧ (i < - Z.of_nat (length (train_labels d)))%Z).
Proof.
  intros Hmode.
  assert (Hover : ¬ Forall fits_int32 indices →
                  flip_labels d indices = Raises d OverflowError).
  { intros Hfit. unfold flip_labels. rewrite bool_decide_eq_false_2 by done.
    by rewrite np_array_int32_overflow. }
  assert (Hindex : Forall fits_int32 indices →
            (∃ i, i ∈ indices ∧ (i < - Z.of_nat (length (train_labels d)))%Z) →
            flip_labels d indices = Raises d IndexError).
  { intros Hfit (i & Hi & Hlow). unfold flip_labels.
    rewrite bool_decide_eq_false_2 by done.
    rewrite np_array_int32_ok by done.
    rewrite (positions_raises _ _ i); [done| |done].
    apply list_elem_of_filter. split; [lia|done]. }
  assert (Hrest : Forall fits_int32 indices →
            Forall (λ i, (- Z.of_nat (length (train_labels d)) ≤ i)%Z) indices →
            ∀ d' e, flip_labels d indices = Raises d' e → e = ValueError).
  { intros Hfit Hall d' e. unfold flip_labels.
    rewrite bool_decide_eq_false_2 by done.
    rewrite np_array_int32_ok by done.
    destruct (positions_ok (length (train_labels d))
                (filter (λ i, (i < Z.of_nat (length (train_labels d)))%Z) indices))
      as [ps Hps].
    { apply Forall_forall. intros i [Hi Hin]%list_elem_of_filter.
      rewrite Forall_forall in Hall. specialize (Hall i Hin). lia. }
    rewrite Hps.
    destruct (get_state _) as [st|e'] eqn:Est; [done|].
    apply get_state_error in Est as ->. by intros [= _ <-]. }
  split; [done|]. split; [done|].
  destruct (decide (Forall fits_int32 indices)) as [Hfit|Hfit].
  2: { split; intros d' Hraise; rewrite (Hover Hfit) in Hraise;
         [by injection Hraise as <-|discriminate]. }
  destruct (decide (Forall (λ i, (- Z.of_nat (length (train_labels d)) ≤ i)%Z)
                           indices)) as [Hall|Hnot].
  - split; intros d' Hraise; by specialize (Hrest Hfit Hall _ _ Hraise).
  - apply not_Forall_Exists in Hnot; [|apply _].
    apply Exists_exists in Hnot as (i & Hi & Hlow). simpl in Hlow.
    assert (Hex : ∃ i, i ∈ indices
                       ∧ (i < - Z.of_nat (length (train_labels d)))%Z).
    { exists i. split; [done|lia]. }
    split; intros d' Hraise; rewrite (Hindex Hfit Hex) in Hraise;
      [discriminate|by injection Hraise as <-].
Qed.

Lemma flip_labels_index_error_witness :
  (¬ Forall fits_int32 [0; -3; 7]%Z →
   flip_labels two_pairs_sampled [0; -3; 7]%Z
   = Raises two_pairs_sampled OverflowError)
  ∧ (Forall fits_int32 [0; -3; 7]%Z →
     (∃ i, i ∈ [0; -3; 7]%Z
           ∧ (i < - Z.of_nat (length (train_labels two_pairs_sampled)))%Z) →
     flip_labels two_pairs_sampled [0; -3; 7]%Z
     = Raises two_pairs_sampled IndexError)
  ∧ (∀ d', flip_labels two_pairs_sampled [0; -3; 7]%Z = Raises d' OverflowError →
       d' = two_pairs_sampled ∧ ¬ Forall fits_int32 [0; -3; 7]%Z)
  ∧ (∀ d', flip_labels two_pairs_sampled [0; -3; 7]%Z = Raises d' IndexError →
       d' = two_pairs_sampled ∧ Forall fits_int32 [0; -3; 7]%Z
       ∧ ∃ i, i ∈ [0; -3; 7]%Z
              ∧ (i < - Z.of_nat (length (train_labels two_pairs_sampled)))%Z).
Proof.
  apply (flip_labels_index_error two_pairs_sampled [0; -3; 7]%Z).
  by vm_compute.
Defined.

(** * Further properties of sampling and of the views *)

Lemma draw_negative_uses_draws tm n u draws rest j :
  draw_negative tm n u draws = Returns rest j →
  ∃ used, draws = used ++ rest ∧ 1 ≤ length used.
Proof.
  revert rest j. induction draws as [|r draws IH]; intros rest j; simpl.
  - case_bool_decide; discriminate.
  - case_bool_decide as Hn.
    + destruct draws; simpl; discriminate.
    + case_bool_decide as Hin.
      * intros Hret. destruct draws as [|r' draws'].
        -- simpl in Hret. rewrite bool_decide_eq_false_2 in Hret by done.
           discriminate.
        -- destruct (IH _ _ Hret) as (used & -> & Hlen).
           exists (r :: used). split; [done|]. simpl. lia.
      * intros [= <- <-]. exists [r]. split; [done|]. simpl. lia.
Qed.

Lemma negatives_pass_uses_draws tm n rows draws rest negs :
  negatives_pass tm n rows draws = Returns rest negs →
  ∃ used, draws = used ++ rest ∧ length rows ≤ length used.
Proof.
  revert draws rest negs.
  induction rows as [|[u i] rows IH]; intros draws rest negs; simpl.
  - intros [= <- <-]. exists []. split; [done|]. simpl. lia.
  - destruct (draw_negative tm n u draws) as [draws1 j| |] eqn:Ed; try done.
    destruct (negatives_pass tm n rows draws1) as [draws2 negs'| |] eqn:Ep; try done.
    intros [= <- <-].
    destruct (draw_negative_uses_draws _ _ _ _ _ _ Ed) as (used1 & -> & H1).
    destruct (IH _ _ _ Ep) as (used2 & -> & H2).
    exists (used1 ++ used2). split; [by rewrite (assoc_L (++))|].
    rewrite length_app. lia.
Qed.

Lemma sample_negatives_users tm n rows passes draws rest negs :
  sample_negatives tm n rows passes draws = Returns rest negs →
  map fst negs = concat (replicate passes (map fst rows))
  ∧ ∃ used, draws = used ++ rest ∧ passes * length rows ≤ length used.
Proof.
  revert draws rest negs.
  induction passes as [|passes IH]; intros draws rest negs; simpl.
  - intros [= <- <-]. split; [done|]. exists []. split; [done|]. simpl. lia.
  - destruct (negatives_pass tm n rows draws) as [draws1 negs1| |] eqn:Ep; try done.
    destruct (sample_negatives tm n rows passes draws1) as [draws2 negs2| |] eqn:Es;
      try done.
    intros [= <- <-]. destruct (IH _ _ _ Es) as (Husers & used2 & -> & H2).
    destruct (negatives_pass_uses_draws _ _ _ _ _ _ Ep) as (used1 & -> & H1).
    apply negatives_pass_returns in Ep as [Hfst _]. split.
    + by rewrite map_app, Hfst, Husers.
    + exists (used1 ++ used2). split; [by rewrite (assoc_L (++))|].
      rewrite length_app. lia.
Qed.

Lemma lookup_concat_replicate {A} (l : list A) (k p i : nat) :
  p < k → i < length l →
  concat (replicate k l) !! (p * length l + i) = l !! i.
Proof.
  revert p. induction k as [|k IH]; intros p Hp Hi; [lia|].
  simpl. destruct p as [|p].
  - simpl. by rewrite lookup_app_l.
  - rewrite lookup_app_r by (simpl; lia).
    replace (S p * length l + i - length l) with (p * length l + i) by (simpl; lia).
    apply IH; lia.
Qed.

(** X13: when [ng_sample] returns with [num_ng >= 1], the negatives come
    pass by pass in the order of the positive rows: for every pass [p] and
    positive row [i] with user [u], row [len(features) * (p + 1) + i] of
    the filled features is a pair of the same user [u] with an item below
    [item_num] that is not in the interaction matrix; and the call has
    consumed at least one draw per negative from the front of the random
    tape. *)
Theorem negatives_follow_users (d : NCF_Dataset) (draws : list nat)
    (d' : NCF_Dataset) (draws' : list nat) :
  1 ≤ num_ng d →
  ng_sample d draws = Returns (d', draws') () →
  ∃ f used,
    features_fill d' = Some f
    ∧ draws = used ++ draws'
    ∧ num_ng d * length (features d) ≤ length used
    ∧ ∀ p i u it, p < num_ng d → features d !! i = Some (u, it) →
        ∃ j, f !! (length (features d) * S p + i) = Some (u, j)
             ∧ j < item_num d ∧ (u, j) ∉ train_mat d.
Proof.
  intros Hng. unfold ng_sample.
  case_bool_decide as Hmode; [done|].
  rewrite bool_decide_eq_false_2 by lia.
  destruct (sample_negatives _ _ _ _ _) as [draws1 negs| |] eqn:Es; try done.
  case_bool_decide as Hnil; [done|].
  case_bool_decide as Hlens; [|done].
  intros [= <- <-].
  destruct (sample_negatives_users _ _ _ _ _ _ _ Es) as (Husers & used & -> & Hused).
  apply sample_negatives_returns in Es as (Hlen & Hall & _).
  exists (features d ++ negs), used. split; [done|]. split; [done|].
  split; [done|]. intros p i u it Hp Hi.
  pose proof (lookup_lt_Some _ _ _ Hi) as Hlt.
  assert (Hidx : p * length (features d) + i < length negs) by nia.
  destruct (lookup_lt_is_Some_2 negs _ Hidx) as [[u' j] Huj].
  exists j.
  assert (Hu : u' = u).
  { assert (E : map fst negs !! (p * length (features d) + i) = Some u').
    { by rewrite list_lookup_fmap, Huj. }
    rewrite Husers in E.
    rewrite <- (length_map fst (features d)) in E at 1.
    rewrite lookup_concat_replicate in E by (rewrite ?length_map; lia).
    rewrite list_lookup_fmap, Hi in E. simpl in E. congruence. }
  subst u'.
  rewrite Forall_forall in Hall.
  destruct (Hall (u, j)) as [Hnotin Hj]; [by eapply list_elem_of_lookup_2|].
  split; [|done].
  rewrite lookup_app_r by nia.
  replace (length (features d) * S p + i - length (features d))
    with (p * length (features d) + i) by nia.
  done.
Qed.

Lemma negatives_follow_users_witness :
  ∃ f used,
    features_fill two_pairs_sampled = Some f
    ∧ [5; 3; 2; 7] = used ++ []
    ∧ num_ng (two_pairs 0 1) * length (features (two_pairs 0 1)) ≤ length used
    ∧ ∀ p i u it, p < num_ng (two_pairs 0 1) →
        features (two_pairs 0 1) !! i = Some (u, it) →
        ∃ j, f !! (length (features (two_pairs 0 1)) * S p + i) = Some (u, j)
             ∧ j < item_num (two_pairs 0 1) ∧ (u, j) ∉ train_mat (two_pairs 0 1).
Proof.
  apply (negatives_follow_users (two_pairs 0 1) [5; 3; 2; 7] two_pairs_sampled []).
  - simpl. lia.
  - by vm_compute.
Defined.

Lemma np_where_elem (mask : list bool) (i : nat) :
  i ∈ np_where mask ↔ mask !! i = Some true.
Proof.
  induction mask as [|b mask IH] using rev_ind.
  - split; [by intros ?%elem_of_nil|done].
  - rewrite np_where_snoc, elem_of_app, IH. split.
    + intros [Hi|Hi]; [by apply lookup_app_l_Some|].
      destruct b; [|by apply elem_of_nil in Hi].
      apply list_elem_of_singleton in Hi as ->.
      by rewrite lookup_app_r, Nat.sub_diag.
    + intros Hi. destruct (decide (i < length mask)) as [Hlt|Hge].
      * left. by rewrite lookup_app_l in Hi.
      * right. rewrite lookup_app_r in Hi by lia.
        destruct (i - length mask) as [|k] eqn:Ek; simpl in Hi; [|done].
        injection Hi as ->. apply list_elem_of_singleton. lia.
Qed.

Lemma mask_select_where {A} (a : list A) (mask : list bool) (r : list A) :
  mask_select a mask = Ok r →
  Forall2 (λ i x, a !! i = Some x) (np_where mask) r.
Proof.
  unfold mask_select. case_bool_decide as Hlen; [|done]. intros [= <-].
  revert a Hlen. induction mask as [|b mask IH] using rev_ind; intros a Hlen.
  - destruct a; [constructor|done].
  - destruct a as [|x a _] using rev_ind.
    { rewrite length_app in Hlen. simpl in Hlen. lia. }
    rewrite !length_app in Hlen. simpl in Hlen.
    assert (Hlen' : length mask = length a) by lia.
    rewrite np_where_snoc, zip_with_app by done.
    rewrite filter_app, fmap_app. apply Forall2_app.
    + eapply Forall2_impl; [by apply IH|].
      intros i y Hy. by apply lookup_app_l_Some.
    + simpl. rewrite filter_cons. simpl. destruct b; case_decide; try done.
      simpl. constructor; [|constructor].
      by rewrite lookup_app_r, Hlen', Nat.sub_diag by lia.
Qed.

Lemma select_group_spec f l tl trl (key : nat * nat → Prop)
    `{∀ row, Decision (key row)} :
  length l = length f → length tl = length f → length trl = length f →
  ∃ G, select_group f l tl trl (map (λ row, bool_decide (key row)) f) = Ok G
       ∧ group_of f l tl trl key G.
Proof.
  intros Hl Htl Htrl. unfold select_group.
  set (mask := map (λ row, bool_decide (key row)) f).
  assert (Hm : length mask = length f) by apply length_map.
  destruct (mask_select_ok (map fst f) mask) as [us Eu]; [by rewrite length_map|].
  destruct (mask_select_ok (map snd f) mask) as [its Ei]; [by rewrite length_map|].
  destruct (mask_select_ok l mask) as [ls El]; [lia|].
  destruct (mask_select_ok tl mask) as [tls Etl]; [lia|].
  destruct (mask_select_ok trl mask) as [trls Etrl]; [lia|].
  rewrite Eu, Ei, El, Etl, Etrl. simpl. eexists. split; [done|].
  unfold group_of. simpl. split; [|repeat split; by apply mask_select_where].
  intros i. rewrite np_where_elem. unfold mask. rewrite list_lookup_fmap.
  split.
  - destruct (f !! i) as [row|]; [|done]. simpl. intros [= Hk].
    exists row. split; [done|]. by apply bool_decide_eq_true in Hk.
  - intros (row & -> & Hk). simpl. by rewrite bool_decide_eq_true_2.
Qed.

(** What every [__getitem__] returns on a sampled, aligned object. *)
Lemma getitem_spec (v : sample_view) (g : nat) :
  reachable v →
  is_Some (fill (view_base v)) →
  aligned (view_base v) →
  ∃ f l tl trl,
    features_fill (view_base v) = Some f
    ∧ labels_fill (view_base v) = Some l
    ∧ true_labels_fill (view_base v) = Some tl
    ∧ train_labels_fill (view_base v) = Some trl
    ∧ length f = NCF_Dataset_len (view_base v)
    ∧ match v with
      | Pointwise d =>
          (g < length f →
           ∃ r, NCF_Dataset_getitem d g = Ok r
                ∧ f !! g = Some (r_user r, r_item r)
                ∧ l !! g = Some (r_label r)
                ∧ trl !! g = Some (r_train_label r)
                ∧ tl !! g = Some (r_true_label r)
                ∧ r_idx r = g)
          ∧ (length f ≤ g → NCF_Dataset_getitem d g = Err IndexError)
      | UserWise d =>
          ∃ G, NCF_UserWise_Dataset_getitem d g = Ok G
               ∧ group_of f l tl trl (λ row, row.1 = g) G
      | ItemWise d =>
          ∃ G, NCF_ItemWise_Dataset_getitem d g = Ok G
               ∧ group_of f l tl trl (λ row, row.2 = g) G
      | NeighborWise c =>
          ∃ G, NCF_NeighborWise_Dataset_getitem c g = Ok G
               ∧ group_of f l tl trl
                   (λ row, at_index (clusters_per_sample c)
                                    (row_entity (neighbor_type c) row)
                           = Z.of_nat g) G
      end.
Proof.
  intros Hreach Hfill Halign.
  apply reachable_view_inv in Hreach as [Hbase Hview].
  destruct (filled_arrays_ok _ Hbase Halign Hfill)
    as (f & l & tl & trl & negs & Harr & Hf & Hl & Htl & Htrl & _ & Hlen & _).
  exists f, l, tl, trl.
  assert (Hfills : labels_fill (view_base v) = Some l
                   ∧ true_labels_fill (view_base v) = Some tl
                   ∧ train_labels_fill (view_base v) = Some trl).
  { unfold filled_arrays in Harr. case_bool_decide; [done|]. rewrite Hf in Harr.
    destruct (labels_fill _), (true_labels_fill _), (train_labels_fill _);
      try done. by injection Harr as -> -> ->. }
  destruct Hfills as (Hlf & Htlf & Htrlf).
  do 5 (split; [done|]).
  destruct v as [d|d|d|c]; simpl in *.
  - split.
    + intros Hg. unfold NCF_Dataset_getitem. rewrite Harr. simpl.
      unfold lookup_or_raise.
      destruct (lookup_lt_is_Some_2 f g) as [[u it] Ef]; [lia|].
      destruct (lookup_lt_is_Some_2 l g) as [x El]; [lia|].
      destruct (lookup_lt_is_Some_2 trl g) as [y Etrl]; [lia|].
      destruct (lookup_lt_is_Some_2 tl g) as [z Etl]; [lia|].
      rewrite Ef, El, Etrl, Etl. simpl. eexists. split; [done|]. done.
    + intros Hg. unfold NCF_Dataset_getitem. rewrite Harr. simpl.
      unfold lookup_or_raise. by rewrite lookup_ge_None_2.
  - unfold NCF_UserWise_Dataset_getitem. rewrite Harr. simpl.
    destruct (select_group_spec f l tl trl (λ row, row.1 = g) Hl Htl Htrl)
      as (G & HG & Hgroup). by exists G.
  - unfold NCF_ItemWise_Dataset_getitem. rewrite Harr. simpl.
    destruct (select_group_spec f l tl trl (λ row, row.2 = g) Hl Htl Htrl)
      as (G & HG & Hgroup). by exists G.
  - destruct Hview as (_ & _ & _ & Hids). rewrite Hf in Hids.
    destruct (cluster_ids_fill c) as [ids|] eqn:Eids; [|done].
    destruct Hids as [Hids _].
    unfold NCF_NeighborWise_Dataset_getitem. rewrite Harr. simpl. rewrite Eids.
    destruct (select_group_spec f l tl trl
                (λ row, at_index (clusters_per_sample c)
                                 (row_entity (neighbor_type c) row)
                        = Z.of_nat g) Hl Htl Htrl)
      as (G & HG & Hgroup).
    exists G. split; [|done]. rewrite <- HG. f_equal.
    rewrite Hids. unfold np_eq, entity_column, row_entity.
    destruct (neighbor_type c); by rewrite !map_map.
Qed.

(** X14: on every sampled object a program can hold (one true label per
    pair), the pointwise [__getitem__(idx)] returns row [idx] of the filled
    arrays for [idx] below [__len__()] and raises [IndexError] from there
    on; the user-wise, item-wise and cluster-wise [__getitem__(g)] return
    for every [g]: [idx] lists exactly the rows whose user, item or cluster
    (of the configured entity) is [g], and the other five arrays are the
    filled arrays at those rows. *)
Theorem getitem_returns_rows (v : sample_view) (g : nat) :
  reachable v →
  is_Some (fill (view_base v)) →
  aligned (view_base v) →
  ∃ f l tl trl,
    features_fill (view_base v) = Some f
    ∧ labels_fill (view_base v) = Some l
    ∧ true_labels_fill (view_base v) = Some tl
    ∧ train_labels_fill (view_base v) = Some trl
    ∧ length f = NCF_Dataset_len (view_base v)
    ∧ match v with
      | Pointwise d =>
          (g < length f →
           ∃ r, NCF_Dataset_getitem d g = Ok r
                ∧ f !! g = Some (r_user r, r_item r)
                ∧ l !! g = Some (r_label r)
                ∧ trl !! g = Some (r_train_label r)
                ∧ tl !! g = Some (r_true_label r)
                ∧ r_idx r = g)
          ∧ (length f ≤ g → NCF_Dataset_getitem d g = Err IndexError)
      | UserWise d =>
          ∃ G, NCF_UserWise_Dataset_getitem d g = Ok G
               ∧ group_of f l tl trl (λ row, row.1 = g) G
      | ItemWise d =>
          ∃ G, NCF_ItemWise_Dataset_getitem d g = Ok G
               ∧ group_of f l tl trl (λ row, row.2 = g) G
      | NeighborWise c =>
          ∃ G, NCF_NeighborWise_Dataset_getitem c g = Ok G
               ∧ group_of f l tl trl
                   (λ row, at_index (clusters_per_sample c)
                                    (row_entity (neighbor_type c) row)
                           = Z.of_nat g) G
      end.
Proof. apply getitem_spec. Qed.

Lemma getitem_returns_rows_witness :
  ∃ f l tl trl,
    features_fill (view_base (UserWise two_pairs_sampled)) = Some f
    ∧ labels_fill (view_base (UserWise two_pairs_sampled)) = Some l
    ∧ true_labels_fill (view_base (UserWise two_pairs_sampled)) = Some tl
    ∧ train_labels_fill (view_base (UserWise two_pairs_sampled)) = Some trl
    ∧ length f = NCF_Dataset_len (view_base (UserWise two_pairs_sampled))
    ∧ ∃ G, NCF_UserWise_Dataset_getitem two_pairs_sampled 1 = Ok G
           ∧ group_of f l tl trl (λ row, row.1 = 1) G.
Proof.
  apply (getitem_returns_rows (UserWise two_pairs_sampled) 1).
  - apply (reach_ng_sample (UserWise (two_pairs 0 1)) [5; 3; 2; 7] _ []).
    + apply reach_new.
      exact (new_userwise 2 10 [(0, 5); (1, 2)] two_pairs_mat [1; 0]%Z 0 1).
    + by vm_compute.
  - by eexists.
  - reflexivity.
Defined.

Lemma group_of_empty f l tl trl key G :
  group_of f l tl trl key G →
  (∀ row, row ∈ f → ¬ key row) →
  G = empty_group.
Proof.
  intros (Hidx & Hu & Hi & Hl & Htrl & Htl) Hnone.
  assert (Hnil : g_idx G = []).
  { destruct (g_idx G) as [|i idx]; [done|]. exfalso.
    destruct (proj1 (Hidx i) ltac:(left)) as (row & Hrow & Hkey).
    apply (Hnone row); [by eapply list_elem_of_lookup_2|done]. }
  rewrite Hnil in *.
  apply Forall2_nil_inv_l in Hu, Hi, Hl, Htrl, Htl.
  destruct G. simpl in *. by subst.
Qed.

(** X15: on a sampled object a program can hold, a group id at or beyond
    [__len__()] is no error for the three grouped views: [__getitem__]
    returns six empty arrays (rows' users and items being below [user_num]
    and [item_num] for the user-wise and item-wise view); the pointwise
    view raises [IndexError] there. *)
Theorem getitem_beyond_len (v : sample_view) (g : nat) :
  reachable v →
  is_Some (fill (view_base v)) →
  aligned (view_base v) →
  keys_in_range v →
  group_count v ≤ g →
  match v with
  | Pointwise d => NCF_Dataset_getitem d g = Err IndexError
  | UserWise d => NCF_UserWise_Dataset_getitem d g = Ok empty_group
  | ItemWise d => NCF_ItemWise_Dataset_getitem d g = Ok empty_group
  | NeighborWise c => NCF_NeighborWise_Dataset_getitem c g = Ok empty_group
  end.
Proof.
  intros Hreach Hfill Halign Hkeys Hg.
  destruct (getitem_spec v g Hreach Hfill Halign)
    as (f & l & tl & trl & Hf & _ & _ & _ & Hlen & Hspec).
  apply reachable_view_inv in Hreach as [Hbase Hview].
  destruct (filled_arrays_ok _ Hbase Halign Hfill)
    as (f' & _ & _ & _ & negs & _ & Hf' & _ & _ & _ & Happ & _ & Hitems & Husers).
  assert (f' = f) as -> by congruence.
  destruct v as [d|d|d|c]; simpl in *.
  - apply Hspec. lia.
  - destruct Hspec as (G & -> & Hgroup). f_equal.
    apply (group_of_empty _ _ _ _ _ _ Hgroup).
    intros row Hrow. rewrite Happ in Hrow.
    rewrite Forall_forall in Hkeys, Husers.
    apply elem_of_app in Hrow as [Hrow|Hrow].
    + specialize (Hkeys row Hrow). unfold NCF_UserWise_Dataset_len in Hg. lia.
    + specialize (Husers row Hrow).
      apply list_elem_of_fmap in Husers as (ui & E & Hui).
      specialize (Hkeys ui Hui). unfold NCF_UserWise_Dataset_len in Hg. lia.
  - destruct Hspec as (G & -> & Hgroup). f_equal.
    apply (group_of_empty _ _ _ _ _ _ Hgroup).
    intros row Hrow. rewrite Happ in Hrow.
    rewrite Forall_forall in Hkeys, Hitems.
    apply elem_of_app in Hrow as [Hrow|Hrow].
    + specialize (Hkeys row Hrow). unfold NCF_ItemWise_Dataset_len in Hg. lia.
    + specialize (Hitems row Hrow). unfold NCF_ItemWise_Dataset_len in Hg. lia.
  - destruct Hspec as (G & -> & Hgroup). f_equal.
    apply (group_of_empty _ _ _ _ _ _ Hgroup).
    intros row Hrow.
    destruct Hview as (_ & Hrange & _ & Hids). rewrite Hf in Hids.
    destruct (cluster_ids_fill c) as [ids|]; [|done].
    destruct Hids as [_ Hcol]. rewrite Forall_forall in Hcol.
    assert (He : row_entity (neighbor_type c) row
                 < length (clusters_per_sample c)).
    { apply Hcol. unfold entity_column, row_entity.
      destruct (neighbor_type c); by apply list_elem_of_fmap_2. }
    specialize (Hrange _ He). unfold NCF_NeighborWise_Dataset_len in Hg. lia.
Qed.

Lemma getitem_beyond_len_witness :
  NCF_UserWise_Dataset_getitem two_pairs_sampled 7 = Ok empty_group.
Proof.
  apply (getitem_beyond_len (UserWise two_pairs_sampled) 7).
  - apply (reach_ng_sample (UserWise (two_pairs 0 1)) [5; 3; 2; 7] _ []).
    + apply reach_new.
      exact (new_userwise 2 10 [(0, 5); (1, 2)] two_pairs_mat [1; 0]%Z 0 1).
    + by vm_compute.
  - by eexists.
  - reflexivity.
  - repeat constructor.
  - simpl. lia.
Defined.

(** X16: in evaluation mode ([is_training == 2]) [ng_sample] raises its
    assertion failure and leaves the object as it is; and in evaluation
    mode, or as long as [ng_sample] has not run, [__getitem__] of each of
    the four views raises [AttributeError] for every index (it reads
    [features_ps], which nothing sets, or a [*_fill] attribute that does not
    exist yet). *)
Theorem getitem_needs_sampling (v : sample_view) (g : nat) (draws : list nat) :
  (is_training (view_base v) = 2 →
   view_ng_sample v draws
   = Raises (v, draws)
            (AssertionError (Some "Sampling only for training mode"%string)))
  ∧ (is_training (view_base v) = 2 ∨ fill (view_base v) = None →
     match v with
     | Pointwise d => NCF_Dataset_getitem d g = Err AttributeError
     | UserWise d => NCF_UserWise_Dataset_getitem d g = Err AttributeError
     | ItemWise d => NCF_ItemWise_Dataset_getitem d g = Err AttributeError
     | NeighborWise c => NCF_NeighborWise_Dataset_getitem c g = Err AttributeError
     end).
Proof.
  split.
  - intros Hmode. destruct v as [d|d|d|c]; simpl in *;
      unfold NCF_NeighborWise_Dataset_ng_sample, ng_sample;
      rewrite bool_decide_eq_true_2 by done; try done.
    by destruct c.
  - intros Hnot.
    assert (Harr : filled_arrays (view_base v) = Err AttributeError).
    { unfold filled_arrays, features_fill. destruct Hnot as [Hmode|Hnone].
      - by rewrite bool_decide_eq_true_2.
      - rewrite Hnone. by case_bool_decide. }
    destruct v as [d|d|d|c]; simpl in *;
      unfold NCF_Dataset_getitem, NCF_UserWise_Dataset_getitem,
        NCF_ItemWise_Dataset_getitem, NCF_NeighborWise_Dataset_getitem;
      by rewrite Harr.
Qed.

Lemma getitem_needs_sampling_witness :
  NCF_Dataset_getitem (two_pairs 0 1) 0 = Err AttributeError.
Proof.
  apply (proj2 (getitem_needs_sampling (Pointwise (two_pairs 0 1)) 0 [])).
  right. reflexivity.
Defined.

Lemma ng_sample_users d draws d' draws' :
  ng_sample d draws = Returns (d', draws') () →
  ∃ f, features_fill d' = Some f
       ∧ map fst f = concat (replicate (S (num_ng d)) (map fst (features d))).
Proof.
  unfold ng_sample. case_bool_decide as Hmode; [done|].
  case_bool_decide as Hng.
  - intros [= <- <-]. exists (features d). split; [done|].
    rewrite Hng. simpl. by rewrite app_nil_r.
  - destruct (sample_negatives _ _ _ _ _) as [draws1 negs| |] eqn:Es; try done.
    case_bool_decide as Hnil; [done|].
    case_bool_decide as Hlens; [|done].
    intros [= <- <-].
    destruct (sample_negatives_users _ _ _ _ _ _ _ Es) as (Husers & _).
    exists (features d ++ negs). split; [done|].
    rewrite map_app, Husers. done.
Qed.

(** X17: how a flip shows in the filled training labels.  After an
    [ng_sample] with [num_ng == 0] they are the array [train_labels]
    itself, so a later [flip_labels] shows in them at once; with
    [num_ng >= 1] a later [flip_labels] leaves them as they are, and the
    next [ng_sample] rebuilds them from the flipped [train_labels],
    followed by zeros, while the filled true labels are rebuilt from the
    unchanged ground truth. *)
Theorem flips_show_after_resampling (d : NCF_Dataset) (draws : list nat)
    (d1 : NCF_Dataset) (draws1 : list nat) (indices : list Z)
    (d2 : NCF_Dataset) (r : flip_report) :
  ng_sample d draws = Returns (d1, draws1) () →
  flip_labels d1 indices = Returns d2 r →
  (num_ng d = 0 → train_labels_fill d2 = Some (train_labels d2))
  ∧ (num_ng d ≠ 0 →
     train_labels_fill d2 = train_labels_fill d1
     ∧ ∀ draws2 d3 draws3,
         ng_sample d2 draws2 = Returns (d3, draws3) () →
         ∃ k, train_labels_fill d3 = Some (train_labels d2 ++ replicate k 0%Z)
              ∧ true_labels_fill d3 = Some (true_labels d ++ replicate k 0%Z)
              ∧ k = num_ng d * length (features d)).
Proof.
  intros Hs Hf.
  destruct (flip_labels_returns _ _ _ _ Hf) as (ps & _ & ->).
  destruct (features_fill_ng_sample _ _ _ _ Hs) as (Hfe & _ & _ & Hng & Htl).
  split.
  - intros Hzero. by destruct (ng_sample_same _ _ _ _ Hzero Hs) as [-> _].
  - intros Hne. split.
    { by destruct (ng_sample_fresh _ _ _ _ Hne Hs)
        as (_ & _ & _ & _ & negs & -> & _). }
    intros draws2 d3 draws3 Hs2.
    assert (Hne2 : num_ng (with_train_labels d1 (toggle_at (train_labels d1) ps)) ≠ 0)
      by (simpl; lia).
    destruct (ng_sample_fresh _ _ _ _ Hne2 Hs2)
      as (_ & _ & _ & _ & negs & -> & _ & Hlen & _).
    simpl in *. exists (length negs).
    rewrite Htl, Hlen, Hng, Hfe. done.
Qed.

Lemma flips_show_after_resampling_witness :
  (num_ng (two_pairs 0 1) = 0 →
   train_labels_fill two_pairs_flipped = Some (train_labels two_pairs_flipped))
  ∧ (num_ng (two_pairs 0 1) ≠ 0 →
     train_labels_fill two_pairs_flipped = train_labels_fill two_pairs_sampled
     ∧ ∀ draws2 d3 draws3,
         ng_sample two_pairs_flipped draws2 = Returns (d3, draws3) () →
         ∃ k, train_labels_fill d3
              = Some (train_labels two_pairs_flipped ++ replicate k 0%Z)
              ∧ true_labels_fill d3
                = Some (true_labels (two_pairs 0 1) ++ replicate k 0%Z)
              ∧ k = num_ng (two_pairs 0 1) * length (features (two_pairs 0 1))).
Proof.
  apply (flips_show_after_resampling (two_pairs 0 1) [5; 3; 2; 7]
           two_pairs_sampled [] [2; 0]%Z two_pairs_flipped two_pairs_flip_report).
  - by vm_compute.
  - by vm_compute.
Defined.

Lemma map_concat_replicate {A B} (h : A → B) (k : nat) (l : list A) :
  map h (concat (replicate k l)) = concat (replicate k (map h l)).
Proof. induction k as [|k IH]; simpl; [done|]. by rewrite map_app, IH. Qed.

(** The cluster id array of a cluster-wise view a program can hold is the
    cluster array read at the entity column of the positive rows. *)
Lemma reachable_cluster_ids v :
  reachable v →
  match v with
  | NeighborWise c =>
      cluster_ids c
      = map (at_index (clusters_per_sample c))
            (entity_column (neighbor_type c) (features (nw_base c)))
  | _ => True
  end.
Proof.
  induction 1 as [v Hc|v draws v' draws' _ IH Hret|v indices v' r _ IH Hret].
  - destruct Hc as [| | |argsort sim un inum f tm tl it ng gs nt c Hinit]; try done.
    revert Hinit. unfold NCF_NeighborWise_Dataset_init, assign_cluster_ids.
    case_bool_decide; [done|].
    destruct (take_indices _ _) as [ids|e] eqn:Et; [|done]. simpl.
    case_bool_decide; [|done]. intros [= <-]. simpl.
    by apply take_indices_inv in Et as [_ ->].
  - destruct v as [d|d|d|c]; simpl in Hret.
    1-3: destruct (ng_sample _ _) as [[d1 dr] []|[d1 dr] e|]; try done;
         by injection Hret as <- <-.
    destruct (NCF_NeighborWise_Dataset_ng_sample c draws)
      as [[c1 dr] []|[c1 dr] e|] eqn:E; try done.
    injection Hret as <- <-.
    apply NCF_NeighborWise_Dataset_ng_sample_returns in E
      as (d & f & E & _ & _ & ->).
    destruct (features_fill_ng_sample _ _ _ _ E) as (Hfe & _).
    simpl. by rewrite Hfe.
  - apply view_flip_labels_base in Hret as [Hflip ->].
    destruct v as [d|d|d|c]; simpl in *; try done.
    destruct (flip_labels_returns _ _ _ _ Hflip) as (ps & _ & ->). done.
Qed.

(** X18: on a cluster-wise object a program can hold, the indexing that
    [NCF_NeighborWise_Dataset.ng_sample] adds never fails: whenever the
    inherited [ng_sample] returns, so does the override, and
    [cluster_ids_fill] holds, row by row of the filled features, the cluster
    of the row's user (or item), an id in [[0, cluster_num)].  With neighbor
    type user it is [cluster_ids] repeated [num_ng + 1] times: every
    negative lies in the cluster of its positive row. *)
Theorem cluster_ids_follow_rows (c : NCF_NeighborWise_Dataset)
    (draws : list nat) (d : NCF_Dataset) (draws' : list nat) :
  reachable (NeighborWise c) →
  ng_sample (nw_base c) draws = Returns (d, draws') () →
  ∃ f ids,
    features_fill d = Some f
    ∧ NCF_NeighborWise_Dataset_ng_sample c draws
      = Returns (with_base c d (Some ids), draws') ()
    ∧ ids = map (λ row, at_index (clusters_per_sample c)
                                 (row_entity (neighbor_type c) row)) f
    ∧ Forall (λ x, (0 ≤ x < Z.of_nat (cluster_num c))%Z) ids
    ∧ (neighbor_type c = by_user →
       ids = concat (replicate (S (num_ng (nw_base c))) (cluster_ids c))).
Proof.
  intros Hreach Hs.
  pose proof (reachable_cluster_ids _ Hreach) as Hcid. simpl in Hcid.
  apply reachable_view_inv in Hreach as [_ (Hlen & Hrange & Hcol & _)].
  destruct (ng_sample_users _ _ _ _ Hs) as (f & Hf & Husers).
  assert (Hin : Forall (λ e, e < length (clusters_per_sample c))
                       (entity_column (neighbor_type c) f)).
  { rewrite Hlen. destruct (decide (num_ng (nw_base c) = 0)) as [Hng|Hng].
    - destruct (ng_sample_same _ _ _ _ Hng Hs) as [-> _].
      injection Hf as <-. done.
    - destruct (ng_sample_fresh _ _ _ _ Hng Hs)
        as (_ & _ & _ & _ & negs & -> & _ & _ & Hitems & Hus).
      injection Hf as <-.
      destruct (neighbor_type c); simpl in *; rewrite map_app;
        apply Forall_app; (split; [done|]); apply Forall_map.
      + eapply Forall_impl; [exact Hus|]. simpl. intros uj Huj.
        rewrite Forall_forall in Hcol. by apply Hcol.
      + eapply Forall_impl; [exact Hitems|]. simpl. by intros uj [_ ?]. }
  exists f, (map (at_index (clusters_per_sample c))
                 (entity_column (neighbor_type c) f)).
  split; [done|]. split.
  { unfold NCF_NeighborWise_Dataset_ng_sample.
    by rewrite Hs, Hf, (take_indices_ok _ _ Hin). }
  split.
  { unfold entity_column, row_entity.
    destruct (neighbor_type c); by rewrite map_map. }
  split.
  { apply Forall_map. eapply Forall_impl; [exact Hin|]. simpl.
    intros e He. by apply Hrange. }
  intros Hnt. rewrite Hcid, Hnt. unfold entity_column.
  rewrite Husers. apply map_concat_replicate.
Qed.

Lemma cluster_ids_follow_rows_witness :
  ∃ f ids,
    features_fill two_pairs_sampled = Some f
    ∧ NCF_NeighborWise_Dataset_ng_sample two_pairs_clustered [5; 3; 2; 7]
      = Returns (with_base two_pairs_clustered two_pairs_sampled (Some ids), []) ()
    ∧ ids = map (λ row, at_index (clusters_per_sample two_pairs_clustered)
                                 (row_entity (neighbor_type two_pairs_clustered) row)) f
    ∧ Forall (λ x, (0 ≤ x < Z.of_nat (cluster_num two_pairs_clustered))%Z) ids
    ∧ (neighbor_type two_pairs_clustered = by_user →
       ids = concat (replicate (S (num_ng (nw_base two_pairs_clustered)))
                               (cluster_ids two_pairs_clustered))).
Proof.
  apply (cluster_ids_follow_rows two_pairs_clustered [5; 3; 2; 7]
           two_pairs_sampled []).
  - apply reach_new.
    apply (new_neighborwise stable_argsort two_users 2 10 [(0, 5); (1, 2)] two_pairs_mat
                            [1; 0]%Z 0 1 1 by_user).
    by vm_compute.
  - by vm_compute.
Defined.
